(** * coverParse: a shallow embedding of [src/index.ts]

    The program bulk-downloads the cover and chapter images of a catalogue
    and records, for every URL, the path of the stored file or the message
    of the error that ended its download.  This development embeds, in
    source order,

    - the string operations the program relies on ([includes],
      [toLowerCase], [substring], ...), module [JS];
    - [md5Hash], module [MD5] (RFC 1321, what [createHash("md5")] computes),
      and [removeBefore];
    - the [got] HTTP client as far as the program observes it, module [Got];
    - the [Downloader] class: its semaphore (module [Semaphore], and module
      [Callers] for its concurrent callers) and [doDownload];
    - the main routine: the construction of [imgMap], and the jobs that
      [Promise.all] runs interleaved, as a transition system whose steps are
      the segments of a job between two suspensions;

    and then states and proves the properties of the specification.

    Effects are explicit.  [doDownload] is run against what each of its
    attempts meets on the network and on the disk, and returns the trace of
    its GETs, sleeps and file writes next to its result.  The periodic
    [saveJson] only reads the variables the jobs share: what a call of it
    writes, and the timers that start it (module [Saver]), are embedded
    apart from the jobs. *)

From Stdlib Require Import ZArith NArith Lia Bool Ascii String List.
From Stdlib.Init Require Import Byte.
From Stdlib Require Import DecimalString Sorted.
From stdpp Require Import base option list strings gmap.
From Equations Require Import Equations.
Import ListNotations.

Local Open Scope Z_scope.

(* ===================================================================== *)
(** ** JavaScript string primitives *)
(* ===================================================================== *)

Module JS.

(** [s.startsWith(t)] *)
Definition startsWith (s t : string) : bool := String.prefix t s.

(** [s.includes(t)] *)
Fixpoint includes (s t : string) : bool :=
  if startsWith s t then true
  else match s with
       | EmptyString => false
       | String _ s' => includes s' t
       end.

(** [s.indexOf(t)], [-1] when [t] does not occur *)
Fixpoint indexOf (s t : string) : Z :=
  if startsWith s t then 0
  else match s with
       | EmptyString => -1
       | String _ s' =>
           let i := indexOf s' t in
           if i <? 0 then -1 else i + 1
       end.

Fixpoint drop (n : nat) (s : string) : string :=
  match n, s with
  | O, _ => s
  | S n', String _ s' => drop n' s'
  | S _, EmptyString => EmptyString
  end.

Fixpoint take (n : nat) (s : string) : string :=
  match n, s with
  | S n', String c s' => String c (take n' s')
  | _, _ => EmptyString
  end.

Definition length (s : string) : Z := Z.of_nat (String.length s).

(** [s.substring(a, b)]: both indices are clamped to [0 .. s.length] and
    swapped when [a > b]. *)
Definition substring (s : string) (a b : Z) : string :=
  let clamp i := Z.max 0 (Z.min i (length s)) in
  let lo := Z.min (clamp a) (clamp b) in
  let hi := Z.max (clamp a) (clamp b) in
  take (Z.to_nat (hi - lo)) (drop (Z.to_nat lo) s).

(** [s.slice(a, b)] for non-negative indices *)
Definition slice (s : string) (a b : Z) : string :=
  let clamp i := Z.max 0 (Z.min i (length s)) in
  take (Z.to_nat (clamp b - clamp a)) (drop (Z.to_nat (clamp a)) s).

(** [toLowerCase] on one Latin-1 code unit: A-Z, and the accented capitals
    0xC0-0xDE except the multiplication sign 0xD7. *)
Definition lower_char (c : ascii) : ascii :=
  let n := N_of_ascii c in
  if ((65 <=? n) && (n <=? 90))%N then ascii_of_N (n + 32)
  else if ((192 <=? n) && (n <=? 222) && negb (n =? 215))%N then ascii_of_N (n + 32)
  else c.

(** [s.toLowerCase()] *)
Fixpoint toLowerCase (s : string) : string :=
  match s with
  | EmptyString => EmptyString
  | String c s' => String (lower_char c) (toLowerCase s')
  end.

(** [arr.some(p)] *)
Definition some {A} (p : A -> bool) (arr : list A) : bool := existsb p arr.

(** Template-literal rendering of a non-negative integer. *)
Definition showN (n : N) : string := NilZero.string_of_uint (N.to_uint n).

End JS.

(* ===================================================================== *)
(** ** MD5 *)
(* ===================================================================== *)

(** [md5Hash] feeds the buffer to Node's [createHash("md5")] and asks for the
    hexadecimal digest.  The digest is computed here as RFC 1321 defines it,
    on 32-bit words held in [Z] with the wrap-around written out. *)
Module MD5.

Definition w32 (x : Z) : Z := Z.land x 0xffffffff.

Definition add32 (x y : Z) : Z := w32 (x + y).

Definition not32 (x : Z) : Z := Z.lxor x 0xffffffff.

Definition rotl32 (x c : Z) : Z :=
  w32 (Z.lor (Z.shiftl x c) (Z.shiftr x (32 - c))).

Definition S : list Z :=
  [7; 12; 17; 22; 7; 12; 17; 22; 7; 12; 17; 22; 7; 12; 17; 22;
   5;  9; 14; 20; 5;  9; 14; 20; 5;  9; 14; 20; 5;  9; 14; 20;
   4; 11; 16; 23; 4; 11; 16; 23; 4; 11; 16; 23; 4; 11; 16; 23;
   6; 10; 15; 21; 6; 10; 15; 21; 6; 10; 15; 21; 6; 10; 15; 21].

(** [K[i] = floor(2^32 * |sin (i + 1)|)] *)
Definition K : list Z :=
  [0xd76aa478; 0xe8c7b756; 0x242070db; 0xc1bdceee;
   0xf57c0faf; 0x4787c62a; 0xa8304613; 0xfd469501;
   0x698098d8; 0x8b44f7af; 0xffff5bb1; 0x895cd7be;
   0x6b901122; 0xfd987193; 0xa679438e; 0x49b40821;
   0xf61e2562; 0xc040b340; 0x265e5a51; 0xe9b6c7aa;
   0xd62f105d; 0x02441453; 0xd8a1e681; 0xe7d3fbc8;
   0x21e1cde6; 0xc33707d6; 0xf4d50d87; 0x455a14ed;
   0xa9e3e905; 0xfcefa3f8; 0x676f02d9; 0x8d2a4c8a;
   0xfffa3942; 0x8771f681; 0x6d9d6122; 0xfde5380c;
   0xa4beea44; 0x4bdecfa9; 0xf6bb4b60; 0xbebfbc70;
   0x289b7ec6; 0xeaa127fa; 0xd4ef3085; 0x04881d05;
   0xd9d4d039; 0xe6db99e5; 0x1fa27cf8; 0xc4ac5665;
   0xf4292244; 0x432aff97; 0xab9423a7; 0xfc93a039;
   0x655b59c3; 0x8f0ccc92; 0xffeff47d; 0x85845dd1;
   0x6fa87e4f; 0xfe2ce6e0; 0xa3014314; 0x4e0811a1;
   0xf7537e82; 0xbd3af235; 0x2ad7d2bb; 0xeb86d391].

Definition at_ (l : list Z) (i : Z) : Z := nth (Z.to_nat i) l 0.

(** Message padding: a [0x80] byte, zeros up to 56 modulo 64, then the
    bit length as a 64-bit little-endian integer. *)
Definition le_bytes (n : nat) (x : Z) : list Z :=
  map (fun i => Z.land (Z.shiftr x (8 * Z.of_nat i)) 0xff) (seq 0 n).

Definition pad (msg : list Z) : list Z :=
  let len := Z.of_nat (List.length msg) in
  let zeros := Z.to_nat ((55 - len) mod 64) in
  msg ++ [0x80] ++ repeat 0 zeros ++ le_bytes 8 ((8 * len) mod 2 ^ 64).

Fixpoint words (fuel : nat) (bs : list Z) : list Z :=
  match fuel, bs with
  | Datatypes.S fuel', b0 :: b1 :: b2 :: b3 :: rest =>
      (b0 + Z.shiftl b1 8 + Z.shiftl b2 16 + Z.shiftl b3 24) :: words fuel' rest
  | _, _ => []
  end.

Record state := State { sa : Z; sb : Z; sc : Z; sd : Z }.

Definition init : state :=
  State 0x67452301 0xefcdab89 0x98badcfe 0x10325476.

Definition round (M : list Z) (st : state) (i : Z) : state :=
  let '(State a b c d) := st in
  let '(f, g) :=
    if i <? 16 then (Z.lor (Z.land b c) (Z.land (not32 b) d), i)
    else if i <? 32 then (Z.lor (Z.land d b) (Z.land (not32 d) c), (5 * i + 1) mod 16)
    else if i <? 48 then (Z.lxor (Z.lxor b c) d, (3 * i + 5) mod 16)
    else (Z.lxor c (Z.lor b (not32 d)), (7 * i) mod 16) in
  let f' := add32 (add32 (add32 f a) (at_ K i)) (at_ M g) in
  State d (add32 b (rotl32 f' (at_ S i))) b c.

Definition block (st : state) (M : list Z) : state :=
  let '(State a b c d) :=
    fold_left (round M) (map Z.of_nat (seq 0 64)) st in
  State (add32 (sa st) a) (add32 (sb st) b) (add32 (sc st) c) (add32 (sd st) d).

Fixpoint blocks (fuel : nat) (st : state) (ws : list Z) : state :=
  match fuel, ws with
  | Datatypes.S fuel', _ :: _ => blocks fuel' (block st (firstn 16 ws)) (skipn 16 ws)
  | _, _ => st
  end.

Definition hex_digit (n : Z) : ascii :=
  if n <? 10 then ascii_of_N (Z.to_N (48 + n)) else ascii_of_N (Z.to_N (87 + n)).

Fixpoint hex (bs : list Z) : string :=
  match bs with
  | [] => EmptyString
  | b :: bs' => String (hex_digit (Z.shiftr b 4)) (String (hex_digit (Z.land b 15)) (hex bs'))
  end.

Definition digest (msg : list Z) : list Z :=
  let bs := pad msg in
  let ws := words (List.length bs) bs in
  let '(State a b c d) := blocks (List.length ws) init ws in
  le_bytes 4 a ++ le_bytes 4 b ++ le_bytes 4 c ++ le_bytes 4 d.

Definition hexdigest (buf : list Byte.byte) : string :=
  hex (digest (map (fun b => Z.of_N (Byte.to_N b)) buf)).

End MD5.

(** [const md5Hash = (str: Buffer) => createHash("md5").update(str).digest("hex")] *)
Definition md5Hash (str : list Byte.byte) : string := MD5.hexdigest str.

(** [const removeBefore = (s, del) => s.substring(s.indexOf(del) + 1, s.length)] *)
Definition removeBefore (s del : string) : string :=
  JS.substring s (JS.indexOf s del + 1) (JS.length s).

(* ===================================================================== *)
(** ** Platform and library interfaces *)
(* ===================================================================== *)

(** The [got] HTTP client is an npm dependency and not part of the sources.
    The program sees of it what one call resolves to or throws; whatever a
    call does on the wire (redirects, its own retries) is inside the call. *)
Module Got.

Record Response := {
  statusCode : N;
  statusMessage : string;
  content_type : option string;   (* [headers["content-type"]] *)
  body : list Byte.byte;
}.

(** What one GET meets: a response of the server, or a failure below HTTP
    (DNS, connection, TLS, timeout) with the message of its error. *)
Inductive Exchange :=
| Reply (r : Response)
| Failure (message : string).

(** Modelled from the spec: the statuses that are no "HTTP error status". *)
Definition isResponseOk (r : Response) : bool :=
  ((200 <=? statusCode r) && (statusCode r <=? 299) || (statusCode r =? 304))%N.

(** Modelled from the spec: the message of the error raised for an HTTP
    error status, [Response code <status> (<reason phrase>)] -- the format
    the [case] labels of [doDownload] are written against. *)
Definition HTTPError_message (r : Response) : string :=
  "Response code " +:+ JS.showN (statusCode r) +:+ " (" +:+ statusMessage r +:+ ")".

(** Modelled from the spec: [await got(url, { throwHttpErrors, ... })].
    [throwHttpErrors] ("strict") decides whether a response carrying an HTTP
    error status is raised as a failure or returned as a response.  The
    result is the response, or the message of the error thrown. *)
Definition got (throwHttpErrors : bool) (x : Exchange) : Response + string :=
  match x with
  | Failure message => inr message
  | Reply r =>
      if throwHttpErrors && negb (isResponseOk r)
      then inr (HTTPError_message r)
      else inl r
  end.

End Got.

(** What the [n]-th attempt of a download meets: the exchange on the wire
    and, should the program get as far as writing the file, whether
    [writeFile] throws (with which message). *)
Record Attempt := {
  exchange : Got.Exchange;
  writeFile_error : option string;
}.

(** How a block of statements completes. *)
Inductive Completion :=
| Return (value : string)
| Throw (message : string).

(* ===================================================================== *)
(** ** class Downloader *)
(* ===================================================================== *)

Definition outDir : string := "./images".

(** The two fields of a [Downloader].  The queue holds one resolver per
    suspended caller; a resolver is represented by its caller. *)
Record Downloader (T : Type) := {
  avalibleDeliverySlots : Z;
  downloadQueue : list T;
}.
Arguments avalibleDeliverySlots {T} _.
Arguments downloadQueue {T} _.

Module Semaphore.
Section Semaphore.
Context {T : Type}.

(** [constructor(downloadThreads)] *)
Definition new (downloadThreads : Z) : Downloader T :=
  {| avalibleDeliverySlots := downloadThreads; downloadQueue := [] |}.

(** [getDownloadSempahore()]: [true] when the caller proceeds at once,
    [false] when its resolver has been pushed on the queue. *)
Definition getDownloadSempahore (this : Downloader T) (caller : T)
  : Downloader T * bool :=
  if 0 <? avalibleDeliverySlots this
  then ({| avalibleDeliverySlots := avalibleDeliverySlots this - 1;
           downloadQueue := downloadQueue this |}, true)
  else ({| avalibleDeliverySlots := avalibleDeliverySlots this;
           downloadQueue := downloadQueue this ++ [caller] |}, false).

(** [releaseDownloadSemaphore()]: the slot count is incremented; the
    first queued resolver, if any, is shifted out and run, which
    decrements the count again and resumes its caller. *)
Definition releaseDownloadSemaphore (this : Downloader T)
  : Downloader T * option T :=
  let slots := avalibleDeliverySlots this + 1 in
  match downloadQueue this with
  | [] => ({| avalibleDeliverySlots := slots; downloadQueue := [] |}, None)
  | resolver :: rest =>
      ({| avalibleDeliverySlots := slots - 1; downloadQueue := rest |},
       Some resolver)
  end.

End Semaphore.
End Semaphore.

(** Any number of concurrent calls of [download] on one [Downloader].  A
    call is identified by its rank among the calls made so far.  Between its
    two ends a call either waits in the queue or is in flight (it holds a
    slot and its [doDownload] runs); [download] releases exactly once, when
    its own [doDownload] has resolved. *)
Module Callers.

Record State := {
  this : Downloader nat;
  calls : nat;             (* number of calls made so far *)
  in_flight : list nat;    (* calls past [await getDownloadSempahore()],
                              not yet released *)
}.

Definition init (downloadThreads : Z) : State :=
  {| this := Semaphore.new downloadThreads; calls := 0; in_flight := [] |}.

Inductive Label :=
| Call                    (* a new call of [download] *)
| Settle (caller : nat).  (* the [doDownload] of [caller] resolves *)

Definition step (l : Label) (σ : State) : option State :=
  match l with
  | Call =>
      let '(d, granted) := Semaphore.getDownloadSempahore (this σ) (calls σ) in
      Some {| this := d;
              calls := S (calls σ);
              in_flight := if granted then in_flight σ ++ [calls σ]
                           else in_flight σ |}
  | Settle c =>
      if decide (c ∈ in_flight σ) then
        let '(d, woken) := Semaphore.releaseDownloadSemaphore (this σ) in
        Some {| this := d;
                calls := calls σ;
                in_flight := List.filter (fun x => negb (x =? c)%nat) (in_flight σ)
                             ++ option_list woken |}
      else None
  end.

Fixpoint run (ls : list Label) (σ : State) : option State :=
  match ls with
  | [] => Some σ
  | l :: ls' => σ' ← step l σ; run ls' σ'
  end.

(** What holds of a [Downloader] between any two segments of its callers. *)
Record Inv (capacity : Z) (σ : State) : Prop := {
  inv_slots :
    avalibleDeliverySlots (this σ) = capacity - Z.of_nat (length (in_flight σ));
  inv_nonneg : 0 <= avalibleDeliverySlots (this σ);
  inv_saturated :
    downloadQueue (this σ) <> [] -> avalibleDeliverySlots (this σ) = 0;
  inv_sorted : StronglySorted lt (downloadQueue (this σ));
  inv_queue_old : Forall (fun x => (x < calls σ)%nat) (downloadQueue (this σ));
  inv_flight_old : Forall (fun x => (x < calls σ)%nat) (in_flight σ);
  inv_nodup : NoDup (in_flight σ);
  inv_disjoint : forall x, x ∈ in_flight σ -> x ∉ downloadQueue (this σ);
}.

(** The calls in flight are older than the calls that wait: every call in
    flight was made before every call in the queue. *)
Definition in_order (σ : State) : Prop :=
  forall x q, x ∈ in_flight σ -> q ∈ downloadQueue (this σ) -> (x < q)%nat.

End Callers.

Section DoDownload.
Context {URL : Type}.

(** Observable effects of a download, in program order. *)
Inductive Event :=
| Request (url : URL) (throwHttpErrors : bool)
| Sleep (ms : Z)
| WriteFile (path : string) (data : list Byte.byte).

Definition MaxRetries : nat := 5.

Definition mediaTypes : list string := ["audio"; "image"; "video"]%string.

(** The condition of the [if] on the content-type header, given that the
    header is defined. *)
Definition invalid_content_type (ct : string) : bool :=
  negb (JS.some (fun type => JS.includes (JS.toLowerCase ct) type) mediaTypes)
  || JS.includes (JS.toLowerCase ct) "charset".

(** The body of the [try] block, run against what the attempt meets. *)
Definition try_block (url : URL) (throwHttpErrors : bool) (a : Attempt)
  : Completion * list Event :=
  match Got.got throwHttpErrors (exchange a) with
  | inr message => (Throw message, [Request url throwHttpErrors])
  | inl response =>
      let ct := Got.content_type response in
      if match ct with Some c => invalid_content_type c | None => false end
      then
        let message := ("Invalid content-type " +:+ default EmptyString ct)%string in
        if negb throwHttpErrors
        then (Throw message, [Request url throwHttpErrors])
        else (Return message, [Request url throwHttpErrors])
      else
        let fileName := md5Hash (Got.body response) in
        let fileExt := match ct with Some c => removeBefore c "/" | None => EmptyString end in
        let filePath := (outDir +:+ "/" +:+ fileName +:+ "." +:+ fileExt)%string in
        match writeFile_error a with
        | Some message => (Throw message, [Request url throwHttpErrors])
        | None =>
            (Return filePath,
             [Request url throwHttpErrors; WriteFile filePath (Got.body response)])
        end
  end.

(** The [case] labels of the [switch] in the [catch] block. *)
Definition switch_cases : list string :=
  ["Response code 400 (Bad Request)";
   "Response code 404 (Not Found)";
   "Response code 403 (Forbidden)";
   "Response code 503 (Service Unavailable)";
   "Response code 410 (Gone)";
   "Response code 422 (Unknown)"]%string.

Definition switch_returns (message : string) : bool :=
  existsb (String.eqb message) switch_cases.

(** [doDownload(url, throwHttpErrors, retries, retryDelay)].  [env r] is
    what the attempt made with retry count [r] meets.  The result is the
    string the promise resolves to, with the effects performed. *)
Equations doDownload (env : nat -> Attempt) (url : URL) (throwHttpErrors : bool)
    (retries : nat) (retryDelay : Z) : string * list Event
    by wf (MaxRetries - retries)%nat lt :=
  doDownload env url throwHttpErrors retries retryDelay
    with try_block url throwHttpErrors (env retries) => {
    | (Return value, evs) := (value, evs);
    | (Throw message, evs) with switch_returns message => {
      | true := (message, evs);
      | false with JS.includes message "getaddrinfo ENOTFOUND" => {
        | true := (message, evs);
        | false with lt_dec retries MaxRetries => {
          | left _ :=
              let '(result, evs') :=
                doDownload env url throwHttpErrors (retries + 1)%nat (retryDelay + 1000) in
              (result, evs ++ Sleep retryDelay :: evs');
          | right _ := (message, evs) } } } }.
Next Obligation. lia. Qed.

(** Number of GETs in a trace. *)
Definition attempts (evs : list Event) : nat :=
  List.length (List.filter (fun e => match e with Request _ _ => true | _ => false end) evs).

(** The delays slept, in order. *)
Definition sleeps (evs : list Event) : list Z :=
  omap (fun e => match e with Sleep ms => Some ms | _ => None end) evs.

End DoDownload.

Arguments Event : clear implicits.

(** Whether [doDownload] ends with an attempt that completes this way,
    whatever retries remain: the [try] block has returned, or it has thrown
    an error on which the [catch] block returns at once. *)
Definition decisive (c : Completion) : bool :=
  match c with
  | Return _ => true
  | Throw message =>
      switch_returns message || JS.includes message "getaddrinfo ENOTFOUND"
  end.

(** What [doDownload] resolves to when it ends with an attempt that
    completes this way: the value returned, or [err.message]. *)
Definition outcome (c : Completion) : string :=
  match c with
  | Return value => value
  | Throw message => message
  end.

(* ===================================================================== *)
(** ** The main routine *)
(* ===================================================================== *)

(** Own property names of [Object.prototype].  An object literal answers a
    property read under one of these names with the inherited value. *)
Definition Object_prototype : list string :=
  ["constructor"; "__defineGetter__"; "__defineSetter__"; "hasOwnProperty";
   "__lookupGetter__"; "__lookupSetter__"; "isPrototypeOf";
   "propertyIsEnumerable"; "toString"; "valueOf"; "__proto__";
   "toLocaleString"]%string.

(** An [Entry] of [images.json], as read: [null] URLs occur and are dropped
    by [urlSet.delete(null)]. *)
Record Entry := {
  id : Z;
  cover : option string;
  chapter_urls : list (option string);
}.

(** [urlSet.add(x)] on a [Set], which keeps insertion order. *)
Definition Set_add (urlSet : list (option string)) (x : option string)
  : list (option string) :=
  if decide (x ∈ urlSet) then urlSet else urlSet ++ [x].

(** Lines 114-121: the URLs of all entries, without duplicates and without
    [null]. *)
Definition urlArray_of (imgs : list Entry) : list string :=
  let urlSet :=
    fold_left
      (fun urlSet entry =>
         fold_left Set_add (chapter_urls entry) (Set_add urlSet (cover entry)))
      imgs [] in
  omap (fun x => x) urlSet.

(** Which of the three [download] calls of the job a download is. *)
Inductive Stage :=
| Direct     (* line 181: [download(downUrl, false)], when [k === url] *)
| Resolved   (* line 183: [download(downUrl)] *)
| Retry.     (* line 185: [downloaders.retry.download(kUrl, false)] *)

(** ** The state of the main routine *)

Section JobTypes.
Context {URL : Type}.

(** The variables a job closes over once it is past line 176. *)
Record Frame := {
  k : string;
  url : string;
  kUrl : URL;
  downUrl : URL;
}.

(** Where a job stands.  A job only yields inside [download]: while it
    waits for a slot, and while [doDownload] runs. *)
Inductive Status :=
| Pending
| Acquiring (f : Frame) (stage : Stage)
| Downloading (f : Frame) (stage : Stage)
| Returned
| Thrown.

(** Instrumentation: what a job has asked for and obtained so far. *)
Inductive ItemEvent :=
| Download (dest : string) (target : URL) (throwHttpErrors : bool)
| Outcome (result : string) (trace : list (Event URL)).

Record Task := {
  task_url : string;               (* [imgMap[k]] *)
  task_status : Status;
  task_history : list ItemEvent;
}.

(** The variables the jobs share.  [urlPathMap] (like [imgMap]) is only
    read and written under original URLs, strings that [new URL] has
    accepted: none of them names a property of [Object.prototype], and the
    object behaves as a finite map.  [downloaders] is read under host
    names, which may name such a property: see [job_start]. *)
Record State := {
  urlPathMap : gmap string string;
  downloaders : gmap string (Downloader string);
  done : nat;
  tasks : gmap string Task;
}.

(** The jobs of [Promise.all(todo.map(...))] run interleaved on one
    thread; control changes hands only where a job awaits.  A schedule
    is the sequence of such segments: a job starts and runs to its first
    suspension, or the download a job waits for settles and the job runs to
    its next suspension or its end.  [todo] is shuffled and [map] starts
    the jobs in its order, all of them before any download settles; the
    schedules considered here are these and more: any order of starts, and
    starts interleaved with settlements.  A job that throws rejects
    [Promise.all], and the process ends on the rejection, which nothing
    handles; here the other jobs go on, which adds schedules and removes
    none. *)
Inductive Label :=
| Start (k : string)
| Settle (k : string) (env : nat -> Attempt).

End JobTypes.

Arguments Frame : clear implicits.
Arguments Status : clear implicits.
Arguments ItemEvent : clear implicits.
Arguments Task : clear implicits.
Arguments State : clear implicits.

(** ** Counting over the jobs *)

(** Sum of the numbers held in a map. *)
Definition total (m : gmap string nat) : nat :=
  map_fold (fun _ n acc => (n + acc)%nat) 0%nat m.

Section JobMeasures.
Context {URL : Type}.

(** The segments a job can still run: its start, and what follows each of
    the downloads it can still make. *)
Definition segments_left (t : Task URL) : nat :=
  match task_status t with
  | Pending => 3
  | Acquiring _ Resolved | Downloading _ Resolved => 2
  | Acquiring _ _ | Downloading _ _ => 1
  | Returned | Thrown => 0
  end.

(** The segments all the jobs together can still run. *)
Definition work_left (σ : State URL) : nat :=
  total (segments_left <$> tasks σ).

(** The job is through line 189, or was skipped at line 168. *)
Definition has_returned (t : Task URL) : bool :=
  match task_status t with
  | Returned => true
  | _ => false
  end.

(** Number of GETs a job has made, all its downloads taken together. *)
Definition requests (h : list (ItemEvent URL)) : nat :=
  list_sum (map (fun e => match e with
                          | Outcome _ trace => attempts trace
                          | Download _ _ _ => 0%nat
                          end) h).

End JobMeasures.

(** The WHATWG [URL] class of the platform, as far as the program uses it:
    the constructor (which throws a [TypeError] on a string that is not an
    absolute URL), [searchParams.get] and [hostname]. *)
Class URLApi := {
  URL : Type;
  newURL : string -> option URL;
  searchParams_get : URL -> string -> option string;
  hostname : URL -> string;
}.

Section Main.
Context `{URLApi}.

(** The body of the loop of lines 125-133: the value stored under
    [imgMap[url]], or [None] when [new URL(url)] throws. *)
Definition resolve (url : string) : option string :=
  u ← newURL url;
  let qUrl := searchParams_get u "url" in
  let fUrl := default url qUrl in
  let fUrl :=
    if JS.startsWith fUrl "//" then JS.slice fUrl 2 (JS.length fUrl) else fUrl in
  Some fUrl.

(** The loop itself.  Nothing catches the exception of [new URL(url)]:
    the first URL that does not parse ends the routine. *)
Fixpoint build_imgMap (urlArray : list string) (imgMap : gmap string string)
  : option (gmap string string) :=
  match urlArray with
  | [] => Some imgMap
  | url :: rest =>
      fUrl ← resolve url;
      build_imgMap rest (<[url := fUrl]> imgMap)
  end.

(** Destination, target and [throwHttpErrors] of each [download] call;
    [download(downUrl)] leaves [retryErrors] undefined, so [doDownload]
    takes its default [throwHttpErrors = true]. *)
Definition call_of (f : Frame URL) (stage : Stage) : string * URL * bool :=
  match stage with
  | Direct => (hostname (downUrl f), downUrl f, false)
  | Resolved => (hostname (downUrl f), downUrl f, true)
  | Retry => ("retry"%string, kUrl f, false)
  end.

Definition update_task (st : Status URL) (evs : list (ItemEvent URL)) (t : Task URL) : Task URL :=
  {| task_url := task_url t;
     task_status := st;
     task_history := task_history t ++ evs |}.

Definition set_task (k : string) (st : Status URL) (evs : list (ItemEvent URL)) (σ : State URL)
  : State URL :=
  {| urlPathMap := urlPathMap σ;
     downloaders := downloaders σ;
     done := done σ;
     tasks := alter (update_task st evs) k (tasks σ) |}.

(** [process.stdout.write(`\r${++done}/${todo.length}`)] and the return *)
Definition finish_job (k : string) (σ : State URL) : State URL :=
  set_task k Returned []
    {| urlPathMap := urlPathMap σ;
       downloaders := downloaders σ;
       done := S (done σ);
       tasks := tasks σ |}.

(** [downloaders[dest].download(target, ...)] up to its first suspension:
    [getDownloadSempahore] runs synchronously and either takes a slot or
    queues the caller. *)
Definition enter_download (k : string) (f : Frame URL) (stage : Stage) (σ : State URL)
  : State URL :=
  let '(dest, target, strict) := call_of f stage in
  match downloaders σ !! dest with
  | None => set_task k Thrown [] σ
  | Some d =>
      let '(d', granted) := Semaphore.getDownloadSempahore d k in
      set_task k
        (if granted then Downloading f stage else Acquiring f stage)
        [Download dest target strict]
        {| urlPathMap := urlPathMap σ;
           downloaders := <[dest := d']> (downloaders σ);
           done := done σ;
           tasks := tasks σ |}
  end.

(** Lines 166-183, from the start of the job to its first suspension. *)
Definition job_start (k url : string) (σ : State URL) : State URL :=
  if decide (is_Some (urlPathMap σ !! k)) then finish_job k σ
  else
    match newURL k with
    | None => set_task k Thrown [] σ
    | Some kUrl =>
        let downUrl := default kUrl (newURL url) in
        let f := {| k := k; url := url; kUrl := kUrl; downUrl := downUrl |} in
        let h := hostname downUrl in
        (* [downloaders[h] ??= new Downloader(128)] *)
        match downloaders σ !! h with
        | None =>
            if decide (h ∈ Object_prototype)
            then (* inherited, not nullish, and without a [download] method *)
              set_task k Thrown [] σ
            else
              enter_download k f (if decide (k = url) then Direct else Resolved)
                {| urlPathMap := urlPathMap σ;
                   downloaders := <[h := Semaphore.new 128]> (downloaders σ);
                   done := done σ;
                   tasks := tasks σ |}
        | Some _ =>
            enter_download k f (if decide (k = url) then Direct else Resolved) σ
        end
    end.

(** The job from the resolution of an awaited [download] to its next
    suspension or its end: the assignment to [urlPathMap[k]] and what
    follows it. *)
Definition job_resume (f : Frame URL) (stage : Stage) (result : string) (σ : State URL)
  : State URL :=
  let σ :=
    {| urlPathMap := <[k f := result]> (urlPathMap σ);
       downloaders := downloaders σ;
       done := done σ;
       tasks := tasks σ |} in
  match stage with
  | Direct => finish_job (k f) σ
  | Resolved =>
      if negb (JS.includes (default EmptyString (urlPathMap σ !! k f)) outDir)
         && negb (String.eqb (k f) (url f))
      then enter_download (k f) f Retry σ
      else finish_job (k f) σ
  | Retry => finish_job (k f) σ
  end.

(** The resolver shifted out of a queue resumes its caller. *)
Definition wake (woken : option string) (σ : State URL) : State URL :=
  match woken with
  | None => σ
  | Some w =>
      {| urlPathMap := urlPathMap σ;
         downloaders := downloaders σ;
         done := done σ;
         tasks :=
           alter (fun t =>
                    match task_status t with
                    | Acquiring f stage =>
                        {| task_url := task_url t;
                           task_status := Downloading f stage;
                           task_history := task_history t |}
                    | _ => t
                    end) w (tasks σ) |}
  end.

(** The end of a [download]: [doDownload] resolves (against what its
    attempts meet), the slot is released, and the job continues. *)
Definition download_settles (f : Frame URL) (stage : Stage) (env : nat -> Attempt)
    (σ : State URL) : option (State URL) :=
  let '(dest, target, strict) := call_of f stage in
  let '(result, trace) := doDownload env target strict 0 1000 in
  d ← downloaders σ !! dest;
  let '(d', woken) := Semaphore.releaseDownloadSemaphore d in
  let σ :=
    wake woken
      {| urlPathMap := urlPathMap σ;
         downloaders := <[dest := d']> (downloaders σ);
         done := done σ;
         tasks := tasks σ |} in
  Some (job_resume f stage result (set_task (k f) (Downloading f stage)
                                     [Outcome result trace] σ)).

Definition step (l : Label) (σ : State URL) : option (State URL) :=
  match l with
  | Start k =>
      t ← tasks σ !! k;
      match task_status t with
      | Pending => Some (job_start k (task_url t) σ)
      | _ => None
      end
  | Settle k env =>
      t ← tasks σ !! k;
      match task_status t with
      | Downloading f stage => download_settles f stage env σ
      | _ => None
      end
  end.

Fixpoint run (ls : list Label) (σ : State URL) : option (State URL) :=
  match ls with
  | [] => Some σ
  | l :: ls' => σ' ← step l σ; run ls' σ'
  end.

(** Lines 112-163: the state in which the jobs are dispatched, given the
    catalogue and the checkpoint read from [urlPathMap.json]; [None] when
    the routine has thrown before. *)
Definition setup (imgs : list Entry) (checkpoint : gmap string string)
  : option (State URL) :=
  imgMap ← build_imgMap (urlArray_of imgs) ∅;
  Some {| urlPathMap := checkpoint;
          downloaders := {[ "retry"%string := Semaphore.new 128 ]};
          done := 0;
          tasks := (fun fUrl => {| task_url := fUrl;
                                   task_status := Pending;
                                   task_history := [] |}) <$> imgMap |}.

(** *** The shape of a job's history *)

(** [result] and [trace] are what some [download(target, ...)] resolves to
    and does, for some behaviour of the network and of the disk. *)
Definition produced (target : URL) (strict : bool) (result : string)
    (trace : list (Event URL)) : Prop :=
  exists env, doDownload env target strict 0 1000 = (result, trace).

(** [f] holds the variables of the job of [k], whose [imgMap] value is [u]. *)
Definition frame_of (key u : string) (f : Frame URL) : Prop :=
  k f = key /\ url f = u /\ newURL key = Some (kUrl f)
  /\ downUrl f = default (kUrl f) (newURL u).

(** The history of a job suspended in the [download] call [stage]. *)
Definition in_progress (f : Frame URL) (stage : Stage) (h : list (ItemEvent URL)) : Prop :=
  let first strict := Download (hostname (downUrl f)) (downUrl f) strict in
  match stage with
  | Direct => k f = url f /\ h = [first false]
  | Resolved => k f <> url f /\ h = [first true]
  | Retry =>
      k f <> url f
      /\ exists r1 tr1,
          h = [first true; Outcome r1 tr1; Download "retry" (kUrl f) false]
          /\ produced (downUrl f) true r1 tr1
          /\ JS.includes r1 outDir = false
  end.

(** The history of a job that has gone through its downloads and returned,
    and the value [v] it leaves under [urlPathMap[k]]. *)
Definition completed (f : Frame URL) (h : list (ItemEvent URL)) (v : option string) : Prop :=
  let first strict := Download (hostname (downUrl f)) (downUrl f) strict in
  (k f = url f
   /\ exists r tr,
       h = [first false; Outcome r tr]
       /\ produced (downUrl f) false r tr
       /\ v = Some r)
  \/ (k f <> url f
      /\ exists r1 tr1,
          produced (downUrl f) true r1 tr1
          /\ ((h = [first true; Outcome r1 tr1]
               /\ JS.includes r1 outDir = true
               /\ v = Some r1)
              \/ (exists r2 tr2,
                    h = [first true; Outcome r1 tr1;
                         Download "retry" (kUrl f) false; Outcome r2 tr2]
                    /\ JS.includes r1 outDir = false
                    /\ produced (kUrl f) false r2 tr2
                    /\ v = Some r2))).

(** *** Invariant of the jobs *)

(** What holds of the job of [key] between any two segments, given the
    checkpoint the run started from and the current [urlPathMap]. *)
Definition job_inv (checkpoint m : gmap string string) (key : string) (t : Task URL) : Prop :=
  match task_status t with
  | Pending => task_history t = [] /\ m !! key = checkpoint !! key
  | Acquiring f stage | Downloading f stage =>
      checkpoint !! key = None
      /\ frame_of key (task_url t) f
      /\ in_progress f stage (task_history t)
  | Returned =>
      (is_Some (checkpoint !! key)
       /\ task_history t = [] /\ m !! key = checkpoint !! key)
      \/ (checkpoint !! key = None
          /\ exists f, frame_of key (task_url t) f
                       /\ completed f (task_history t) (m !! key))
  | Thrown => checkpoint !! key = None
  end.

Definition inv (checkpoint : gmap string string) (σ : State URL) : Prop :=
  forall key t, tasks σ !! key = Some t -> job_inv checkpoint (urlPathMap σ) key t.

(** A job other than the one that runs is at most resumed from the queue. *)
Definition resumed (t t' : Task URL) : Prop :=
  t' = t
  \/ exists f stage,
      task_status t = Acquiring f stage
      /\ t' = {| task_url := task_url t;
                 task_status := Downloading f stage;
                 task_history := task_history t |}.

(** *** Invariant of the Downloaders *)

(** The job holds a slot of the Downloader [dest]: it is past
    [await getDownloadSempahore()] and its [doDownload] runs. *)
Definition holds (dest : string) (t : Task URL) : bool :=
  match task_status t with
  | Downloading f stage => bool_decide ((call_of f stage).1.1 = dest)
  | _ => false
  end.

(** The job is suspended in the queue of the Downloader [dest]. *)
Definition waits (dest : string) (t : Task URL) : bool :=
  match task_status t with
  | Acquiring f stage => bool_decide ((call_of f stage).1.1 = dest)
  | _ => false
  end.

(** Number of downloads in flight on the Downloader [dest]. *)
Definition in_flight_at (σ : State URL) (dest : string) : nat :=
  size (filter (fun kt => holds dest kt.2 = true) (tasks σ)).

(** [Q] is the account of the entries of [m] that satisfy [P], the
    [exempt] key left out. *)
Definition account {A} (exempt : option string) (m : gmap string A)
    (P : A -> bool) (Q : string -> Prop) : Prop :=
  forall key,
    Q key <-> Some key <> exempt /\ exists a, m !! key = Some a /\ P a = true.

(** The accounts of one Downloader: the free slots against the jobs that
    hold one, and the queue against the jobs that wait.  While a job is
    between the release of one download and its next step it is [exempt]:
    its recorded status is no longer counted. *)
Definition limiter_inv (exempt : option string) (σ : State URL)
    (dest : string) (d : Downloader string) : Prop :=
  exists holders : gset string,
    account exempt (tasks σ) (holds dest) (fun key => key ∈ holders)
    /\ avalibleDeliverySlots d = 128 - Z.of_nat (size holders)
    /\ 0 <= avalibleDeliverySlots d
    /\ NoDup (downloadQueue d)
    /\ account exempt (tasks σ) (waits dest) (fun key => key ∈ downloadQueue d)
    /\ (downloadQueue d <> [] -> avalibleDeliverySlots d = 0).

Definition limiters_inv (exempt : option string) (σ : State URL) : Prop :=
  (forall dest d, downloaders σ !! dest = Some d -> limiter_inv exempt σ dest d)
  /\ (forall key t dest,
        Some key <> exempt ->
        tasks σ !! key = Some t ->
        holds dest t = true \/ waits dest t = true ->
        is_Some (downloaders σ !! dest))
  /\ is_Some (downloaders σ !! "retry"%string)
  /\ (forall key t f stage,
        tasks σ !! key = Some t ->
        task_status t = Acquiring f stage \/ task_status t = Downloading f stage ->
        k f = key).

(** *** One segment *)

(** What one segment does: to the job [key] that runs it, which goes from
    [t] to [t'], to the job whose resolver it runs when it releases a slot,
    and to the variables the jobs share. *)
Record Segment (σ σ' : State URL) (key : string) (t t' : Task URL)
    (woken : option string) : Prop := {
  seg_before : tasks σ !! key = Some t;
  seg_awake : tasks (wake woken σ) !! key = Some t;
  seg_after : tasks σ' = <[key := t']> (tasks (wake woken σ));
  seg_url : task_url t' = task_url t;
  seg_less : (segments_left t' < segments_left t)%nat;
  seg_open : has_returned t = false;
  seg_done : done σ' = if has_returned t' then S (done σ) else done σ;
  seg_map :
    urlPathMap σ' = urlPathMap σ
    \/ exists r, urlPathMap σ' = <[key := r]> (urlPathMap σ);
  seg_thrown :
    task_status t' = Thrown ->
    task_status t = Pending
    /\ urlPathMap σ' = urlPathMap σ
    /\ task_history t' = task_history t
    /\ (newURL key = None
        \/ exists kUrl,
            newURL key = Some kUrl
            /\ hostname (default kUrl (newURL (task_url t))) ∈ Object_prototype);
}.

(** What holds of a job that has thrown: it threw at its start, on a host
    name that [downloaders] inherits, and has left no outcome. *)
Definition thrown_inv (σ : State URL) : Prop :=
  forall key t,
    tasks σ !! key = Some t ->
    is_Some (newURL key)
    /\ (task_status t = Thrown ->
        task_history t = []
        /\ urlPathMap σ !! key = None
        /\ exists kUrl,
            newURL key = Some kUrl
            /\ hostname (default kUrl (newURL (task_url t))) ∈ Object_prototype).

End Main.

(* ===================================================================== *)
(** ** saveJson *)
(* ===================================================================== *)

(** [saveJson] runs before the jobs are dispatched, every minute while
    they run, and once more when [Promise.all] has resolved.  It reads
    [urlPathMap], sets [coverPath] and [chapter_paths] of every entry of
    the catalogue, and writes two files.  What one call writes comes
    first, the timers after. *)

(** An entry as [saveJson] leaves it: [coverPath] and [chapter_paths] are
    set from [urlPathMap]; a path is [undefined] ([None]) where
    [urlPathMap] has no value. *)
Record SavedEntry := {
  saved : Entry;
  coverPath : option string;
  chapter_paths : list (option string);
}.

(** [urlPathMap[x]] as [saveJson] reads it, under the URLs of the
    catalogue; [null] is read under the property name ["null"]. *)
Definition path_of (urlPathMap : gmap string string) (x : option string)
  : option string :=
  urlPathMap !! default "null"%string x.

(** Lines 144-153: what is written to [urlPathMap.json], and the entries
    written to [imagePaths.json]. *)
Definition saveJson (urlPathMap : gmap string string) (imgs : list Entry)
  : gmap string string * list SavedEntry :=
  (urlPathMap,
   map (fun entry =>
          {| saved := entry;
             coverPath := path_of urlPathMap (cover entry);
             chapter_paths := map (path_of urlPathMap) (chapter_urls entry) |})
       imgs).

(** The timers of [saveJson].  A call of [saveJson] is started by a timer
    or by the main routine; it awaits its writes, and only then tests
    [saveInterval] and, when that is unset, sets the timer of the next
    call (lines 154-155).  The main routine sets one timer itself (line
    157), calls [saveJson] before it dispatches the jobs (line 161) and,
    when they are done, sets [saveInterval] and calls it once more (lines
    193-194).  The writes are taken to succeed. *)
Module Saver.

Record State := {
  saveInterval : bool;
  timers : nat;    (* timers set and not yet fired *)
  saving : nat;    (* calls of [saveJson] that have not yet reached line 154 *)
  written : nat;   (* calls of [saveJson] that have written their files *)
}.

(** After lines 157 and 161: one timer, and one call under way. *)
Definition init : State :=
  {| saveInterval := false; timers := 1; saving := 1; written := 0 |}.

Inductive Label :=
| Fire       (* a timer fires and starts [saveJson] *)
| Written    (* a call of [saveJson] is through its writes: lines 154-155 *)
| Finish.    (* lines 193-194: [saveInterval = true; await saveJson()] *)

Definition step (l : Label) (σ : State) : option State :=
  match l with
  | Fire =>
      match timers σ with
      | S n => Some {| saveInterval := saveInterval σ;
                       timers := n;
                       saving := S (saving σ);
                       written := written σ |}
      | O => None
      end
  | Written =>
      match saving σ with
      | S n => Some {| saveInterval := saveInterval σ;
                       timers := if saveInterval σ then timers σ else S (timers σ);
                       saving := n;
                       written := S (written σ) |}
      | O => None
      end
  | Finish =>
      if saveInterval σ then None
      else Some {| saveInterval := true;
                   timers := timers σ;
                   saving := S (saving σ);
                   written := written σ |}
  end.

Fixpoint run (ls : list Label) (σ : State) : option State :=
  match ls with
  | [] => Some σ
  | l :: ls' => σ' ← step l σ; run ls' σ'
  end.


End Saver.

(* ===================================================================== *)
(** ** A concrete [URL] for running the program on examples *)
(* ===================================================================== *)

(** The development is generic in the platform's [URL] class.  To evaluate
    the program on concrete catalogues an instance is needed; this one
    accepts exactly the strings [http(s)://host[:port][/path][?query][#frag]]
    whose host consists of letters, digits, [-] and [.] with a last label
    that starts with a letter, and rejects every other string (in
    particular every string without a scheme, which the platform rejects
    as well).  On the strings it accepts it answers as the platform does:
    the host name in lower case, and the first value of a query parameter
    after [+] and percent decoding. *)
Module LiteURL.

Definition is_alpha (c : ascii) : bool :=
  let n := N_of_ascii c in
  ((65 <=? n) && (n <=? 90) || (97 <=? n) && (n <=? 122))%N.

Definition is_digit (c : ascii) : bool :=
  let n := N_of_ascii c in ((48 <=? n) && (n <=? 57))%N.

Definition is_host_char (c : ascii) : bool :=
  is_alpha c || is_digit c || Ascii.eqb c "-" || Ascii.eqb c ".".

Fixpoint all (p : ascii -> bool) (s : string) : bool :=
  match s with
  | EmptyString => true
  | String c s' => p c && all p s'
  end.

(** The longest prefix without a character satisfying [p], and the rest. *)
Fixpoint break (p : ascii -> bool) (s : string) : string * string :=
  match s with
  | EmptyString => (EmptyString, EmptyString)
  | String c s' =>
      if p c then (EmptyString, s)
      else let '(a, b) := break p s' in (String c a, b)
  end.

(** [s.split(sep)] for a one-character separator *)
Fixpoint split (sep : ascii) (s : string) : list string :=
  match s with
  | EmptyString => [EmptyString]
  | String c s' =>
      if Ascii.eqb c sep then EmptyString :: split sep s'
      else match split sep s' with
           | [] => [String c EmptyString]
           | x :: xs => String c x :: xs
           end
  end.

Definition hexval (c : ascii) : option N :=
  let n := N_of_ascii c in
  if ((48 <=? n) && (n <=? 57))%N then Some (n - 48)%N
  else if ((65 <=? n) && (n <=? 70))%N then Some (n - 55)%N
  else if ((97 <=? n) && (n <=? 102))%N then Some (n - 87)%N
  else None.

(** application/x-www-form-urlencoded decoding of a name or value *)
Fixpoint decode (s : string) : string :=
  match s with
  | EmptyString => EmptyString
  | String c s' =>
      if Ascii.eqb c "+" then String " " (decode s')
      else if Ascii.eqb c "%" then
        match s' with
        | String h (String l s'') =>
            match hexval h, hexval l with
            | Some a, Some b => String (ascii_of_N (16 * a + b)) (decode s'')
            | _, _ => String c (decode s')
            end
        | _ => String c (decode s')
        end
      else String c (decode s')
  end.

Record t := {
  href : string;
  host : string;
  params : list (string * string);
}.

Definition parse (s : string) : option t :=
  let '(scheme, rest) := break (Ascii.eqb ":") s in
  let scheme := JS.toLowerCase scheme in
  if negb ((String.eqb scheme "http" || String.eqb scheme "https")
           && JS.startsWith rest "://") then None
  else
    let '(authority, tail) :=
      break (fun c => Ascii.eqb c "/" || Ascii.eqb c "?" || Ascii.eqb c "#")
            (JS.drop 3 rest) in
    let '(h, port) := break (Ascii.eqb ":") authority in
    let last_label := List.last (split "." h) EmptyString in
    if negb (all is_host_char h
             && match last_label with String c _ => is_alpha c | _ => false end
             && all is_digit (JS.drop 1 port)) then None
    else
      let '(before_fragment, _) := break (Ascii.eqb "#") tail in
      let '(_, query) := break (Ascii.eqb "?") before_fragment in
      let pairs :=
        List.filter (fun p => negb (String.eqb p EmptyString))
                    (split "&" (JS.drop 1 query)) in
      Some {| href := s;
              host := JS.toLowerCase h;
              params :=
                map (fun p => let '(n, v) := break (Ascii.eqb "=") p in
                              (decode n, decode (JS.drop 1 v))) pairs |}.

(** [searchParams.get(name)]: the first value under [name], if any. *)
Definition get (u : t) (name : string) : option string :=
  snd <$> List.find (fun p => String.eqb (fst p) name) (params u).

End LiteURL.

#[export] Instance lite_url : URLApi := {|
  URL := LiteURL.t;
  newURL := LiteURL.parse;
  searchParams_get := LiteURL.get;
  hostname := LiteURL.host;
|}.

(* ===================================================================== *)
(** ** Example inputs *)
(* ===================================================================== *)

Module Ex.

Definition parsed (s : string) : LiteURL.t :=
  default {| LiteURL.href := s; LiteURL.host := EmptyString; LiteURL.params := [] |}
          (LiteURL.parse s).

Definition cdn_a : LiteURL.t := parsed "https://cdn.example.com/a.jpg".

Definition response (status : N) (reason : string) (ct : option string) (data : string)
  : Got.Response :=
  {| Got.statusCode := status;
     Got.statusMessage := reason;
     Got.content_type := ct;
     Got.body := list_byte_of_string data |}.

Definition reply (status : N) (reason : string) (ct : option string) (data : string)
  : Got.Exchange :=
  Got.Reply (response status reason ct data).

(** Every attempt meets the same exchange, and the disk is writable. *)
Definition always (x : Got.Exchange) : nat -> Attempt :=
  fun _ => {| exchange := x; writeFile_error := None |}.

(** The first [n] attempts meet [x], the later ones [y]. *)
Definition first (n : nat) (x y : Got.Exchange) : nat -> Attempt :=
  fun r => {| exchange := if (r <? n)%nat then x else y;
              writeFile_error := None |}.

Definition unprocessable : Got.Exchange :=
  reply 422 "Unprocessable Entity" (Some "application/json"%string) "{}".

Definition not_found : Got.Exchange :=
  reply 404 "Not Found" (Some "text/html"%string) "<h1>404</h1>".

Definition html_page : Got.Exchange :=
  reply 200 "OK" (Some "text/html; charset=utf-8"%string) "<html></html>".

Definition empty_png : Got.Exchange :=
  reply 200 "OK" (Some "image/png"%string) "".

Definition untyped : Got.Exchange :=
  reply 200 "OK" None "abc".

Definition untyped_empty : Got.Exchange :=
  reply 200 "OK" None "".

Definition abc_png : Got.Exchange :=
  reply 200 "OK" (Some "image/png"%string) "abc".

(** A body of two MD5 blocks, served as a JPEG. *)
Definition digits : string :=
  "12345678901234567890123456789012345678901234567890123456789012345678901234567890".

Definition digits_jpeg : Got.Exchange :=
  reply 200 "OK" (Some "image/jpeg"%string) digits.

Definition charset_images : Got.Exchange :=
  reply 200 "OK" (Some "text/html; charset=./images"%string) "<html></html>".

(** A cover served through an image proxy, and a chapter served directly. *)
Definition proxied : string :=
  "https://proxy.example.com/img?url=https://cdn.example.com/a.jpg".

Definition direct : string := "https://cdn.example.com/b.png".

Definition catalogue : list Entry :=
  [ {| id := 1;
       cover := Some proxied;
       chapter_urls := [None; Some direct; Some proxied] |} ].

(** A catalogue one of whose URLs is not a URL. *)
Definition malformed : string := "not a url".

Definition bad_catalogue : list Entry :=
  [ {| id := 1; cover := Some direct; chapter_urls := [Some malformed] |} ].

(** A checkpoint in which the cover is already done. *)
Definition cover_done : gmap string string :=
  {[ proxied := "./images/0cc175b9c0f1b6a831c399e269772661.jpeg"%string ]}.

Definition nothing : State LiteURL.t :=
  {| urlPathMap := ∅; downloaders := ∅; done := 0; tasks := ∅ |}.

Definition no_task : Task LiteURL.t :=
  {| task_url := EmptyString; task_status := Thrown; task_history := [] |}.

(** Both jobs start -- that of the cover returns at once -- and the
    chapter is downloaded. *)
Definition skip_schedule : list Label :=
  [Start direct; Start proxied; Settle direct (always empty_png)].

Definition skip_start : State LiteURL.t :=
  default nothing (setup catalogue cover_done).

Definition skip_end : State LiteURL.t :=
  default nothing (run skip_schedule skip_start).

Definition skip_task : Task LiteURL.t :=
  default no_task (tasks skip_end !! proxied).

Definition plain_html : Got.Exchange :=
  reply 200 "OK" (Some "text/html"%string) "<html></html>".

Definition fresh_start : State LiteURL.t :=
  default nothing (setup catalogue ∅).

(** The strict download of the resolved URL is refused for its content
    type; the retry of the original URL succeeds. *)
Definition fallback_schedule : list Label :=
  [Start proxied; Start direct;
   Settle proxied (always plain_html); Settle proxied (always empty_png)].

Definition fallback_end : State LiteURL.t :=
  default nothing (run fallback_schedule fresh_start).

Definition fallback_task : Task LiteURL.t :=
  default no_task (tasks fallback_end !! proxied).

(** The strict download of the resolved URL is refused for a content type
    in which the string [./images] occurs. *)
Definition refused_schedule : list Label :=
  [Start proxied; Start direct; Settle proxied (always charset_images)].

Definition refused_end : State LiteURL.t :=
  default nothing (run refused_schedule fresh_start).

(** A cover whose host name is a property of [Object.prototype]. *)
Definition inherited : string := "http://constructor/cover.jpg".

Definition inherited_catalogue : list Entry :=
  [ {| id := 1; cover := Some inherited; chapter_urls := [] |} ].

(** A cover whose [url] parameter is protocol-relative: the candidate loses
    its [//] and is no URL any more. *)
Definition relative : string :=
  "https://proxy.example.com/img?url=//cdn.example.com/a.jpg".

Definition relative_catalogue : list Entry :=
  [ {| id := 1; cover := Some relative; chapter_urls := [] |} ].

(** Both jobs are downloading from the same host. *)
Definition busy_schedule : list Label := [Start proxied; Start direct].

Definition busy_end : State LiteURL.t :=
  default nothing (run busy_schedule fresh_start).

Definition two_taken : Downloader string :=
  {| avalibleDeliverySlots := 126; downloadQueue := [] |}.

(** 130 calls on one [Downloader], then the sixth of them settles. *)
Definition rush : list Callers.Label :=
  repeat Callers.Call 130 ++ [Callers.Settle 5%nat].

Definition saturated : Callers.State :=
  default (Callers.init 128) (Callers.run rush (Callers.init 128)).

Definition timeout : Got.Exchange :=
  Got.Failure "Timeout awaiting 'request' for 30000ms".

Definition no_such_host : Got.Exchange :=
  Got.Failure "getaddrinfo ENOTFOUND cdn.example.com".

(** The disk is full at the first two attempts. *)
Definition disk_full : nat -> Attempt :=
  fun r => {| exchange := empty_png;
              writeFile_error :=
                if (r <? 2)%nat
                then Some "ENOSPC: no space left on device, write"%string
                else None |}.

(** Three calls on a [Downloader] built without a slot. *)
Definition starved : Callers.State :=
  default (Callers.init 0) (Callers.run (repeat Callers.Call 3) (Callers.init 0)).

(** Both jobs run to their end. *)
Definition complete_schedule : list Label :=
  fallback_schedule ++ [Settle direct (always empty_png)].

Definition complete_end : State LiteURL.t :=
  default nothing (run complete_schedule fresh_start).

Definition inherited_start : State LiteURL.t :=
  default nothing (setup inherited_catalogue ∅).

Definition inherited_end : State LiteURL.t :=
  default nothing (run [Start inherited] inherited_start).

Definition inherited_task : Task LiteURL.t :=
  default no_task (tasks inherited_end !! inherited).

Definition busy_task : Task LiteURL.t :=
  default no_task (tasks busy_end !! direct).

End Ex.

(* ===================================================================== *)
(** * Properties *)
(* ===================================================================== *)

(** RFC 1321 test suite. *)
Example md5_empty : md5Hash [] = "d41d8cd98f00b204e9800998ecf8427e"%string.
Proof. vm_compute. reflexivity. Qed.

Example md5_abc :
  md5Hash (list_byte_of_string "abc") = "900150983cd24fb0d6963f7d28e17f72"%string.
Proof. vm_compute. reflexivity. Qed.

Example md5_two_blocks :
  md5Hash (list_byte_of_string
    "12345678901234567890123456789012345678901234567890123456789012345678901234567890")
  = "57edf4a22be3c955ac49da2e2107b67a"%string.
Proof. vm_compute. reflexivity. Qed.

Example removeBefore_png : removeBefore "image/png" "/" = "png"%string.
Proof. reflexivity. Qed.

Example removeBefore_absent : removeBefore "image" "/" = "image"%string.
Proof. reflexivity. Qed.

(* --------------------------------------------------------------------- *)
(** ** doDownload *)
(* --------------------------------------------------------------------- *)

Section DoDownloadFacts.
Context {URL : Type}.

(** The defining equation of [doDownload], in the shape of the source. *)
Lemma doDownload_eq env (url : URL) strict retries delay :
  doDownload env url strict retries delay =
    match try_block url strict (env retries) with
    | (Return value, evs) => (value, evs)
    | (Throw message, evs) =>
        if switch_returns message then (message, evs)
        else if JS.includes message "getaddrinfo ENOTFOUND" then (message, evs)
        else if (retries <? MaxRetries)%nat then
          let '(result, evs') :=
            doDownload env url strict (retries + 1)%nat (delay + 1000) in
          (result, evs ++ Sleep delay :: evs')
        else (message, evs)
    end.
Proof.
  rewrite doDownload_equation_1.
  destruct (try_block url strict (env retries)) as [[value|message] evs];
    simpl; [reflexivity|].
  destruct (switch_returns message); simpl; [reflexivity|].
  destruct (JS.includes message "getaddrinfo ENOTFOUND"); simpl; [reflexivity|].
  destruct (lt_dec retries MaxRetries) as [Hlt|Hge]; simpl.
  - apply Nat.ltb_lt in Hlt. rewrite Hlt. reflexivity.
  - apply Nat.ltb_nlt in Hge. rewrite Hge. reflexivity.
Qed.

Lemma try_block_got_error (url : URL) strict a message :
  Got.got strict (exchange a) = inr message ->
  try_block url strict a = (Throw message, [Request url strict]).
Proof. intros Hgot. unfold try_block. rewrite Hgot. reflexivity. Qed.

(** Whatever an attempt meets, its [try] block issues exactly one GET and
    never sleeps; when it throws, the GET is all it did. *)
Lemma try_block_trace (url : URL) strict a :
  attempts (snd (try_block url strict a)) = 1%nat
  /\ sleeps (snd (try_block url strict a)) = []
  /\ (forall message, fst (try_block url strict a) = Throw message ->
       snd (try_block url strict a) = [Request url strict]).
Proof.
  unfold try_block.
  destruct (Got.got strict (exchange a)) as [response|message]; [|by auto].
  destruct (match Got.content_type response with
            | Some c => invalid_content_type c
            | None => false
            end).
  - destruct strict; simpl; auto.
  - destruct (writeFile_error a); simpl; [by auto|].
    repeat split; auto. intros message Hm. discriminate Hm.
Qed.

Lemma attempts_app (evs evs' : list (Event URL)) :
  attempts (evs ++ evs') = (attempts evs + attempts evs')%nat.
Proof. unfold attempts. by rewrite List.filter_app, length_app. Qed.

Lemma sleeps_app (evs evs' : list (Event URL)) :
  sleeps (evs ++ evs') = sleeps evs ++ sleeps evs'.
Proof. unfold sleeps. apply omap_app. Qed.

(** The delays of the first [n] retries of a call entered with delay [d]. *)
Lemma doDownload_trace env (url : URL) strict n :
  forall retries delay,
    (MaxRetries - retries)%nat = n ->
    exists m, (m <= n)%nat
      /\ sleeps (snd (doDownload env url strict retries delay))
         = map (fun i => delay + 1000 * Z.of_nat i) (seq 0 m)
      /\ attempts (snd (doDownload env url strict retries delay)) = S m.
Proof.
  induction n as [|n IH]; intros retries delay Hn;
    rewrite doDownload_eq;
    destruct (try_block_trace url strict (env retries)) as (Ha & Hs & _);
    destruct (try_block url strict (env retries)) as [[value|message] evs];
    simpl in Ha, Hs;
    try (exists 0%nat; simpl; split; [lia|by split]).
  - destruct (switch_returns message); [exists 0%nat; simpl; split; [lia|by split]|].
    destruct (JS.includes message "getaddrinfo ENOTFOUND");
      [exists 0%nat; simpl; split; [lia|by split]|].
    destruct (Nat.ltb_spec retries MaxRetries); [lia|].
    exists 0%nat; simpl; split; [lia|by split].
  - destruct (switch_returns message); [exists 0%nat; simpl; split; [lia|by split]|].
    destruct (JS.includes message "getaddrinfo ENOTFOUND");
      [exists 0%nat; simpl; split; [lia|by split]|].
    destruct (Nat.ltb_spec retries MaxRetries);
      [|exists 0%nat; simpl; split; [lia|by split]].
    destruct (IH (retries + 1)%nat (delay + 1000)) as (m & Hm & Hsl & Hat); [lia|].
    destruct (doDownload env url strict (retries + 1) (delay + 1000))
      as [result evs'].
    simpl in Hsl, Hat. exists (S m). split; [lia|]. simpl. split.
    + rewrite sleeps_app, Hs. simpl. rewrite Hsl. f_equal; [lia|].
      rewrite <- seq_shift, map_map. apply map_ext. intros i. lia.
    + rewrite attempts_app, Ha. simpl. unfold attempts in *. simpl. lia.
Qed.

Lemma switch_returns_In message :
  message ∈ switch_cases -> switch_returns message = true.
Proof.
  intros Hin. unfold switch_returns. apply existsb_exists.
  exists message. split; [by apply list_elem_of_In|apply String.eqb_refl].
Qed.

Lemma switch_returns_invalid ct :
  switch_returns ("Invalid content-type " +:+ ct) = false.
Proof. reflexivity. Qed.

(** The guard on the header, in words: no media type occurs in the
    lower-cased value, or [charset] does. *)
Lemma invalid_content_type_spec ct :
  invalid_content_type ct = true <->
  (forall type, type ∈ mediaTypes -> JS.includes (JS.toLowerCase ct) type = false)
  \/ JS.includes (JS.toLowerCase ct) "charset" = true.
Proof.
  unfold invalid_content_type, JS.some, mediaTypes.
  rewrite orb_true_iff, negb_true_iff. simpl existsb.
  rewrite !orb_false_iff. split; (intros [Hm|Hc]; [left|by right]).
  - destruct Hm as (Ha & Hi & Hv & _). intros type Hin.
    repeat (apply elem_of_cons in Hin as [->|Hin]; [assumption|]).
    by apply elem_of_nil in Hin.
  - repeat split; try apply Hm; repeat constructor.
Qed.

End DoDownloadFacts.

(** *** String facts behind [removeBefore] *)

Lemma JS_drop_app a b : JS.drop (String.length a) (a +:+ b) = b.
Proof. induction a as [|c a IH]; simpl; [by destruct b|exact IH]. Qed.

Lemma JS_drop_S_app a c b :
  JS.drop (S (String.length a)) (a +:+ String c b) = b.
Proof. induction a as [|c' a IH]; [reflexivity|exact IH]. Qed.

Lemma JS_take_all b : JS.take (String.length b) b = b.
Proof. induction b as [|c b IH]; simpl; [reflexivity|by rewrite IH]. Qed.

Lemma length_append a b :
  String.length (a +:+ b) = (String.length a + String.length b)%nat.
Proof. induction a as [|c a IH]; simpl; [reflexivity|by rewrite IH]. Qed.

Lemma startsWith_empty s : JS.startsWith s EmptyString = true.
Proof. by destruct s. Qed.

Lemma startsWith_char c s d :
  JS.startsWith (String c s) (String d EmptyString)
  = if Ascii.ascii_dec d c then true else false.
Proof.
  unfold JS.startsWith. cbn [String.prefix].
  destruct (Ascii.ascii_dec d c); [by destruct s|reflexivity].
Qed.

Lemma indexOf_first_slash a b :
  JS.includes a "/" = false ->
  JS.indexOf (a +:+ String "/" b) "/" = Z.of_nat (String.length a).
Proof.
  induction a as [|c a IH]; intros Hno.
  - change (EmptyString +:+ String "/" b) with (String "/" b).
    cbn [JS.indexOf]. rewrite startsWith_char.
    by destruct (Ascii.ascii_dec "/" "/").
  - cbn [JS.includes] in Hno. rewrite startsWith_char in Hno.
    change (String c a +:+ String "/" b) with (String c (a +:+ String "/" b)).
    cbn [JS.indexOf]. rewrite startsWith_char.
    destruct (Ascii.ascii_dec "/" c) as [Heq|Hne]; [discriminate Hno|].
    rewrite (IH Hno). cbn [String.length].
    destruct (Z.ltb_spec (Z.of_nat (String.length a)) 0); lia.
Qed.

(** The extension is what follows the first [/] of the content type. *)
Lemma removeBefore_slash a b :
  JS.includes a "/" = false ->
  removeBefore (a +:+ "/" +:+ b) "/" = b.
Proof.
  intros Hno. unfold removeBefore, JS.substring, JS.length.
  change (a +:+ "/" +:+ b) with (a +:+ String "/" b).
  rewrite (indexOf_first_slash a b Hno), length_append. simpl String.length.
  set (la := String.length a). set (lb := String.length b).
  replace (Z.max 0 (Z.min (Z.of_nat la + 1) (Z.of_nat (la + S lb))))
    with (Z.of_nat (S la)) by lia.
  replace (Z.max 0 (Z.min (Z.of_nat (la + S lb)) (Z.of_nat (la + S lb))))
    with (Z.of_nat (la + S lb)) by lia.
  replace (Z.min (Z.of_nat (S la)) (Z.of_nat (la + S lb))) with (Z.of_nat (S la)) by lia.
  replace (Z.max (Z.of_nat (S la)) (Z.of_nat (la + S lb)))
    with (Z.of_nat (la + S lb)) by lia.
  replace (Z.to_nat (Z.of_nat (la + S lb) - Z.of_nat (S la))) with lb by lia.
  rewrite Nat2Z.id.
  subst la lb. rewrite JS_drop_S_app. apply JS_take_all.
Qed.

(* --------------------------------------------------------------------- *)
(** ** The retry policy *)
(* --------------------------------------------------------------------- *)

Section RetryPolicy.
Context {URL : Type}.

(** C1 (as amended).  The [catch] block decides on the text of the error
    message: when a GET fails with one of the six messages listed in the
    [switch], or with a message containing [getaddrinfo ENOTFOUND], the
    message is returned at once and the GET is the only thing the call
    did -- no sleep, no second attempt.  In particular a strict request
    answered [404 Not Found] yields exactly
    ["Response code 404 (Not Found)"] after exactly one attempt. *)
Theorem C1_listed_errors_are_final :
  (forall env (url : URL) strict retries delay message,
      Got.got strict (exchange (env retries)) = inr message ->
      message ∈ switch_cases
      \/ JS.includes message "getaddrinfo ENOTFOUND" = true ->
      doDownload env url strict retries delay = (message, [Request url strict]))
  /\ (forall env (url : URL) retries delay r,
      exchange (env retries) = Got.Reply r ->
      Got.statusCode r = 404%N ->
      Got.statusMessage r = "Not Found" ->
      doDownload env url true retries delay
      = ("Response code 404 (Not Found)"%string, [Request url true])).
Proof.
  assert (Hfirst : forall env (url : URL) strict retries delay message,
      Got.got strict (exchange (env retries)) = inr message ->
      message ∈ switch_cases
      \/ JS.includes message "getaddrinfo ENOTFOUND" = true ->
      doDownload env url strict retries delay = (message, [Request url strict])).
  { intros env url strict retries delay message Hgot Hfinal.
    rewrite doDownload_eq, (try_block_got_error _ _ _ _ Hgot).
    destruct Hfinal as [Hin|Hdns].
    - by rewrite (switch_returns_In _ Hin).
    - rewrite Hdns. by destruct (switch_returns message). }
  split; [exact Hfirst|].
  intros env url retries delay r Hx Hcode Hreason.
  apply Hfirst.
  - rewrite Hx. unfold Got.got, Got.isResponseOk, Got.HTTPError_message.
    rewrite Hcode, Hreason. reflexivity.
  - left. unfold switch_cases. set_solver.
Qed.

(** C2 (as amended).  A call of [doDownload] entered as [download] enters
    it makes at most six GETs: the first attempt and five retries, the
    [n]-th retry coming after a sleep of [n] seconds.  When every attempt
    fails with an error that is not final, all six are made, the sleeps
    are 1 s, 2 s, 3 s, 4 s, 5 s, and the outcome is the message of the
    last error. *)
Theorem C2_five_retries_linear_backoff :
  (forall env (url : URL) strict,
      exists n, (n <= 5)%nat
        /\ sleeps (snd (doDownload env url strict 0 1000))
           = map (fun i => 1000 * (1 + Z.of_nat i)) (seq 0 n)
        /\ attempts (snd (doDownload env url strict 0 1000)) = S n)
  /\ (forall env (url : URL) strict (msg : nat -> string),
      (forall r, (r <= 5)%nat ->
         fst (try_block url strict (env r)) = Throw (msg r)
         /\ switch_returns (msg r) = false
         /\ JS.includes (msg r) "getaddrinfo ENOTFOUND" = false) ->
      doDownload env url strict 0 1000
      = (msg 5%nat,
         [Request url strict; Sleep 1000;
          Request url strict; Sleep 2000;
          Request url strict; Sleep 3000;
          Request url strict; Sleep 4000;
          Request url strict; Sleep 5000;
          Request url strict])).
Proof.
  split.
  - intros env url strict.
    destruct (doDownload_trace env url strict 5 0%nat 1000 eq_refl)
      as (n & Hn & Hs & Ha).
    exists n. split; [exact Hn|]. split; [|exact Ha].
    rewrite Hs. apply map_ext. intros i. lia.
  - intros env url strict msg Hfail.
    assert (Htry : forall r, (r <= 5)%nat ->
              try_block url strict (env r) = (Throw (msg r), [Request url strict])).
    { intros r Hr. destruct (Hfail r Hr) as (Hthrow & _).
      destruct (try_block_trace url strict (env r)) as (_ & _ & Hevs).
      specialize (Hevs _ Hthrow).
      destruct (try_block url strict (env r)) as [c evs].
      simpl in *. by subst. }
    do 5 (rewrite doDownload_eq, Htry by lia;
          match goal with
          | |- context [switch_returns (msg ?r)] =>
              destruct (Hfail r ltac:(lia)) as (_ & -> & ->)
          end;
          cbn [Nat.ltb Nat.leb MaxRetries Nat.add]).
    rewrite doDownload_eq, Htry by lia.
    destruct (Hfail 5%nat ltac:(lia)) as (_ & -> & ->).
    reflexivity.
Qed.

End RetryPolicy.

(* --------------------------------------------------------------------- *)
(** ** Content-type validation and the stored file *)
(* --------------------------------------------------------------------- *)

Section ContentStore.
Context {URL : Type}.

(** C4 (as amended).  A response whose content type names none of
    [audio], [image], [video] (case-insensitively) or contains [charset]
    is refused with the message ["Invalid content-type <value>"],
    whatever its body.  A strict fetch returns the message at once, after
    its single GET.  A non-strict fetch throws it instead: the message
    then goes through the retry policy like any other error, so the
    fetch sleeps and tries again while retries remain, and the message is
    the outcome only when none remains (or at once, when the value
    happens to contain [getaddrinfo ENOTFOUND]). *)
Theorem C4_invalid_content_type :
  forall env (url : URL) retries delay r ct,
    exchange (env retries) = Got.Reply r ->
    Got.content_type r = Some ct ->
    (forall type, type ∈ mediaTypes -> JS.includes (JS.toLowerCase ct) type = false)
    \/ JS.includes (JS.toLowerCase ct) "charset" = true ->
    let message := "Invalid content-type " +:+ ct in
    (Got.isResponseOk r = true ->
     doDownload env url true retries delay = (message, [Request url true]))
    /\ fst (try_block url false (env retries)) = Throw message
    /\ (JS.includes message "getaddrinfo ENOTFOUND" = false ->
        (retries < MaxRetries)%nat ->
        doDownload env url false retries delay
        = (fst (doDownload env url false (retries + 1) (delay + 1000)),
           Request url false :: Sleep delay
             :: snd (doDownload env url false (retries + 1) (delay + 1000))))
    /\ (JS.includes message "getaddrinfo ENOTFOUND" = true
        \/ (MaxRetries <= retries)%nat ->
        doDownload env url false retries delay = (message, [Request url false])).
Proof.
  intros env url retries delay r ct Hx Hct Hbad message.
  apply invalid_content_type_spec in Hbad.
  assert (Hstrict : Got.isResponseOk r = true ->
            try_block url true (env retries) = (Return message, [Request url true])).
  { intros Hok. unfold try_block. rewrite Hx. simpl. rewrite Hok. simpl.
    by rewrite Hct, Hbad. }
  assert (Hlax : try_block url false (env retries)
                 = (Throw message, [Request url false])).
  { unfold try_block. rewrite Hx. simpl. by rewrite Hct, Hbad. }
  split; [|split; [|split]].
  - intros Hok. by rewrite doDownload_eq, (Hstrict Hok).
  - by rewrite Hlax.
  - intros Hdns Hlt. rewrite doDownload_eq, Hlax.
    subst message. rewrite switch_returns_invalid, Hdns.
    apply Nat.ltb_lt in Hlt. rewrite Hlt.
    by destruct (doDownload env url false (retries + 1) (delay + 1000)).
  - intros Hend. rewrite doDownload_eq, Hlax.
    subst message. rewrite switch_returns_invalid.
    destruct Hend as [->|Hge]; [reflexivity|].
    apply Nat.ltb_ge in Hge. rewrite Hge.
    by destruct (JS.includes _ _).
Qed.

(** C5.  A fetch whose GET yields a response with a valid media content
    type, and whose file is written, resolves to
    [<outDir>/<MD5 of the body, in hexadecimal>.<ext>], having written
    the body there; [<ext>] is what follows the first [/] of the content
    type.  Hence two fetches that receive the same bytes under the same
    content type resolve to the same path, that of the MD5 of these
    bytes, whatever their URLs and modes. *)
Theorem C5_content_addressed_path :
  (forall env (url : URL) strict retries delay r ct,
      Got.got strict (exchange (env retries)) = inl r ->
      Got.content_type r = Some ct ->
      invalid_content_type ct = false ->
      writeFile_error (env retries) = None ->
      let filePath :=
        outDir +:+ "/" +:+ MD5.hexdigest (Got.body r) +:+ "."
          +:+ removeBefore ct "/" in
      doDownload env url strict retries delay
      = (filePath, [Request url strict; WriteFile filePath (Got.body r)]))
  /\ (forall type subtype,
      JS.includes type "/" = false ->
      removeBefore (type +:+ "/" +:+ subtype) "/" = subtype)
  /\ (forall env1 (url1 : URL) strict1 retries1 delay1 r1
             env2 (url2 : URL) strict2 retries2 delay2 r2 ct,
      Got.got strict1 (exchange (env1 retries1)) = inl r1 ->
      Got.got strict2 (exchange (env2 retries2)) = inl r2 ->
      Got.content_type r1 = Some ct ->
      Got.content_type r2 = Some ct ->
      invalid_content_type ct = false ->
      writeFile_error (env1 retries1) = None ->
      writeFile_error (env2 retries2) = None ->
      Got.body r1 = Got.body r2 ->
      fst (doDownload env1 url1 strict1 retries1 delay1)
      = outDir +:+ "/" +:+ MD5.hexdigest (Got.body r1) +:+ "."
          +:+ removeBefore ct "/"
      /\ fst (doDownload env2 url2 strict2 retries2 delay2)
         = fst (doDownload env1 url1 strict1 retries1 delay1)).
Proof.
  assert (Hpath : forall env (url : URL) strict retries delay r ct,
      Got.got strict (exchange (env retries)) = inl r ->
      Got.content_type r = Some ct ->
      invalid_content_type ct = false ->
      writeFile_error (env retries) = None ->
      let filePath :=
        outDir +:+ "/" +:+ MD5.hexdigest (Got.body r) +:+ "."
          +:+ removeBefore ct "/" in
      doDownload env url strict retries delay
      = (filePath, [Request url strict; WriteFile filePath (Got.body r)])).
  { intros env url strict retries delay r ct Hgot Hct Hvalid Hwrite filePath.
    rewrite doDownload_eq. unfold try_block, md5Hash.
    by rewrite Hgot, Hct, Hvalid, Hwrite. }
  split; [exact Hpath|]. split; [exact removeBefore_slash|].
  intros env1 url1 strict1 retries1 delay1 r1 env2 url2 strict2 retries2 delay2 r2 ct
         Hgot1 Hgot2 Hct1 Hct2 Hvalid Hw1 Hw2 Hbody.
  rewrite (Hpath _ url1 _ _ delay1 _ _ Hgot1 Hct1 Hvalid Hw1).
  rewrite (Hpath _ url2 _ _ delay2 _ _ Hgot2 Hct2 Hvalid Hw2).
  simpl. by rewrite Hbody.
Qed.

(** C10.  When the response carries no content-type header the check on
    the header is skipped: the body is written to
    [<outDir>/<MD5 of the body, in hexadecimal>.] -- the extension is
    empty, the dot stays -- and that path is the outcome. *)
Theorem C10_missing_content_type :
  forall env (url : URL) strict retries delay r,
    Got.got strict (exchange (env retries)) = inl r ->
    Got.content_type r = None ->
    writeFile_error (env retries) = None ->
    let filePath := outDir +:+ "/" +:+ MD5.hexdigest (Got.body r) +:+ "." in
    doDownload env url strict retries delay
    = (filePath, [Request url strict; WriteFile filePath (Got.body r)]).
Proof.
  intros env url strict retries delay r Hgot Hct Hwrite filePath.
  rewrite doDownload_eq. unfold try_block, md5Hash.
  by rewrite Hgot, Hct, Hwrite.
Qed.

End ContentStore.

Lemma C1_listed_errors_are_final_witness :
  doDownload (Ex.always Ex.no_such_host) Ex.cdn_a false 0 1000
  = ("getaddrinfo ENOTFOUND cdn.example.com"%string, [Request Ex.cdn_a false])
  /\ doDownload (Ex.always Ex.not_found) Ex.cdn_a true 3 4000
     = ("Response code 404 (Not Found)"%string, [Request Ex.cdn_a true]).
Proof.
  split.
  - apply (proj1 C1_listed_errors_are_final); [reflexivity|right; reflexivity].
  - eapply (proj2 C1_listed_errors_are_final); reflexivity.
Defined.

(** C1, as stated, fails: a strict GET answered with status 422 and the
    registered reason phrase fails with a message that is not one of the
    [case] labels, and is retried five times. *)
Lemma C1_status_422_is_retried :
  Got.got true Ex.unprocessable
  = inr "Response code 422 (Unprocessable Entity)"%string
  /\ doDownload (Ex.always Ex.unprocessable) Ex.cdn_a true 0 1000
     = ("Response code 422 (Unprocessable Entity)"%string,
        [Request Ex.cdn_a true; Sleep 1000;
         Request Ex.cdn_a true; Sleep 2000;
         Request Ex.cdn_a true; Sleep 3000;
         Request Ex.cdn_a true; Sleep 4000;
         Request Ex.cdn_a true; Sleep 5000;
         Request Ex.cdn_a true]).
Proof. split; reflexivity. Qed.

Lemma C2_five_retries_linear_backoff_witness :
  doDownload (Ex.always Ex.timeout) Ex.cdn_a true 0 1000
  = ("Timeout awaiting 'request' for 30000ms"%string,
     [Request Ex.cdn_a true; Sleep 1000;
      Request Ex.cdn_a true; Sleep 2000;
      Request Ex.cdn_a true; Sleep 3000;
      Request Ex.cdn_a true; Sleep 4000;
      Request Ex.cdn_a true; Sleep 5000;
      Request Ex.cdn_a true]).
Proof.
  apply (proj2 C2_five_retries_linear_backoff _ _ _
           (fun _ => "Timeout awaiting 'request' for 30000ms"%string)).
  intros r _. repeat split; reflexivity.
Defined.

(** C2, as stated, fails: a fetch that keeps timing out makes six GETs,
    not five. *)
Lemma C2_sixth_attempt :
  attempts (snd (doDownload (Ex.always Ex.timeout) Ex.cdn_a true 0 1000)) = 6%nat
  /\ ~ (attempts (snd (doDownload (Ex.always Ex.timeout) Ex.cdn_a true 0 1000)) <= 5)%nat.
Proof. split; vm_compute; [reflexivity|lia]. Qed.

(** The example of the specification: three transient failures, then a
    success on the fourth attempt, after sleeps of 1 s, 2 s and 3 s. *)
Example success_on_fourth_attempt :
  doDownload (Ex.first 3 Ex.timeout Ex.empty_png) Ex.cdn_a true 0 1000
  = ("./images/d41d8cd98f00b204e9800998ecf8427e.png"%string,
     [Request Ex.cdn_a true; Sleep 1000;
      Request Ex.cdn_a true; Sleep 2000;
      Request Ex.cdn_a true; Sleep 3000;
      Request Ex.cdn_a true;
      WriteFile "./images/d41d8cd98f00b204e9800998ecf8427e.png" []]).
Proof. reflexivity. Qed.

Lemma C4_invalid_content_type_witness :
  doDownload (Ex.always Ex.html_page) Ex.cdn_a true 0 1000
  = ("Invalid content-type text/html; charset=utf-8"%string, [Request Ex.cdn_a true])
  /\ doDownload (Ex.always Ex.html_page) Ex.cdn_a false 5 6000
     = ("Invalid content-type text/html; charset=utf-8"%string, [Request Ex.cdn_a false]).
Proof.
  split.
  - eapply C4_invalid_content_type;
      [reflexivity|reflexivity|right; reflexivity|reflexivity].
  - eapply C4_invalid_content_type;
      [reflexivity|reflexivity|right; reflexivity|right; unfold MaxRetries; lia].
Defined.

(** C4, as stated, fails: a non-strict fetch answered with a charset-bearing
    content type is retried five times before the message becomes its
    outcome. *)
Lemma C4_non_strict_is_retried :
  doDownload (Ex.always Ex.html_page) Ex.cdn_a false 0 1000
  = ("Invalid content-type text/html; charset=utf-8"%string,
     [Request Ex.cdn_a false; Sleep 1000;
      Request Ex.cdn_a false; Sleep 2000;
      Request Ex.cdn_a false; Sleep 3000;
      Request Ex.cdn_a false; Sleep 4000;
      Request Ex.cdn_a false; Sleep 5000;
      Request Ex.cdn_a false]).
Proof. reflexivity. Qed.

Lemma C5_content_addressed_path_witness :
  doDownload (Ex.always Ex.abc_png) Ex.cdn_a true 0 1000
  = ("./images/900150983cd24fb0d6963f7d28e17f72.png"%string,
     [Request Ex.cdn_a true;
      WriteFile "./images/900150983cd24fb0d6963f7d28e17f72.png"
        (list_byte_of_string "abc")])
  /\ doDownload (Ex.always Ex.empty_png) Ex.cdn_a true 0 1000
     = ("./images/d41d8cd98f00b204e9800998ecf8427e.png"%string,
        [Request Ex.cdn_a true;
         WriteFile "./images/d41d8cd98f00b204e9800998ecf8427e.png" []])
  /\ removeBefore "image/svg+xml" "/" = "svg+xml"%string
  /\ fst (doDownload (Ex.always Ex.digits_jpeg) Ex.cdn_a true 0 1000)
     = "./images/57edf4a22be3c955ac49da2e2107b67a.jpeg"%string
  /\ fst (doDownload (Ex.first 2 Ex.timeout Ex.digits_jpeg)
            (Ex.parsed "https://mirror.example.org/b") false 2 3000)
     = fst (doDownload (Ex.always Ex.digits_jpeg) Ex.cdn_a true 0 1000).
Proof.
  split; [|split; [|split]].
  - exact (proj1 C5_content_addressed_path
             (Ex.always Ex.abc_png) Ex.cdn_a true 0%nat 1000
             (Ex.response 200 "OK" (Some "image/png"%string) "abc")
             "image/png"%string
             eq_refl eq_refl eq_refl eq_refl).
  - exact (proj1 C5_content_addressed_path
             (Ex.always Ex.empty_png) Ex.cdn_a true 0%nat 1000
             (Ex.response 200 "OK" (Some "image/png"%string) "") "image/png"%string
             eq_refl eq_refl eq_refl eq_refl).
  - apply (proj1 (proj2 (@C5_content_addressed_path LiteURL.t)) "image" "svg+xml").
    reflexivity.
  - exact (proj2 (proj2 C5_content_addressed_path)
             (Ex.always Ex.digits_jpeg) Ex.cdn_a true 0%nat 1000
             (Ex.response 200 "OK" (Some "image/jpeg"%string) Ex.digits)
             (Ex.first 2 Ex.timeout Ex.digits_jpeg)
             (Ex.parsed "https://mirror.example.org/b") false 2%nat 3000
             (Ex.response 200 "OK" (Some "image/jpeg"%string) Ex.digits)
             "image/jpeg"%string
             eq_refl eq_refl eq_refl eq_refl eq_refl eq_refl eq_refl eq_refl).
Defined.

Lemma C10_missing_content_type_witness :
  doDownload (Ex.always Ex.untyped) Ex.cdn_a true 0 1000
  = ("./images/900150983cd24fb0d6963f7d28e17f72."%string,
     [Request Ex.cdn_a true;
      WriteFile "./images/900150983cd24fb0d6963f7d28e17f72."
        (list_byte_of_string "abc")])
  /\ doDownload (Ex.always Ex.untyped_empty) Ex.cdn_a false 0 1000
     = ("./images/d41d8cd98f00b204e9800998ecf8427e."%string,
        [Request Ex.cdn_a false;
         WriteFile "./images/d41d8cd98f00b204e9800998ecf8427e." []]).
Proof.
  split.
  - exact (C10_missing_content_type
             (Ex.always Ex.untyped) Ex.cdn_a true 0%nat 1000
             (Ex.response 200 "OK" None "abc") eq_refl eq_refl eq_refl).
  - exact (C10_missing_content_type
             (Ex.always Ex.untyped_empty) Ex.cdn_a false 0%nat 1000
             (Ex.response 200 "OK" None "") eq_refl eq_refl eq_refl).
Defined.

(* --------------------------------------------------------------------- *)
(** ** The semaphore of a Downloader *)
(* --------------------------------------------------------------------- *)

Lemma length_filter_remove (c : nat) (l : list nat) :
  NoDup l -> c ∈ l ->
  S (length (List.filter (fun x => negb (x =? c)%nat) l)) = length l.
Proof.
  induction 1 as [|x l Hx Hl IH]; intros Hin.
  - by apply elem_of_nil in Hin.
  - simpl. apply elem_of_cons in Hin as [->|Hin].
    + rewrite Nat.eqb_refl. simpl. f_equal.
      clear IH Hl. induction l as [|y l IHl]; [reflexivity|].
      apply not_elem_of_cons in Hx as [Hne Hx]. simpl.
      destruct (Nat.eqb_spec y x) as [->|_]; [done|].
      simpl. by rewrite IHl.
    + destruct (Nat.eqb_spec x c) as [->|_]; [done|].
      simpl. by rewrite IH.
Qed.

Lemma elem_of_filter_remove (c x : nat) (l : list nat) :
  x ∈ List.filter (fun y => negb (y =? c)%nat) l <-> x ∈ l /\ x <> c.
Proof.
  rewrite !list_elem_of_In, List.filter_In, negb_true_iff, Nat.eqb_neq. tauto.
Qed.

Section Limiter.
Variable capacity : Z.
Hypothesis capacity_nonneg : 0 <= capacity.

Import Callers.

Lemma limiter_init : Inv capacity (init capacity).
Proof.
  split; simpl; try constructor; try lia; try done.
  intros x Hx. by apply elem_of_nil in Hx.
Qed.

Lemma StronglySorted_snoc (l : list nat) (n : nat) :
  StronglySorted lt l -> Forall (fun x => (x < n)%nat) l ->
  StronglySorted lt (l ++ [n]).
Proof.
  induction 1 as [|x l Hl IH Hx]; intros Hall; simpl.
  - repeat constructor.
  - apply Forall_cons in Hall as [Hxn Hall]. constructor; [by apply IH|].
    apply Forall_app. split; [exact Hx|by repeat constructor].
Qed.

Lemma limiter_step l σ σ' : Inv capacity σ -> step l σ = Some σ' -> Inv capacity σ'.
Proof.
  intros [Hs Hn Hq Hso Hqo Hfo Hnd Hdj] Hstep. destruct l as [|c]; simpl in Hstep.
  - unfold Semaphore.getDownloadSempahore in Hstep.
    destruct (Z.ltb_spec 0 (avalibleDeliverySlots (this σ))) as [Hfree|Hfull];
      inversion Hstep; subst σ'; clear Hstep; split; simpl.
    + rewrite length_app. simpl. lia.
    + lia.
    + intros Hne. specialize (Hq Hne). lia.
    + exact Hso.
    + eapply Forall_impl; [exact Hqo|]. simpl. lia.
    + apply Forall_app. split; [|by repeat constructor].
      eapply Forall_impl; [exact Hfo|]. simpl. lia.
    + apply NoDup_app. split; [exact Hnd|]. split; [|apply NoDup_singleton].
      intros x Hx Hx'. apply list_elem_of_singleton in Hx'. subst x.
      rewrite Forall_forall in Hfo. specialize (Hfo _ Hx). lia.
    + intros x Hx Hx'. apply elem_of_app in Hx as [Hx|Hx]; [by eapply Hdj|].
      apply list_elem_of_singleton in Hx. subst x.
      rewrite Forall_forall in Hqo. specialize (Hqo _ Hx'). lia.
    + exact Hs.
    + exact Hn.
    + intros _. lia.
    + by apply StronglySorted_snoc.
    + apply Forall_app. split; [|by repeat constructor].
      eapply Forall_impl; [exact Hqo|]. simpl. lia.
    + eapply Forall_impl; [exact Hfo|]. simpl. lia.
    + exact Hnd.
    + intros x Hx Hx'. apply elem_of_app in Hx' as [Hx'|Hx']; [by eapply Hdj|].
      apply list_elem_of_singleton in Hx'. subst x.
      rewrite Forall_forall in Hfo. specialize (Hfo _ Hx). lia.
  - destruct (decide (c ∈ in_flight σ)) as [Hc|]; [|discriminate].
    pose proof (length_filter_remove c _ Hnd Hc) as Hlen.
    assert (Hnd' : NoDup (List.filter (fun x => negb (x =? c)%nat) (in_flight σ))).
    { by apply NoDup_ListNoDup, List.NoDup_filter, NoDup_ListNoDup. }
    unfold Semaphore.releaseDownloadSemaphore in Hstep.
    destruct (downloadQueue (this σ)) as [|w rest] eqn:Hqueue;
      inversion Hstep; subst σ'; clear Hstep; split; simpl.
    + rewrite length_app, Nat.add_0_r. lia.
    + lia.
    + done.
    + constructor.
    + constructor.
    + rewrite app_nil_r, Forall_forall. intros x Hx.
      apply elem_of_filter_remove in Hx as [Hx _].
      rewrite Forall_forall in Hfo. by apply Hfo.
    + by rewrite app_nil_r.
    + intros x _ Hx. by apply elem_of_nil in Hx.
    + rewrite length_app. simpl. lia.
    + lia.
    + intros _. rewrite Hq by done. lia.
    + by inversion Hso.
    + by inversion Hqo.
    + apply Forall_app. split.
      * rewrite Forall_forall. intros x Hx.
        apply elem_of_filter_remove in Hx as [Hx _].
        rewrite Forall_forall in Hfo. by apply Hfo.
      * inversion Hqo; subst. by repeat constructor.
    + apply NoDup_app. split; [exact Hnd'|]. split; [|apply NoDup_singleton].
      intros x Hx Hx'. apply list_elem_of_singleton in Hx'. subst x.
      apply elem_of_filter_remove in Hx as [Hx _].
      apply (Hdj _ Hx). by left.
    + intros x Hx Hx'. apply elem_of_app in Hx as [Hx|Hx].
      * apply elem_of_filter_remove in Hx as [Hx _].
        apply (Hdj _ Hx). by right.
      * apply list_elem_of_singleton in Hx. subst x.
        inversion Hso as [|? ? _ Hlt]; subst.
        rewrite Forall_forall in Hlt. specialize (Hlt _ Hx'). lia.
Qed.

Lemma limiter_run ls : forall σ σ', Inv capacity σ -> run ls σ = Some σ' -> Inv capacity σ'.
Proof.
  induction ls as [|l ls IH]; intros σ σ' Hinv Hrun; simpl in Hrun.
  - by inversion Hrun; subst.
  - destruct (step l σ) as [σ1|] eqn:Hstep; [|discriminate].
    simpl in Hrun. eapply IH; [|exact Hrun]. by eapply limiter_step.
Qed.

End Limiter.

(* --------------------------------------------------------------------- *)
(** ** The jobs of the main routine *)
(* --------------------------------------------------------------------- *)

Section Jobs.
Context `{URLApi}.

(** The checkpoint the run was started from. *)
Variable checkpoint : gmap string string.

Lemma job_inv_resumed m key t t' :
  resumed t t' -> job_inv checkpoint m key t -> job_inv checkpoint m key t'.
Proof.
  intros [->|(f & stage & Hst & ->)]; [done|].
  unfold job_inv. rewrite Hst. simpl. done.
Qed.

Lemma job_inv_other m key key' r t :
  key <> key' -> job_inv checkpoint m key t -> job_inv checkpoint (<[key' := r]> m) key t.
Proof.
  intros Hne. unfold job_inv.
  rewrite lookup_insert_ne by done. done.
Qed.

Lemma wake_urlPathMap woken (σ : State URL) : urlPathMap (wake woken σ) = urlPathMap σ.
Proof. by destruct woken. Qed.

Lemma wake_lookup woken (σ : State URL) key t' :
  tasks (wake woken σ) !! key = Some t' ->
  exists t, tasks σ !! key = Some t /\ resumed t t'.
Proof.
  destruct woken as [w|]; simpl; [|intros Ht; exists t'; split; [done|by left]].
  rewrite lookup_alter. case_decide as Hw; [subst w|].
  - destruct (tasks σ !! key) as [t|] eqn:Ht; simpl; [|done].
    intros [= <-]. exists t. split; [done|].
    destruct (task_status t) eqn:Hst; try by left.
    right. eauto.
  - intros Ht. exists t'. split; [done|by left].
Qed.

(** A job that is downloading is not affected by a resolver being run. *)
Lemma wake_lookup_downloading woken (σ : State URL) key t f stage :
  tasks σ !! key = Some t ->
  task_status t = Downloading f stage ->
  tasks (wake woken σ) !! key = Some t.
Proof.
  intros Ht Hst. destruct woken as [w|]; simpl; [|done].
  rewrite lookup_alter. case_decide; [subst w|done].
  by rewrite Ht; simpl; rewrite Hst.
Qed.

(** What [download] does to the state up to its first suspension. *)
Lemma enter_download_effect key f stage (σ : State URL) :
  exists st evs,
    tasks (enter_download key f stage σ) = alter (update_task st evs) key (tasks σ)
    /\ urlPathMap (enter_download key f stage σ) = urlPathMap σ
    /\ ((st = Thrown /\ evs = [])
        \/ ((st = Acquiring f stage \/ st = Downloading f stage)
            /\ evs = [Download (call_of f stage).1.1 (call_of f stage).1.2
                               (call_of f stage).2])).
Proof.
  unfold enter_download.
  destruct (call_of f stage) as [[dest target] strict]. simpl.
  destruct (downloaders σ !! dest) as [d|].
  - destruct (Semaphore.getDownloadSempahore d key) as [d' granted].
    exists (if granted then Downloading f stage else Acquiring f stage),
           [Download dest target strict].
    simpl. repeat split. right. split; [|done]. destruct granted; auto.
  - exists Thrown, []. simpl. repeat split. by left.
Qed.

Lemma inv_finish_job key (σ : State URL) t :
  inv checkpoint σ ->
  tasks σ !! key = Some t ->
  job_inv checkpoint (urlPathMap σ) key (update_task Returned [] t) ->
  inv checkpoint (finish_job key σ).
Proof.
  intros Hinv Ht Hjob key' t'. unfold finish_job, set_task. simpl.
  rewrite lookup_alter. case_decide as Hk; [subst key'|by apply Hinv].
  rewrite Ht. simpl. by intros [= <-].
Qed.

Lemma inv_thrown key (σ : State URL) t :
  inv checkpoint σ ->
  tasks σ !! key = Some t ->
  checkpoint !! key = None ->
  inv checkpoint (set_task key Thrown [] σ).
Proof.
  intros Hinv Ht Hnone key' t'. unfold set_task. simpl.
  rewrite lookup_alter. case_decide as Hk; [subst key'|by apply Hinv].
  rewrite Ht. simpl. by intros [= <-].
Qed.

Lemma inv_enter_download key f stage (σ : State URL) t :
  inv checkpoint σ ->
  tasks σ !! key = Some t ->
  checkpoint !! key = None ->
  frame_of key (task_url t) f ->
  in_progress f stage
    (task_history t ++ [Download (call_of f stage).1.1 (call_of f stage).1.2
                                 (call_of f stage).2]) ->
  inv checkpoint (enter_download key f stage σ).
Proof.
  intros Hinv Ht Hnone Hframe Hprog key' t'.
  destruct (enter_download_effect key f stage σ) as (st & evs & -> & -> & Hst).
  rewrite lookup_alter. case_decide as Hk; [subst key'|by apply Hinv].
  rewrite Ht. simpl. intros [= <-]. unfold job_inv. simpl.
  destruct Hst as [[-> ->]|[[->| ->] ->]]; simpl; done.
Qed.

Lemma inv_job_start key (σ : State URL) t :
  inv checkpoint σ ->
  tasks σ !! key = Some t ->
  task_status t = Pending ->
  inv checkpoint (job_start key (task_url t) σ).
Proof.
  intros Hinv Ht Hst. pose proof (Hinv _ _ Ht) as Hjob.
  unfold job_inv in Hjob. rewrite Hst in Hjob. destruct Hjob as [Hhist Hm].
  unfold job_start. case_decide as Hskip.
  { eapply inv_finish_job; [done..|].
    unfold job_inv. simpl. left. rewrite Hhist. split; [|done].
    by rewrite <- Hm. }
  assert (Hnone : checkpoint !! key = None).
  { rewrite <- Hm. by apply eq_None_not_Some. }
  destruct (newURL key) as [kUrl|] eqn:HkUrl; [|by eapply inv_thrown].
  set (f := {| k := key; url := task_url t; kUrl := kUrl;
               downUrl := default kUrl (newURL (task_url t)) |}).
  assert (Hframe : frame_of key (task_url t) f) by done.
  assert (Hprog : forall stage,
            stage = (if decide (key = task_url t) then Direct else Resolved) ->
            in_progress f stage
              (task_history t ++ [Download (call_of f stage).1.1 (call_of f stage).1.2
                                           (call_of f stage).2])).
  { intros stage ->. rewrite Hhist. case_decide; simpl; done. }
  destruct (downloaders σ !! hostname (default kUrl (newURL (task_url t)))).
  - eapply inv_enter_download; eauto.
  - destruct (decide (hostname (default kUrl (newURL (task_url t))) ∈ Object_prototype));
      [by eapply inv_thrown|].
    eapply (inv_enter_download key f _
              {| urlPathMap := urlPathMap σ;
                 downloaders := _;
                 done := done σ;
                 tasks := tasks σ |}); eauto.
Qed.

Lemma inv_replace key (σ σ' : State URL) t' r :
  inv checkpoint σ ->
  (forall key', key' <> key -> tasks σ' !! key' = tasks σ !! key') ->
  tasks σ' !! key = Some t' ->
  urlPathMap σ' = <[key := r]> (urlPathMap σ) ->
  job_inv checkpoint (urlPathMap σ') key t' ->
  inv checkpoint σ'.
Proof.
  intros Hinv Hothers Hkey Hm Hjob key' t''.
  destruct (decide (key' = key)) as [->|Hne].
  - rewrite Hkey. by intros [= <-].
  - rewrite Hothers, Hm by done. intros Ht. apply job_inv_other; [done|].
    by apply Hinv.
Qed.

Lemma inv_wake woken (σ : State URL) : inv checkpoint σ -> inv checkpoint (wake woken σ).
Proof.
  intros Hinv key t' Ht'. rewrite wake_urlPathMap.
  apply wake_lookup in Ht' as (t & Ht & Hres).
  eapply job_inv_resumed; [done|]. by apply Hinv.
Qed.

Lemma inv_download_settles key f stage env (σ σ' : State URL) t :
  inv checkpoint σ ->
  tasks σ !! key = Some t ->
  task_status t = Downloading f stage ->
  download_settles f stage env σ = Some σ' ->
  inv checkpoint σ'.
Proof.
  intros Hinv Ht Hst Hsettle. pose proof (Hinv _ _ Ht) as Hjob.
  unfold job_inv in Hjob. rewrite Hst in Hjob.
  destruct Hjob as (Hnone & Hframe & Hprog).
  pose proof Hframe as (Hk & Hu & HkUrl & HdownUrl).
  unfold download_settles in Hsettle.
  destruct (call_of f stage) as [[dest target] strict] eqn:Hcall.
  destruct (doDownload env target strict 0 1000) as [result trace] eqn:Hdl.
  destruct (downloaders σ !! dest) as [d|]; [|done]. simpl in Hsettle.
  destruct (Semaphore.releaseDownloadSemaphore d) as [d' woken].
  injection Hsettle as <-.
  set (σ1 := wake woken _).
  assert (Hinv1 : inv checkpoint σ1).
  { apply inv_wake. intros key' t' Ht'. by apply Hinv. }
  assert (Ht1 : tasks σ1 !! key = Some t).
  { by eapply wake_lookup_downloading. }
  assert (Hm1 : urlPathMap σ1 = urlPathMap σ) by (subst σ1; by rewrite wake_urlPathMap).
  assert (Hprod : produced target strict result trace) by (by exists env).
  clearbody σ1. rewrite Hk.
  set (t2 := update_task (Downloading f stage) [Outcome result trace] t).
  assert (Hfinish :
            job_inv checkpoint (<[key := result]> (urlPathMap σ1)) key (update_task Returned [] t2) ->
            inv checkpoint (finish_job key
                   {| urlPathMap := <[key := result]> (urlPathMap σ1);
                      downloaders := downloaders σ1;
                      done := done σ1;
                      tasks := alter (update_task (Downloading f stage)
                                        [Outcome result trace]) key (tasks σ1) |})).
  { intros Hjob. eapply (inv_replace key σ1); [done| | |done|done].
    - intros key' Hne. simpl. by rewrite !lookup_alter_ne.
    - simpl. by rewrite !lookup_alter_eq, Ht1. }
  unfold job_resume, set_task. simpl. rewrite Hk, lookup_insert_eq. simpl.
  destruct stage; simpl in Hcall, Hprog; injection Hcall as <- <- <-.
  - (* Direct *)
    apply Hfinish. unfold job_inv. simpl. right. split; [done|].
    exists f. split; [done|]. left. destruct Hprog as [Heq ->].
    split; [done|]. exists result, trace. rewrite lookup_insert_eq. done.
  - (* Resolved *)
    destruct Hprog as [Hne Hh].
    destruct (JS.includes result outDir) eqn:Hinc; simpl.
    + apply Hfinish. unfold job_inv. simpl. right. split; [done|].
      exists f. split; [done|]. right. split; [done|].
      exists result, trace. split; [done|]. left. rewrite Hh, lookup_insert_eq. done.
    + destruct (String.eqb_spec key (url f)) as [Heq|_]; [congruence|]. simpl.
      match goal with |- inv checkpoint (enter_download key f Retry ?s) => set (σ3 := s) end.
      destruct (enter_download_effect key f Retry σ3) as (st & evs & Hts & Hm & Hcase).
      eapply (inv_replace key σ1); [done| | |by rewrite Hm|].
      * intros key' Hne'. rewrite Hts. simpl. by rewrite !lookup_alter_ne.
      * rewrite Hts. simpl. by rewrite !lookup_alter_eq, Ht1.
      * unfold job_inv. simpl.
        destruct Hcase as [[-> ->]|[[->| ->] ->]]; simpl; [done|..];
          (split; [done|]; split; [done|]; split; [done|];
           exists result, trace; rewrite Hh; done).
  - (* Retry *)
    destruct Hprog as (Hne & r1 & tr1 & Hh & Hprod1 & Hinc).
    apply Hfinish. unfold job_inv. simpl. right. split; [done|].
    exists f. split; [done|]. right. split; [done|].
    exists r1, tr1. split; [done|]. right.
    exists result, trace. rewrite Hh, lookup_insert_eq. done.
Qed.

Lemma inv_step l (σ σ' : State URL) : inv checkpoint σ -> step l σ = Some σ' -> inv checkpoint σ'.
Proof.
  intros Hinv Hstep. destruct l as [key|key env]; simpl in Hstep;
    destruct (tasks σ !! key) as [t|] eqn:Ht; simpl in Hstep; try done;
    destruct (task_status t) eqn:Hst; try done.
  - injection Hstep as <-. by apply inv_job_start.
  - by eapply inv_download_settles.
Qed.

Lemma inv_run ls : forall σ σ' : State URL, inv checkpoint σ -> run ls σ = Some σ' -> inv checkpoint σ'.
Proof.
  induction ls as [|l ls IH]; intros σ σ' Hinv Hrun; simpl in Hrun.
  - by injection Hrun as <-.
  - destruct (step l σ) as [σ1|] eqn:Hstep; [|done]. simpl in Hrun.
    eapply IH; [|done]. by eapply inv_step.
Qed.

End Jobs.

Section Setup.
Context `{URLApi}.

Lemma inv_setup imgs checkpoint σ0 :
  setup imgs checkpoint = Some σ0 -> inv checkpoint σ0.
Proof.
  unfold setup. destruct (build_imgMap (urlArray_of imgs) ∅) as [imgMap|]; [|done].
  simpl. intros [= <-] key t. simpl. rewrite lookup_fmap.
  destruct (imgMap !! key); simpl; [|done]. intros [= <-]. done.
Qed.

End Setup.

(* --------------------------------------------------------------------- *)
(** ** Skipping and falling back *)
(* --------------------------------------------------------------------- *)

Lemma includes_startsWith s t : JS.startsWith s t = true -> JS.includes s t = true.
Proof. intros Hpre. destruct s; cbn [JS.includes]; by rewrite Hpre. Qed.

Lemma includes_prefix a b : JS.includes (a +:+ b) a = true.
Proof.
  apply includes_startsWith. unfold JS.startsWith.
  induction a as [|c a IH]; [by destruct b|].
  change (String c a +:+ b) with (String c (a +:+ b)). cbn [String.prefix].
  by destruct (Ascii.ascii_dec c c).
Qed.

Section Fallback.
Context `{URLApi}.

(** The outcome of an attempt that stores a file is the path of the file,
    and the path lies under [outDir]. *)
Lemma try_block_stored (url : URL) strict a p data :
  WriteFile p data ∈ snd (try_block url strict a) ->
  fst (try_block url strict a) = Return p /\ JS.includes p outDir = true.
Proof.
  unfold try_block.
  destruct (Got.got strict (exchange a)) as [response|message]; simpl.
  - destruct (match Got.content_type response with
              | Some c => invalid_content_type c
              | None => false
              end).
    + destruct (negb strict); simpl; intros Hin;
        apply list_elem_of_singleton in Hin; discriminate Hin.
    + destruct (writeFile_error a); simpl; intros Hin.
      * apply list_elem_of_singleton in Hin. discriminate Hin.
      * apply elem_of_cons in Hin as [Hin|Hin]; [discriminate Hin|].
        apply list_elem_of_singleton in Hin. injection Hin as -> _.
        split; [done|]. apply includes_prefix.
  - intros Hin. apply list_elem_of_singleton in Hin. discriminate Hin.
Qed.

Lemma doDownload_stored env (url : URL) strict n :
  forall retries delay p data,
    (MaxRetries - retries)%nat = n ->
    WriteFile p data ∈ snd (doDownload env url strict retries delay) ->
    fst (doDownload env url strict retries delay) = p
    /\ JS.includes p outDir = true.
Proof.
  induction n as [|n IH]; intros retries delay p data Hn;
    rewrite doDownload_eq;
    pose proof (try_block_stored url strict (env retries) p data) as Hst;
    destruct (try_block_trace url strict (env retries)) as (_ & _ & Hthrow);
    destruct (try_block url strict (env retries)) as [[value|message] evs];
    simpl in Hst, Hthrow |- *;
    try (intros Hin; destruct (Hst Hin) as [[= ->] Hinc]; done);
    specialize (Hthrow _ eq_refl); subst evs;
    destruct (switch_returns message);
    try (intros Hin; by destruct (Hst Hin));
    destruct (JS.includes message "getaddrinfo ENOTFOUND");
    try (intros Hin; by destruct (Hst Hin));
    destruct (Nat.ltb_spec retries MaxRetries);
    try (intros Hin; by destruct (Hst Hin)); try lia.
  specialize (IH (retries + 1)%nat (delay + 1000) p data ltac:(lia)).
  destruct (doDownload env url strict (retries + 1) (delay + 1000)) as [r evs'].
  simpl in IH |- *. intros Hin.
  apply elem_of_cons in Hin as [Hin|Hin]; [discriminate Hin|].
  apply elem_of_cons in Hin as [Hin|Hin]; [discriminate Hin|].
  by apply IH.
Qed.

(** C7.  A work item whose original URL has an outcome in the checkpoint
    the run started from is skipped: at every point of every schedule its
    job has asked for no download, it is either not yet started or has
    returned, and [urlPathMap] still holds the outcome of the checkpoint.
    The segment in which its job runs changes nothing but the job's own
    status and the progress counter, which it advances by one. *)
Theorem C7_checkpointed_items_are_skipped :
  forall imgs checkpoint σ0 ls σ key t outcome,
    setup imgs checkpoint = Some σ0 ->
    run ls σ0 = Some σ ->
    tasks σ !! key = Some t ->
    checkpoint !! key = Some outcome ->
    (task_history t = []
     /\ (task_status t = Pending \/ task_status t = Returned)
     /\ urlPathMap σ !! key = Some outcome)
    /\ (forall σ', step (Start key) σ = Some σ' ->
        urlPathMap σ' = urlPathMap σ
        /\ downloaders σ' = downloaders σ
        /\ done σ' = S (done σ)
        /\ tasks σ' = alter (update_task Returned []) key (tasks σ)).
Proof.
  intros imgs checkpoint σ0 ls σ key t outcome Hsetup Hrun Ht Hck.
  pose proof (inv_run checkpoint ls _ _ (inv_setup _ _ _ Hsetup) Hrun _ _ Ht) as Hjob.
  unfold job_inv in Hjob.
  assert (Hskip : task_history t = []
                  /\ (task_status t = Pending \/ task_status t = Returned)
                  /\ urlPathMap σ !! key = Some outcome).
  { destruct (task_status t).
    - destruct Hjob as [-> ->]. auto.
    - destruct Hjob as [Hnone _]. congruence.
    - destruct Hjob as [Hnone _]. congruence.
    - destruct Hjob as [(_ & -> & ->)|[Hnone _]]; [auto|congruence].
    - congruence. }
  split; [exact Hskip|].
  intros σ' Hstep. simpl in Hstep. rewrite Ht in Hstep. simpl in Hstep.
  destruct (task_status t); try done. injection Hstep as <-.
  unfold job_start. destruct Hskip as (_ & _ & Hm).
  rewrite decide_True by (by rewrite Hm). done.
Qed.

(** C3 (as amended).  A work item that is not skipped and whose job has
    returned went through one of three histories, where [downUrl] is the
    resolved URL, or the original URL when the resolved string does not
    parse:
    - original and resolved strings equal: one non-strict download of
      [downUrl], whose outcome is recorded;
    - otherwise one strict download of [downUrl], whose outcome contains
      the string [outDir] and is recorded;
    - otherwise one strict download of [downUrl], whose outcome does not
      contain [outDir], then one non-strict download of the original URL
      through the [retry] Downloader, whose outcome is recorded.
    There is never a third download.  The path of a stored asset always
    contains [outDir]: a stored asset is never followed by the retry. *)
Theorem C3_at_most_two_fetches :
  (forall imgs checkpoint σ0 ls σ key t,
      setup imgs checkpoint = Some σ0 ->
      run ls σ0 = Some σ ->
      tasks σ !! key = Some t ->
      task_status t = Returned ->
      checkpoint !! key = None ->
      exists kUrl,
        newURL key = Some kUrl
        /\ let downUrl := default kUrl (newURL (task_url t)) in
           let first strict := Download (hostname downUrl) downUrl strict in
           (key = task_url t
            /\ exists r tr,
                task_history t = [first false; Outcome r tr]
                /\ produced downUrl false r tr
                /\ urlPathMap σ !! key = Some r)
           \/ (key <> task_url t
               /\ exists r1 tr1,
                   produced downUrl true r1 tr1
                   /\ ((task_history t = [first true; Outcome r1 tr1]
                        /\ JS.includes r1 outDir = true
                        /\ urlPathMap σ !! key = Some r1)
                       \/ (exists r2 tr2,
                             task_history t
                             = [first true; Outcome r1 tr1;
                                Download "retry" kUrl false; Outcome r2 tr2]
                             /\ JS.includes r1 outDir = false
                             /\ produced kUrl false r2 tr2
                             /\ urlPathMap σ !! key = Some r2))))
  /\ (forall target strict r tr data,
      produced target strict r tr ->
      WriteFile r data ∈ tr ->
      JS.includes r outDir = true).
Proof.
  split.
  - intros imgs checkpoint σ0 ls σ key t Hsetup Hrun Ht Hst Hnone.
    pose proof (inv_run checkpoint ls _ _ (inv_setup _ _ _ Hsetup) Hrun _ _ Ht) as Hjob.
    unfold job_inv in Hjob. rewrite Hst in Hjob.
    destruct Hjob as [([v Hv] & _)|(_ & f & Hframe & Hdone)]; [congruence|].
    destruct Hframe as (Hk & Hu & HkUrl & HdownUrl).
    subst key. exists (kUrl f). split; [done|]. cbv zeta.
    rewrite <- HdownUrl, <- Hu. exact Hdone.
  - intros target strict r tr data [env Hdl] Hin.
    pose proof (doDownload_stored env target strict _ 0%nat 1000 r data eq_refl) as Hst.
    rewrite Hdl in Hst. by apply Hst.
Qed.

End Fallback.

Lemma C7_checkpointed_items_are_skipped_witness :
  setup Ex.catalogue Ex.cover_done = Some Ex.skip_start
  /\ run Ex.skip_schedule Ex.skip_start = Some Ex.skip_end
  /\ tasks Ex.skip_end !! Ex.proxied = Some Ex.skip_task
  /\ Ex.cover_done !! Ex.proxied
     = Some "./images/0cc175b9c0f1b6a831c399e269772661.jpeg"%string
  /\ task_history Ex.skip_task = []
  /\ (task_status Ex.skip_task = Pending \/ task_status Ex.skip_task = Returned)
  /\ urlPathMap Ex.skip_end !! Ex.proxied
     = Some "./images/0cc175b9c0f1b6a831c399e269772661.jpeg"%string.
Proof.
  assert (H0 : setup Ex.catalogue Ex.cover_done = Some Ex.skip_start)
    by (vm_compute; reflexivity).
  assert (H1 : run Ex.skip_schedule Ex.skip_start = Some Ex.skip_end)
    by (vm_compute; reflexivity).
  assert (H2 : tasks Ex.skip_end !! Ex.proxied = Some Ex.skip_task)
    by (vm_compute; reflexivity).
  assert (H3 : Ex.cover_done !! Ex.proxied
               = Some "./images/0cc175b9c0f1b6a831c399e269772661.jpeg"%string)
    by (vm_compute; reflexivity).
  repeat (split; [assumption|]).
  exact (proj1 (C7_checkpointed_items_are_skipped _ _ _ _ _ _ _ _ H0 H1 H2 H3)).
Defined.

Lemma C3_at_most_two_fetches_witness :
  setup Ex.catalogue ∅ = Some Ex.fresh_start
  /\ run Ex.fallback_schedule Ex.fresh_start = Some Ex.fallback_end
  /\ tasks Ex.fallback_end !! Ex.proxied = Some Ex.fallback_task
  /\ task_status Ex.fallback_task = Returned
  /\ (∅ : gmap string string) !! Ex.proxied = None
  /\ task_history Ex.fallback_task
     = [Download "cdn.example.com" Ex.cdn_a true;
        Outcome "Invalid content-type text/html" [Request Ex.cdn_a true];
        Download "retry" (Ex.parsed Ex.proxied) false;
        Outcome "./images/d41d8cd98f00b204e9800998ecf8427e.png"
          [Request (Ex.parsed Ex.proxied) false;
           WriteFile "./images/d41d8cd98f00b204e9800998ecf8427e.png" []]]
  /\ exists kUrl,
      newURL Ex.proxied = Some kUrl
      /\ let downUrl := default kUrl (newURL (task_url Ex.fallback_task)) in
         let first strict := Download (hostname downUrl) downUrl strict in
         (Ex.proxied = task_url Ex.fallback_task
          /\ exists r tr,
              task_history Ex.fallback_task = [first false; Outcome r tr]
              /\ produced downUrl false r tr
              /\ urlPathMap Ex.fallback_end !! Ex.proxied = Some r)
         \/ (Ex.proxied <> task_url Ex.fallback_task
             /\ exists r1 tr1,
                 produced downUrl true r1 tr1
                 /\ ((task_history Ex.fallback_task = [first true; Outcome r1 tr1]
                      /\ JS.includes r1 outDir = true
                      /\ urlPathMap Ex.fallback_end !! Ex.proxied = Some r1)
                     \/ (exists r2 tr2,
                           task_history Ex.fallback_task
                           = [first true; Outcome r1 tr1;
                              Download "retry" kUrl false; Outcome r2 tr2]
                           /\ JS.includes r1 outDir = false
                           /\ produced kUrl false r2 tr2
                           /\ urlPathMap Ex.fallback_end !! Ex.proxied = Some r2))).
Proof.
  assert (H0 : setup Ex.catalogue ∅ = Some Ex.fresh_start)
    by (vm_compute; reflexivity).
  assert (H1 : run Ex.fallback_schedule Ex.fresh_start = Some Ex.fallback_end)
    by (vm_compute; reflexivity).
  assert (H2 : tasks Ex.fallback_end !! Ex.proxied = Some Ex.fallback_task)
    by (vm_compute; reflexivity).
  assert (H3 : task_status Ex.fallback_task = Returned)
    by (vm_compute; reflexivity).
  assert (H4 : (∅ : gmap string string) !! Ex.proxied = None)
    by (vm_compute; reflexivity).
  repeat (split; [assumption|]).
  split; [vm_compute; reflexivity|].
  exact (proj1 C3_at_most_two_fetches _ _ _ _ _ _ _ H0 H1 H2 H3 H4).
Defined.

(** C3, as stated, fails.  First schedule: the strict download of the
    resolved URL ends in an error message, nothing is stored, and yet the
    job returns without the download of the original URL -- the message
    contains [./images].  Second schedule: the resolved string does not
    parse, and the strict download is that of the original URL. *)
Lemma C3_error_outcome_not_retried :
  (setup Ex.catalogue ∅ = Some Ex.fresh_start
   /\ run Ex.refused_schedule Ex.fresh_start = Some Ex.refused_end
   /\ tasks Ex.refused_end !! Ex.proxied
      = Some {| task_url := "https://cdn.example.com/a.jpg";
                task_status := Returned;
                task_history :=
                  [Download "cdn.example.com" Ex.cdn_a true;
                   Outcome "Invalid content-type text/html; charset=./images"
                     [Request Ex.cdn_a true]] |}
   /\ urlPathMap Ex.refused_end !! Ex.proxied
      = Some "Invalid content-type text/html; charset=./images"%string)
  /\ (resolve Ex.relative = Some "cdn.example.com/a.jpg"%string
      /\ newURL "cdn.example.com/a.jpg" = None
      /\ (σ0 ← setup Ex.relative_catalogue ∅;
          σ ← run [Start Ex.relative] σ0;
          t ← tasks σ !! Ex.relative;
          Some (task_history t))
         = Some [Download "proxy.example.com" (Ex.parsed Ex.relative) true]).
Proof.
  split; [split; [|split; [|split]]|split; [|split]]; vm_compute; reflexivity.
Qed.

(* --------------------------------------------------------------------- *)
(** ** URL resolution and malformed URLs *)
(* --------------------------------------------------------------------- *)

Section Resolution.
Context `{URLApi}.

(** On an original URL that parses, resolution yields the value of the
    [url] parameter when there is one and the original string otherwise,
    without a leading [//]. *)
Lemma resolve_parsed original u :
  newURL original = Some u ->
  resolve original
  = Some (let fUrl := default original (searchParams_get u "url") in
          if JS.startsWith fUrl "//" then JS.slice fUrl 2 (JS.length fUrl) else fUrl).
Proof. intros Hu. unfold resolve. by rewrite Hu. Qed.

(** Resolution throws exactly when the original URL does not parse. *)
Lemma resolve_throws original :
  resolve original = None <-> newURL original = None.
Proof.
  unfold resolve. destruct (newURL original); simpl; split; done.
Qed.

Lemma build_imgMap_throws urlArray :
  forall imgMap original,
    original ∈ urlArray ->
    newURL original = None ->
    build_imgMap urlArray imgMap = None.
Proof.
  induction urlArray as [|url rest IH]; intros imgMap original Hin Hbad.
  - by apply elem_of_nil in Hin.
  - simpl. destruct (resolve url) as [fUrl|] eqn:Hres; [|done]. simpl.
    apply elem_of_cons in Hin as [->|Hin]; [|by eapply IH].
    apply resolve_throws in Hbad. congruence.
Qed.

(** One URL that does not parse, anywhere in the catalogue, and the
    routine throws during its set-up: no job is ever dispatched. *)
Lemma setup_throws imgs checkpoint original :
  original ∈ urlArray_of imgs ->
  newURL original = None ->
  setup imgs checkpoint = None.
Proof.
  intros Hin Hbad. unfold setup.
  by rewrite (build_imgMap_throws _ _ _ Hin Hbad).
Qed.

End Resolution.

(** C6, at the failing input.  Resolution is not total: on an original
    string that is not a URL, [new URL(url)] throws inside the loop that
    builds [imgMap], and nothing catches it -- there is no candidate and no
    fall-back.  (On a string that parses, resolution is as described:
    [resolve_parsed].) *)
Theorem C6_resolution_throws_on_malformed_original :
  newURL Ex.malformed = None
  /\ resolve Ex.malformed = None
  /\ forall imgMap, build_imgMap [Ex.direct; Ex.malformed] imgMap = None.
Proof.
  split; [reflexivity|]. split; [reflexivity|]. intros imgMap.
  apply (build_imgMap_throws _ _ Ex.malformed); [set_solver|reflexivity].
Qed.

(** C8, at the failing input.  A catalogue with one malformed URL makes the
    routine throw before any job is dispatched, whatever the checkpoint:
    no outcome is recorded for any of its URLs. *)
Theorem C8_malformed_url_aborts_the_run :
  Ex.malformed ∈ urlArray_of Ex.bad_catalogue
  /\ forall checkpoint, setup Ex.bad_catalogue checkpoint = None.
Proof.
  split; [vm_compute; set_solver|]. intros checkpoint.
  apply (setup_throws _ _ Ex.malformed); [vm_compute; set_solver|reflexivity].
Qed.

(** A second way for one URL to end the run: its host name is the name of
    a property that [downloaders] inherits, so [??=] assigns nothing and
    the call of [download] on the inherited value throws inside the job. *)
Example inherited_host_throws :
  (σ0 ← setup Ex.inherited_catalogue ∅;
   σ ← run [Start Ex.inherited] σ0;
   t ← tasks σ !! Ex.inherited;
   Some (task_status t, task_history t, urlPathMap σ !! Ex.inherited))
  = Some (Thrown, [], None).
Proof. vm_compute. reflexivity. Qed.

(* --------------------------------------------------------------------- *)
(** ** The Downloaders of the main routine *)
(* --------------------------------------------------------------------- *)

Section Accounts.
Context {A : Type}.
Implicit Types (m : gmap string A) (P : A -> bool) (Q : string -> Prop).

Lemma account_ext exempt m P Q Q' :
  (forall key, Q key <-> Q' key) -> account exempt m P Q -> account exempt m P Q'.
Proof. intros Heq Hacc key. rewrite <- Heq. apply Hacc. Qed.

(** An account reads the entries that are not exempt, and nothing else. *)
Lemma account_agree k m m' P Q :
  (forall key, key <> k -> m' !! key = m !! key) ->
  account (Some k) m P Q -> account (Some k) m' P Q.
Proof.
  intros Hagree Hacc key. rewrite (Hacc key).
  split; intros (Hne & Hex); (split; [done|]).
  - rewrite Hagree; [done|congruence].
  - rewrite <- Hagree; [done|congruence].
Qed.

(** Exempting an entry that is not in the account, and back. *)
Lemma account_exempt k m P Q a :
  m !! k = Some a -> P a = false ->
  account None m P Q -> account (Some k) m P Q.
Proof.
  intros Ha HP Hacc key. rewrite (Hacc key). split.
  - intros (_ & a' & Ha' & HP'). split; [|by eauto]. intros [= ->]. congruence.
  - intros (_ & Hex). by split.
Qed.

Lemma account_unexempt k m P Q a :
  m !! k = Some a -> P a = false ->
  account (Some k) m P Q -> account None m P Q.
Proof.
  intros Ha HP Hacc key. rewrite (Hacc key). split.
  - intros (_ & Hex). by split.
  - intros (_ & a' & Ha' & HP'). split; [|by eauto]. intros [= ->]. congruence.
Qed.

(** Exempting an entry that is in the account takes it out. *)
Lemma account_leave k m P Q a :
  m !! k = Some a ->
  account None m P Q ->
  account (Some k) m P (fun key => Q key /\ key <> k).
Proof.
  intros Ha Hacc key. rewrite (Hacc key). split.
  - intros [(_ & Hex) Hne]. split; [congruence|done].
  - intros (Hne & Hex). split; [by split|congruence].
Qed.

(** An exempt entry that satisfies [P] joins the account. *)
Lemma account_join k m P Q a :
  m !! k = Some a -> P a = true ->
  account (Some k) m P Q ->
  account None m P (fun key => Q key \/ key = k).
Proof.
  intros Ha HP Hacc key. rewrite (Hacc key). split.
  - intros [(_ & Hex)| ->]; (split; [done|]); eauto.
  - intros (_ & a' & Ha' & HP').
    destruct (decide (key = k)) as [->|Hne]; [by right|left].
    split; [congruence|by eauto].
Qed.

(** Altering an entry that is not exempt: it stays out or in, joins, or
    leaves. *)
Lemma account_alter_same exempt w g m P Q a :
  m !! w = Some a -> P (g a) = P a ->
  account exempt m P Q -> account exempt (alter g w m) P Q.
Proof.
  intros Ha HP Hacc key. rewrite (Hacc key).
  split; intros (Hne & a' & Ha' & HP'); (split; [done|]).
  - destruct (decide (key = w)) as [->|Hnw].
    + rewrite lookup_alter_eq, Ha. simpl. exists (g a). split; [done|]. congruence.
    + rewrite lookup_alter_ne by done. eauto.
  - destruct (decide (key = w)) as [->|Hnw].
    + rewrite lookup_alter_eq, Ha in Ha'. injection Ha' as <-. exists a. split; [done|].
      congruence.
    + rewrite lookup_alter_ne in Ha' by done. eauto.
Qed.

Lemma account_alter_join exempt w g m P Q a :
  Some w <> exempt -> m !! w = Some a -> P (g a) = true ->
  account exempt m P Q ->
  account exempt (alter g w m) P (fun key => Q key \/ key = w).
Proof.
  intros Hw Ha HP Hacc key. rewrite (Hacc key). split.
  - intros [(Hne & a' & Ha' & HP')| ->]; (split; [done|]).
    + destruct (decide (key = w)) as [->|Hnw].
      * rewrite lookup_alter_eq, Ha. simpl. eauto.
      * rewrite lookup_alter_ne by done. eauto.
    + rewrite lookup_alter_eq, Ha. simpl. eauto.
  - intros (Hne & a' & Ha' & HP').
    destruct (decide (key = w)) as [->|Hnw]; [by right|left].
    rewrite lookup_alter_ne in Ha' by done. split; [done|by eauto].
Qed.

Lemma account_alter_leave exempt w g m P Q a :
  m !! w = Some a -> P (g a) = false ->
  account exempt m P Q ->
  account exempt (alter g w m) P (fun key => Q key /\ key <> w).
Proof.
  intros Ha HP Hacc key. rewrite (Hacc key). split.
  - intros [(Hne & a' & Ha' & HP') Hnw]. split; [done|].
    rewrite lookup_alter_ne by done. eauto.
  - intros (Hne & a' & Ha' & HP').
    destruct (decide (key = w)) as [->|Hnw].
    + rewrite lookup_alter_eq, Ha in Ha'. injection Ha' as <-. congruence.
    + rewrite lookup_alter_ne in Ha' by done. split; [|done]. split; [done|by eauto].
Qed.

End Accounts.

Section Downloaders.
Context `{URLApi}.

Lemma limiters_inv_ext x (σ σ' : State URL) :
  tasks σ' = tasks σ ->
  downloaders σ' = downloaders σ ->
  limiters_inv x σ -> limiters_inv x σ'.
Proof. unfold limiters_inv, limiter_inv. intros -> ->. done. Qed.

Lemma holds_update dest st evs (t : Task URL) :
  holds dest (update_task st evs t)
  = match st with
    | Downloading f stage => bool_decide ((call_of f stage).1.1 = dest)
    | _ => false
    end.
Proof. reflexivity. Qed.

Lemma waits_update dest st evs (t : Task URL) :
  waits dest (update_task st evs t)
  = match st with
    | Acquiring f stage => bool_decide ((call_of f stage).1.1 = dest)
    | _ => false
    end.
Proof. reflexivity. Qed.

Lemma waits_Acquiring dest (t : Task URL) :
  waits dest t = true ->
  exists f stage, task_status t = Acquiring f stage /\ (call_of f stage).1.1 = dest.
Proof.
  unfold waits. destruct (task_status t) as [|f stage| | |]; try done.
  intros Hb%bool_decide_eq_true. eauto.
Qed.

(** A job that neither holds nor waits can be exempted, and back. *)
Lemma limiters_inv_exempt (σ : State URL) key t :
  tasks σ !! key = Some t ->
  (forall dest, holds dest t = false) ->
  (forall dest, waits dest t = false) ->
  limiters_inv None σ -> limiters_inv (Some key) σ.
Proof.
  intros Ht Hh Hw (Hd & Hpres & Hretry & Hframe).
  split; [|split; [|split]]; [|by eauto|done|done].
  intros dest d Hdd.
  destruct (Hd dest d Hdd) as (hs & Hhs & Hsl & Hnn & Hnd & Hq & Hsat).
  exists hs. repeat (split; [done || by eapply account_exempt|]). done.
Qed.

Lemma limiters_inv_unexempt (σ : State URL) key t :
  tasks σ !! key = Some t ->
  (forall dest, holds dest t = false) ->
  (forall dest, waits dest t = false) ->
  limiters_inv (Some key) σ -> limiters_inv None σ.
Proof.
  intros Ht Hh Hw (Hd & Hpres & Hretry & Hframe).
  split; [|split; [|split]]; [| |done|done].
  - intros dest d Hdd.
    destruct (Hd dest d Hdd) as (hs & Hhs & Hsl & Hnn & Hnd & Hq & Hsat).
    exists hs. repeat (split; [done || by eapply account_unexempt|]). done.
  - intros key' t' dest _ Ht' Hhw. destruct (decide (key' = key)) as [->|Hne].
    + rewrite Ht in Ht'. injection Ht' as <-.
      rewrite Hh, Hw in Hhw. by destruct Hhw.
    + eapply Hpres; [|done..]. congruence.
Qed.

(** The status of an exempt job may change freely. *)
Lemma limiters_inv_set_task (σ : State URL) key st evs :
  limiters_inv (Some key) σ ->
  (forall f stage, st = Acquiring f stage \/ st = Downloading f stage -> k f = key) ->
  limiters_inv (Some key) (set_task key st evs σ).
Proof.
  intros (Hd & Hpres & Hretry & Hframe) Hst.
  assert (Hagree : forall key', key' <> key ->
            tasks (set_task key st evs σ) !! key' = tasks σ !! key').
  { intros key' Hne. simpl. by rewrite lookup_alter_ne. }
  split; [|split; [|split]]; [| |done|].
  - intros dest d Hdd.
    destruct (Hd dest d Hdd) as (hs & Hhs & Hsl & Hnn & Hnd & Hq & Hsat).
    exists hs. repeat (split; [done || by eapply account_agree|]). done.
  - intros key' t dest Hne Ht. rewrite Hagree in Ht by congruence. by eapply Hpres.
  - intros key' t f stage Ht Hs. destruct (decide (key' = key)) as [->|Hne].
    + simpl in Ht. rewrite lookup_alter_eq in Ht.
      destruct (tasks σ !! key) as [t0|]; [|done]. injection Ht as <-.
      simpl in Hs. by eapply Hst.
    + rewrite Hagree in Ht by done. by eapply Hframe.
Qed.

(** A new Downloader has all its slots and nobody in its queue. *)
Lemma limiters_inv_new x (σ : State URL) h :
  limiters_inv x σ ->
  downloaders σ !! h = None ->
  limiters_inv x
    {| urlPathMap := urlPathMap σ;
       downloaders := <[h := Semaphore.new 128]> (downloaders σ);
       done := done σ;
       tasks := tasks σ |}.
Proof.
  intros (Hd & Hpres & Hretry & Hframe) Hnone.
  split; [|split; [|split]]; simpl; [| | |done].
  - intros dest d. rewrite lookup_insert. case_decide as Hh; [subst dest|by apply Hd].
    intros [= <-]. exists ∅. simpl.
    split; [|split; [done|split; [done|split; [constructor|split; [|done]]]]].
    + intros key. split; [by intros ?%not_elem_of_empty|].
      intros (Hne & t & Ht & Hholds).
      destruct (Hpres key t h Hne Ht) as [d Hd']; [by left|congruence].
    + intros key. split; [by intros ?%elem_of_nil|]. intros (Hne & t & Ht & Hwaits).
      destruct (Hpres key t h Hne Ht) as [d Hd']; [by right|congruence].
  - intros key t dest Hne Ht Hhw. rewrite lookup_insert. case_decide; [done|].
    by eapply Hpres.
  - rewrite lookup_insert. by case_decide.
Qed.

Lemma limiters_inv_throw (σ : State URL) key t :
  limiters_inv (Some key) σ ->
  tasks σ !! key = Some t ->
  limiters_inv None (set_task key Thrown [] σ).
Proof.
  intros Hinv Ht.
  eapply (limiters_inv_unexempt _ key);
    [| | |by apply limiters_inv_set_task; [|intros ? ? [|]]].
  - simpl. by rewrite lookup_alter_eq, Ht.
  - done.
  - done.
Qed.

Lemma limiters_inv_finish (σ : State URL) key t :
  limiters_inv (Some key) σ ->
  tasks σ !! key = Some t ->
  limiters_inv None (finish_job key σ).
Proof.
  intros Hinv Ht. unfold finish_job.
  eapply (limiters_inv_unexempt _ key).
  - simpl. by rewrite lookup_alter_eq, Ht.
  - done.
  - done.
  - apply limiters_inv_set_task; [|by intros ? ? [|]].
    eapply limiters_inv_ext; [| |exact Hinv]; done.
Qed.

(** [download] up to its first suspension, by a job that was exempt: the
    job joins the holders of the Downloader, or its queue. *)
Lemma limiters_inv_enter (σ : State URL) key f stage t :
  limiters_inv (Some key) σ ->
  tasks σ !! key = Some t ->
  k f = key ->
  limiters_inv None (enter_download key f stage σ).
Proof.
  intros Hinv Ht Hk. unfold enter_download.
  destruct (call_of f stage) as [[dest target] strict] eqn:Hcall.
  assert (Hdest : (call_of f stage).1.1 = dest) by (by rewrite Hcall).
  destruct (downloaders σ !! dest) as [d|] eqn:Hdd; [|by eapply limiters_inv_throw].
  destruct Hinv as (Hd & Hpres & Hretry & Hframe).
  destruct (Hd dest d Hdd) as (hs & Hhs & Hsl & Hnn & Hnd & Hq & Hsat).
  assert (Hkey_hs : key ∉ hs) by (intros [? _]%Hhs; done).
  assert (Hkey_q : key ∉ downloadQueue d) by (intros [? _]%Hq; done).
  (* the job after the call, granted a slot or not *)
  pose (st := fun granted : bool =>
                if granted then Downloading f stage else Acquiring f stage).
  pose (t' := fun granted => update_task (st granted) [Download dest target strict] t).
  pose (ts := fun granted =>
                alter (update_task (st granted) [Download dest target strict]) key
                  (tasks σ)).
  assert (Ht' : forall granted, ts granted !! key = Some (t' granted))
    by (intros granted; unfold ts; by rewrite lookup_alter_eq, Ht).
  assert (Hagree : forall granted key', key' <> key ->
            ts granted !! key' = tasks σ !! key')
    by (intros granted key' Hne; unfold ts; by rewrite lookup_alter_ne).
  assert (Hholds : forall granted dest',
            holds dest' (t' granted) = granted && bool_decide (dest = dest')).
  { intros granted dest'. unfold t', st. rewrite holds_update.
    destruct granted; [by rewrite Hdest|done]. }
  assert (Hwaits : forall granted dest',
            waits dest' (t' granted) = negb granted && bool_decide (dest = dest')).
  { intros granted dest'. unfold t', st. rewrite waits_update.
    destruct granted; [done|by rewrite Hdest]. }
  assert (Hothers : forall granted dnew,
            limiters_inv None
              {| urlPathMap := urlPathMap σ;
                 downloaders := <[dest := dnew]> (downloaders σ);
                 done := done σ;
                 tasks := ts granted |}
            <-> limiter_inv None
                  {| urlPathMap := urlPathMap σ;
                     downloaders := <[dest := dnew]> (downloaders σ);
                     done := done σ;
                     tasks := ts granted |} dest dnew).
  { intros granted dnew. split; [intros [Hd' _]; apply Hd'; simpl; by rewrite lookup_insert_eq|].
    intros Hdnew. split; [|split; [|split]]; simpl.
    - intros dest' d'. rewrite lookup_insert. case_decide as Hdest'.
      { subst dest'. by intros [= <-]. }
      intros Hdd'.
      destruct (Hd dest' d' Hdd') as (hs' & Hhs' & Hsl' & Hnn' & Hnd' & Hq' & Hsat').
      exists hs'. simpl.
      split; [|split; [done|split; [done|split; [done|split; [|done]]]]];
        (eapply account_unexempt; [apply Ht'| |by (eapply account_agree; [apply Hagree|])]).
      + rewrite Hholds, bool_decide_eq_false_2 by done. by destruct granted.
      + rewrite Hwaits, bool_decide_eq_false_2 by done. by destruct granted.
    - intros key' t'' dest' _ Ht'' Hhw. rewrite lookup_insert.
      case_decide as Hdd'; [done|].
      destruct (decide (key' = key)) as [->|Hne].
      + rewrite Ht' in Ht''. injection Ht'' as <-.
        rewrite Hholds, Hwaits, bool_decide_eq_false_2 in Hhw by done.
        destruct granted, Hhw; done.
      + rewrite Hagree in Ht'' by done. eapply Hpres; [|done..]. congruence.
    - rewrite lookup_insert. by case_decide.
    - intros key' t'' f' stage' Ht'' Hs. destruct (decide (key' = key)) as [->|Hne].
      + rewrite Ht' in Ht''. injection Ht'' as <-. unfold t', st in Hs. simpl in Hs.
        destruct granted, Hs as [Hs|Hs]; try done; by injection Hs as <- <-.
      + rewrite Hagree in Ht'' by done. by eapply Hframe. }
  unfold Semaphore.getDownloadSempahore.
  destruct (Z.ltb_spec 0 (avalibleDeliverySlots d)) as [Hfree|Hfull].
  - (* a slot is free: the job holds it *)
    apply (Hothers true). exists (hs ∪ {[key]}). simpl.
    split; [|split; [|split; [lia|split; [done|split]]]].
    + eapply account_ext; [|eapply account_join; [apply (Ht' true)| |by (eapply account_agree; [apply Hagree|])]].
      * intros key'. by rewrite elem_of_union, elem_of_singleton.
      * rewrite Hholds. by rewrite bool_decide_eq_true_2.
    + rewrite size_union, size_singleton by (by apply disjoint_singleton_r). lia.
    + eapply account_unexempt; [apply (Ht' true)|by rewrite Hwaits|by (eapply account_agree; [apply Hagree|])].
    + intros Hne. specialize (Hsat Hne). lia.
  - (* no slot is free: the job queues *)
    apply (Hothers false). exists hs. simpl.
    split; [|split; [done|split; [done|split; [|split]]]].
    + eapply account_unexempt; [apply (Ht' false)|by rewrite Hholds|by (eapply account_agree; [apply Hagree|])].
    + apply NoDup_app. split; [done|]. split; [|apply NoDup_singleton].
      by intros x Hx ->%list_elem_of_singleton.
    + eapply account_ext; [|eapply account_join; [apply (Ht' false)| |by (eapply account_agree; [apply Hagree|])]].
      * intros key'. by rewrite elem_of_app, list_elem_of_singleton.
      * rewrite Hwaits. by rewrite bool_decide_eq_true_2.
    + intros _. lia.
Qed.

(** The end of a download: the slot is released, possibly to the head of
    the queue; the job that releases is exempt until its next step. *)
Lemma limiters_inv_release (σ : State URL) key t f stage d :
  limiters_inv None σ ->
  tasks σ !! key = Some t ->
  task_status t = Downloading f stage ->
  downloaders σ !! (call_of f stage).1.1 = Some d ->
  limiters_inv (Some key)
    (wake (Semaphore.releaseDownloadSemaphore d).2
       {| urlPathMap := urlPathMap σ;
          downloaders := <[(call_of f stage).1.1 :=
                             (Semaphore.releaseDownloadSemaphore d).1]> (downloaders σ);
          done := done σ;
          tasks := tasks σ |}).
Proof.
  intros (Hd & Hpres & Hretry & Hframe) Ht Hst Hdd.
  set (dest := (call_of f stage).1.1) in *.
  assert (Hholds : holds dest t = true).
  { unfold holds. rewrite Hst. by apply bool_decide_eq_true. }
  assert (Hholds' : forall dest', dest' <> dest -> holds dest' t = false).
  { intros dest' Hne. unfold holds. rewrite Hst. by apply bool_decide_eq_false. }
  assert (Hwaits : forall dest', waits dest' t = false).
  { intros dest'. unfold waits. by rewrite Hst. }
  destruct (Hd dest d Hdd) as (hs & Hhs & Hsl & Hnn & Hnd & Hq & Hsat).
  assert (Hkey : key ∈ hs) by (apply Hhs; eauto).
  assert (Hsize : (size (hs ∖ {[key]}) + 1 = size hs)%nat).
  { rewrite size_difference by (by apply singleton_subseteq_l).
    rewrite size_singleton.
    assert (size hs <> 0)%nat; [|lia].
    intros Hz%size_empty_iff. by apply (not_elem_of_empty (C := gset string) key), Hz. }
  unfold Semaphore.releaseDownloadSemaphore.
  destruct (downloadQueue d) as [|w rest] eqn:Hqueue; simpl.
  - (* nobody waits *)
    split; [|split; [|split]]; simpl; [| | |done].
    + intros dest' d'. rewrite lookup_insert. case_decide as Hdest'.
      * subst dest'. intros [= <-]. exists (hs ∖ {[key]}). simpl.
        split; [|split; [lia|split; [lia|split; [constructor|split; [|done]]]]].
        -- eapply account_ext; [|by eapply account_leave].
           intros key'. by rewrite elem_of_difference, elem_of_singleton.
        -- by eapply account_exempt.
      * intros Hdd'. destruct (Hd dest' d' Hdd')
          as (hs' & Hhs' & Hsl' & Hnn' & Hnd' & Hq' & Hsat').
        exists hs'. simpl.
        split; [|split; [done|split; [done|split; [done|split; [|done]]]]];
          eapply account_exempt; eauto.
    + intros key' t' dest' Hne Ht' Hhw. rewrite lookup_insert. case_decide; [done|].
      by eapply Hpres.
    + rewrite lookup_insert. by case_decide.
  - (* the head of the queue takes the slot *)
    destruct (proj1 (Hq w) ltac:(by left)) as (_ & tw & Htw & Hww).
    destruct (waits_Acquiring _ _ Hww) as (fw & sw & Hstw & Hdw).
    assert (Hwkey : Some w <> Some key) by (intros [= ->]; congruence).
    assert (Hw_hs : w ∉ hs).
    { intros (_ & t' & Ht' & Hh')%Hhs. rewrite Htw in Ht'. injection Ht' as <-.
      unfold holds in Hh'. by rewrite Hstw in Hh'. }
    assert (Hw_rest : w ∉ rest) by (by inversion Hnd).
    set (wk := fun t0 : Task URL =>
                 match task_status t0 with
                 | Acquiring f0 stage0 =>
                     {| task_url := task_url t0;
                        task_status := Downloading f0 stage0;
                        task_history := task_history t0 |}
                 | _ => t0
                 end).
    assert (Hwk : wk tw = {| task_url := task_url tw;
                             task_status := Downloading fw sw;
                             task_history := task_history tw |})
      by (unfold wk; by rewrite Hstw).
    assert (Hwkh : forall dest', holds dest' (wk tw) = bool_decide (dest = dest')).
    { intros dest'. rewrite Hwk. unfold holds. simpl. by rewrite Hdw. }
    assert (Hwkw : forall dest', waits dest' (wk tw) = false).
    { intros dest'. by rewrite Hwk. }
    assert (Htwh : forall dest', holds dest' tw = false).
    { intros dest'. unfold holds. by rewrite Hstw. }
    assert (Htww : forall dest', dest' <> dest -> waits dest' tw = false).
    { intros dest' Hne. unfold waits. rewrite Hstw. apply bool_decide_eq_false.
      congruence. }
    split; [|split; [|split]]; simpl.
    + intros dest' d'. rewrite lookup_insert. case_decide as Hdest'.
      * subst dest'. intros [= <-]. exists (hs ∖ {[key]} ∪ {[w]}). simpl.
        split; [|split; [|split; [lia|split; [by inversion Hnd|split]]]].
        -- eapply account_ext;
             [|eapply account_alter_join;
                 [done|done| |by eapply account_leave]].
           ++ intros key'.
              by rewrite elem_of_union, elem_of_difference, !elem_of_singleton.
           ++ rewrite Hwkh. by apply bool_decide_eq_true.
        -- rewrite size_union, size_singleton
             by (apply disjoint_singleton_r; by intros [? _]%elem_of_difference).
           lia.
        -- eapply account_ext;
             [|eapply account_alter_leave; [done| |by eapply account_exempt]].
           ++ intros key'. cbv beta. rewrite elem_of_cons. split.
              ** intros [[->|Hin] Hne]; done.
              ** intros Hin. split; [by right|]. by intros ->.
           ++ apply Hwkw.
        -- intros _. rewrite Hsat; [lia|done].
      * intros Hdd'. destruct (Hd dest' d' Hdd')
          as (hs' & Hhs' & Hsl' & Hnn' & Hnd' & Hq' & Hsat').
        exists hs'. simpl.
        split; [|split; [done|split; [done|split; [done|split; [|done]]]]];
          (eapply account_alter_same; [done| |eapply account_exempt; eauto]).
        -- rewrite Hwkh, Htwh. by apply bool_decide_eq_false.
        -- by rewrite Hwkw, Htww.
    + intros key' t' dest' Hne Ht' Hhw. rewrite lookup_insert. case_decide; [done|].
      destruct (decide (key' = w)) as [->|Hnw].
      * rewrite lookup_alter_eq, Htw in Ht'. injection Ht' as <-.
        rewrite Hwkh, Hwkw, bool_decide_eq_false_2 in Hhw by done. by destruct Hhw.
      * rewrite lookup_alter_ne in Ht' by done. by eapply Hpres.
    + rewrite lookup_insert. by case_decide.
    + intros key' t' f' stage' Ht' Hs. destruct (decide (key' = w)) as [->|Hnw].
      * rewrite lookup_alter_eq, Htw in Ht'. injection Ht' as <-.
        fold wk in Hs. rewrite Hwk in Hs. simpl in Hs.
        destruct Hs as [Hs|Hs]; [done|]. injection Hs as <- <-.
        eapply Hframe; [done|]. by left.
      * rewrite lookup_alter_ne in Ht' by done. by eapply Hframe.
Qed.

Lemma limiters_inv_job_start (σ : State URL) key t :
  limiters_inv None σ ->
  tasks σ !! key = Some t ->
  task_status t = Pending ->
  limiters_inv None (job_start key (task_url t) σ).
Proof.
  intros Hinv Ht Hst.
  assert (Hex : limiters_inv (Some key) σ).
  { eapply limiters_inv_exempt; [done| | |done]; intros dest.
    - unfold holds. by rewrite Hst.
    - unfold waits. by rewrite Hst. }
  unfold job_start. case_decide; [by eapply limiters_inv_finish|].
  destruct (newURL key) as [kUrl|]; [|by eapply limiters_inv_throw].
  destruct (downloaders σ !! hostname (default kUrl (newURL (task_url t)))) eqn:Hh.
  - by eapply limiters_inv_enter.
  - destruct (decide (hostname (default kUrl (newURL (task_url t))) ∈ Object_prototype));
      [by eapply limiters_inv_throw|].
    eapply limiters_inv_enter; [|done..]. by apply limiters_inv_new.
Qed.

Lemma limiters_inv_download_settles (σ σ' : State URL) key t f stage env :
  limiters_inv None σ ->
  tasks σ !! key = Some t ->
  task_status t = Downloading f stage ->
  download_settles f stage env σ = Some σ' ->
  limiters_inv None σ'.
Proof.
  intros Hinv Ht Hst Hsettle.
  assert (Hk : k f = key).
  { destruct Hinv as (_ & _ & _ & Hframe). eapply Hframe; [done|by right]. }
  unfold download_settles in Hsettle.
  destruct (call_of f stage) as [[dest target] strict] eqn:Hcall.
  destruct (doDownload env target strict 0 1000) as [result trace].
  destruct (downloaders σ !! dest) as [d|] eqn:Hdd; [|done]. simpl in Hsettle.
  pose proof (limiters_inv_release σ key t f stage d Hinv Ht Hst) as Hrel.
  rewrite Hcall in Hrel. simpl in Hrel. specialize (Hrel Hdd).
  destruct (Semaphore.releaseDownloadSemaphore d) as [d' woken].
  simpl in Hrel. injection Hsettle as <-.
  set (σ1 := wake woken _) in *.
  assert (Ht1 : tasks σ1 !! key = Some t) by (by eapply wake_lookup_downloading).
  clearbody σ1. rewrite Hk.
  assert (Hinv2 : limiters_inv (Some key)
                    (set_task key (Downloading f stage) [Outcome result trace] σ1)).
  { apply limiters_inv_set_task; [done|]. intros f' stage' [|[= <- <-]]; done. }
  assert (Ht2 : tasks (set_task key (Downloading f stage) [Outcome result trace] σ1)
                !! key
                = Some (update_task (Downloading f stage) [Outcome result trace] t)).
  { simpl. by rewrite lookup_alter_eq, Ht1. }
  set (σ2 := set_task key _ _ σ1) in *. clearbody σ2.
  unfold job_resume. rewrite Hk.
  set (σ3 := {| urlPathMap := <[key := result]> (urlPathMap σ2);
                downloaders := downloaders σ2;
                done := done σ2;
                tasks := tasks σ2 |}).
  assert (Hinv3 : limiters_inv (Some key) σ3)
    by (eapply limiters_inv_ext; [| |exact Hinv2]; done).
  assert (Ht3 : tasks σ3 !! key
                = Some (update_task (Downloading f stage) [Outcome result trace] t))
    by done.
  clearbody σ3.
  destruct stage; try (by eapply limiters_inv_finish).
  destruct (negb _ && negb _); [by eapply limiters_inv_enter|by eapply limiters_inv_finish].
Qed.

Lemma limiters_inv_step l (σ σ' : State URL) :
  limiters_inv None σ -> step l σ = Some σ' -> limiters_inv None σ'.
Proof.
  intros Hinv Hstep. destruct l as [key|key env]; simpl in Hstep;
    destruct (tasks σ !! key) as [t|] eqn:Ht; simpl in Hstep; try done;
    destruct (task_status t) eqn:Hst; try done.
  - injection Hstep as <-. by apply limiters_inv_job_start.
  - by eapply limiters_inv_download_settles.
Qed.

Lemma limiters_inv_run ls :
  forall σ σ' : State URL,
    limiters_inv None σ -> run ls σ = Some σ' -> limiters_inv None σ'.
Proof.
  induction ls as [|l ls IH]; intros σ σ' Hinv Hrun; simpl in Hrun.
  - by injection Hrun as <-.
  - destruct (step l σ) as [σ1|] eqn:Hstep; [|done]. simpl in Hrun.
    eapply IH; [|done]. by eapply limiters_inv_step.
Qed.

Lemma limiters_inv_setup imgs checkpoint (σ0 : State URL) :
  setup imgs checkpoint = Some σ0 -> limiters_inv None σ0.
Proof.
  unfold setup. destruct (build_imgMap (urlArray_of imgs) ∅) as [imgMap|]; [|done].
  simpl. intros [= <-].
  assert (Hidle : forall key (t : Task URL) dest,
            ((fun fUrl => {| task_url := fUrl; task_status := Pending;
                             task_history := [] |}) <$> imgMap) !! key = Some t ->
            holds dest t = false /\ waits dest t = false).
  { intros key t dest. rewrite lookup_fmap.
    destruct (imgMap !! key); simpl; [|done]. by intros [= <-]. }
  split; [|split; [|split]]; simpl.
  - intros dest d [<- <-]%lookup_singleton_Some. exists ∅. simpl.
    split; [|split; [done|split; [done|split; [constructor|split; [|done]]]]].
    + intros key. split; [set_solver|]. intros (_ & t & Ht & Hh).
      destruct (Hidle _ _ "retry"%string Ht) as [Hh' _]. congruence.
    + intros key. split; [by intros ?%elem_of_nil|]. intros (_ & t & Ht & Hw).
      destruct (Hidle _ _ "retry"%string Ht) as [_ Hw']. congruence.
  - intros key t dest _ Ht Hhw. destruct (Hidle _ _ dest Ht) as [Hh Hw].
    rewrite Hh, Hw in Hhw. by destruct Hhw.
  - by rewrite lookup_singleton_eq.
  - intros key t f stage Ht Hs. rewrite lookup_fmap in Ht.
    destruct (imgMap !! key); simpl in Ht; [|done]. injection Ht as <-.
    simpl in Hs. by destruct Hs.
Qed.

(** In every state of every schedule, the free slots of a Downloader and
    the downloads in flight on it add up to 128. *)
Lemma in_flight_at_most_128 imgs checkpoint (σ0 σ : State URL) ls dest d :
  setup imgs checkpoint = Some σ0 ->
  run ls σ0 = Some σ ->
  downloaders σ !! dest = Some d ->
  avalibleDeliverySlots d + Z.of_nat (in_flight_at σ dest) = 128
  /\ (in_flight_at σ dest <= 128)%nat.
Proof.
  intros Hsetup Hrun Hdd.
  pose proof (limiters_inv_run ls _ _ (limiters_inv_setup _ _ _ Hsetup) Hrun)
    as (Hd & _).
  destruct (Hd dest d Hdd) as (hs & Hhs & Hsl & Hnn & _).
  assert (Hsize : in_flight_at σ dest = size hs).
  { unfold in_flight_at. rewrite <- size_dom. f_equal. apply set_eq. intros key.
    rewrite elem_of_dom. unfold is_Some.
    setoid_rewrite map_lookup_filter_Some. simpl. split.
    - intros [t [Ht Hh]]. apply Hhs. split; [done|by eauto].
    - intros (_ & t & Ht & Hh)%Hhs. eauto. }
  rewrite Hsize. lia.
Qed.

End Downloaders.

(** C9.  Every [Downloader] of the program is built with 128 slots
    ([new Downloader(128)]), and the count is only ever changed by
    [getDownloadSempahore] and [releaseDownloadSemaphore].

    For one Downloader under any number of concurrent calls of [download],
    in every state its callers can bring it to:
    - the free slots and the downloads in flight add up to 128, so at most
      128 downloads are in flight;
    - a call that finds a slot free proceeds at once, and a call that finds
      none is suspended at the end of the queue;
    - when a download settles while calls are queued, its slot goes to the
      head of the queue, which is the call that has waited longest: every
      other queued call was made later.  The number in flight stays 128.

    For the main routine, in every state of every schedule of its jobs and
    for every Downloader it has created: the free slots and the jobs whose
    download is in flight on that Downloader add up to 128. *)
Theorem C9_admission_limiter `{URLApi} :
  (forall ls σ,
      Callers.run ls (Callers.init 128) = Some σ ->
      let d := Callers.this σ in
      let in_flight := Callers.in_flight σ in
      (avalibleDeliverySlots d + Z.of_nat (length in_flight) = 128
       /\ (length in_flight <= 128)%nat)
      /\ (forall σ', Callers.step Callers.Call σ = Some σ' ->
          ((length in_flight < 128)%nat ->
           Callers.in_flight σ' = in_flight ++ [Callers.calls σ]
           /\ downloadQueue (Callers.this σ') = downloadQueue d)
          /\ (length in_flight = 128%nat ->
              Callers.in_flight σ' = in_flight
              /\ downloadQueue (Callers.this σ')
                 = downloadQueue d ++ [Callers.calls σ]))
      /\ (forall c σ' w rest,
          Callers.step (Callers.Settle c) σ = Some σ' ->
          downloadQueue d = w :: rest ->
          Callers.in_flight σ'
          = List.filter (fun x => negb (x =? c)%nat) in_flight ++ [w]
          /\ downloadQueue (Callers.this σ') = rest
          /\ Forall (fun w' => (w < w')%nat) rest
          /\ length (Callers.in_flight σ') = 128%nat))
  /\ (forall imgs checkpoint (σ0 σ : State URL) ls dest d,
      setup imgs checkpoint = Some σ0 ->
      run ls σ0 = Some σ ->
      downloaders σ !! dest = Some d ->
      avalibleDeliverySlots d + Z.of_nat (in_flight_at σ dest) = 128
      /\ (in_flight_at σ dest <= 128)%nat).
Proof.
  split; [|intros; by eapply in_flight_at_most_128].
  intros ls σ Hrun. cbv zeta.
  pose proof (limiter_run 128 ls _ _ (limiter_init 128 ltac:(lia)) Hrun)
    as [Hs Hn Hq Hso Hqo Hfo Hnd Hdj].
  split; [split; lia|]. split.
  - intros σ' Hstep. simpl in Hstep.
    unfold Semaphore.getDownloadSempahore in Hstep.
    destruct (Z.ltb_spec 0 (avalibleDeliverySlots (Callers.this σ)));
      inversion Hstep; subst σ'; simpl; split; intros Hlen; try lia; done.
  - intros c σ' w rest Hstep Hqueue. simpl in Hstep.
    destruct (decide (c ∈ Callers.in_flight σ)) as [Hc|]; [|discriminate].
    pose proof (length_filter_remove c _ Hnd Hc) as Hlen.
    unfold Semaphore.releaseDownloadSemaphore in Hstep.
    rewrite Hqueue in Hstep. inversion Hstep; subst σ'; simpl.
    split; [done|]. split; [done|]. split.
    + rewrite Hqueue in Hso. by inversion Hso.
    + rewrite length_app. simpl.
      assert (avalibleDeliverySlots (Callers.this σ) = 0)
        by (apply Hq; by rewrite Hqueue).
      lia.
Qed.

Lemma C9_admission_limiter_witness :
  Callers.run Ex.rush (Callers.init 128) = Some Ex.saturated
  /\ (avalibleDeliverySlots (Callers.this Ex.saturated)
      + Z.of_nat (length (Callers.in_flight Ex.saturated)) = 128
      /\ (length (Callers.in_flight Ex.saturated) <= 128)%nat)
  /\ setup Ex.catalogue ∅ = Some Ex.fresh_start
  /\ run Ex.busy_schedule Ex.fresh_start = Some Ex.busy_end
  /\ downloaders Ex.busy_end !! "cdn.example.com" = Some Ex.two_taken
  /\ avalibleDeliverySlots Ex.two_taken
     + Z.of_nat (in_flight_at Ex.busy_end "cdn.example.com") = 128
  /\ (in_flight_at Ex.busy_end "cdn.example.com" <= 128)%nat.
Proof.
  assert (Hrun : Callers.run Ex.rush (Callers.init 128) = Some Ex.saturated)
    by (vm_compute; reflexivity).
  assert (H0 : setup Ex.catalogue ∅ = Some Ex.fresh_start)
    by (vm_compute; reflexivity).
  assert (H1 : run Ex.busy_schedule Ex.fresh_start = Some Ex.busy_end)
    by (vm_compute; reflexivity).
  assert (H2 : downloaders Ex.busy_end !! "cdn.example.com" = Some Ex.two_taken)
    by (vm_compute; reflexivity).
  split; [exact Hrun|].
  split; [exact (proj1 (proj1 C9_admission_limiter Ex.rush Ex.saturated Hrun))|].
  repeat (split; [assumption|]).
  exact (proj2 C9_admission_limiter _ _ _ _ _ _ _ H0 H1 H2).
Defined.

(** The example of the specification, with two slots: of five concurrent
    calls two proceed and three queue; each settling download hands its
    slot to the next queued call in order of arrival. *)
Example two_slots_five_callers :
  (Callers.in_flight <$> Callers.run (repeat Callers.Call 5) (Callers.init 2),
   downloadQueue <$> (Callers.this <$> Callers.run (repeat Callers.Call 5) (Callers.init 2)))
  = (Some [0; 1], Some [2; 3; 4])%nat
  /\ Callers.in_flight
       <$> Callers.run (repeat Callers.Call 5
                        ++ [Callers.Settle 1; Callers.Settle 0; Callers.Settle 2]%nat)
             (Callers.init 2)
     = Some [3; 4]%nat.
Proof. split; vm_compute; reflexivity. Qed.

(* ===================================================================== *)
(** * More properties of the code *)
(* ===================================================================== *)

(* --------------------------------------------------------------------- *)
(** ** doDownload: where a call ends *)
(* --------------------------------------------------------------------- *)

Section DoDownloadMore.
Context {URL : Type}.

Lemma first_decisive_exists (p : nat -> bool) (N : nat) :
  exists n, (n <= N)%nat
    /\ (forall i, (i < n)%nat -> p i = false)
    /\ (p n = true \/ n = N).
Proof.
  induction N as [|N IH].
  - exists 0%nat. split; [lia|]. split; [lia|by right].
  - destruct IH as (n & Hn & Hbefore & [Hat| ->]).
    + exists n. split; [lia|]. split; [done|by left].
    + destruct (p N) eqn:HN.
      * exists N. split; [lia|]. split; [done|by left].
      * exists (S N). split; [lia|]. split; [|by right].
        intros i Hi. destruct (decide (i = N)) as [->|]; [done|].
        apply Hbefore. lia.
Qed.

Lemma doDownload_decisive env (url : URL) strict retries delay :
  decisive (fst (try_block url strict (env retries))) = true
  \/ (MaxRetries <= retries)%nat ->
  doDownload env url strict retries delay
  = (outcome (fst (try_block url strict (env retries))),
     snd (try_block url strict (env retries))).
Proof.
  intros Hend. rewrite doDownload_eq.
  destruct (try_block url strict (env retries)) as [[value|message] evs];
    simpl in *; [done|].
  destruct (switch_returns message); [done|].
  destruct (JS.includes message "getaddrinfo ENOTFOUND"); [done|].
  destruct Hend as [Hend|Hend]; [done|].
  apply Nat.ltb_ge in Hend. by rewrite Hend.
Qed.

Lemma doDownload_retry env (url : URL) strict retries delay :
  decisive (fst (try_block url strict (env retries))) = false ->
  (retries < MaxRetries)%nat ->
  doDownload env url strict retries delay
  = (fst (doDownload env url strict (retries + 1) (delay + 1000)),
     Request url strict :: Sleep delay
       :: snd (doDownload env url strict (retries + 1) (delay + 1000))).
Proof.
  intros Hno Hlt. rewrite doDownload_eq.
  destruct (try_block_trace url strict (env retries)) as (_ & _ & Hevs).
  destruct (try_block url strict (env retries)) as [[value|message] evs];
    simpl in *; [done|].
  rewrite (Hevs _ eq_refl).
  apply orb_false_iff in Hno as [-> ->].
  apply Nat.ltb_lt in Hlt. rewrite Hlt.
  by destruct (doDownload env url strict (retries + 1) (delay + 1000)).
Qed.

(** The call started with retry count [retries] ends with its [n]-th
    further attempt, the first that is decisive or the last allowed. *)
Lemma doDownload_ends_at env (url : URL) strict n :
  forall retries delay,
    (retries + n <= MaxRetries)%nat ->
    (forall i, (i < n)%nat ->
       decisive (fst (try_block url strict (env (retries + i)%nat))) = false) ->
    decisive (fst (try_block url strict (env (retries + n)%nat))) = true
    \/ (retries + n)%nat = MaxRetries ->
    doDownload env url strict retries delay
    = (outcome (fst (try_block url strict (env (retries + n)%nat))),
       flat_map (fun i => [Request url strict; Sleep (delay + 1000 * Z.of_nat i)])
         (seq 0 n)
       ++ snd (try_block url strict (env (retries + n)%nat))).
Proof.
  induction n as [|n IH]; intros retries delay Hle Hbefore Hat.
  - rewrite Nat.add_0_r in *. simpl. apply doDownload_decisive.
    destruct Hat as [Hat|Hat]; [by left|right; lia].
  - rewrite doDownload_retry; [|by rewrite <- (Nat.add_0_r retries), Hbefore by lia|lia].
    rewrite (IH (retries + 1)%nat (delay + 1000)).
    + replace (retries + 1 + n)%nat with (retries + S n)%nat by lia.
      simpl. f_equal. f_equal. rewrite Z.add_0_r. f_equal. f_equal.
      rewrite <- seq_shift. generalize (seq 0 n). intros l.
      induction l as [|i l IHl]; [done|]. simpl. rewrite IHl.
      by replace (delay + 1000 * Z.of_nat (S i))
        with (delay + 1000 + 1000 * Z.of_nat i) by lia.
    + lia.
    + intros i Hi. replace (retries + 1 + i)%nat with (retries + S i)%nat by lia.
      apply Hbefore. lia.
    + replace (retries + 1 + n)%nat with (retries + S n)%nat by lia. done.
Qed.

(** X1.  [doDownload], as [download] calls it, ends with the first attempt that
    is decisive, or with the sixth: its outcome is what that attempt
    returns or the message of what it throws, and before it every attempt
    is one GET followed by a sleep, one second longer each time.  There is
    always such an attempt. *)
Theorem doDownload_first_decisive env (url : URL) strict :
  (exists n, (n <= MaxRetries)%nat
     /\ (forall i, (i < n)%nat ->
           decisive (fst (try_block url strict (env i))) = false)
     /\ (decisive (fst (try_block url strict (env n))) = true \/ n = MaxRetries))
  /\ (forall n,
        (n <= MaxRetries)%nat ->
        (forall i, (i < n)%nat ->
           decisive (fst (try_block url strict (env i))) = false) ->
        decisive (fst (try_block url strict (env n))) = true \/ n = MaxRetries ->
        doDownload env url strict 0 1000
        = (outcome (fst (try_block url strict (env n))),
           flat_map (fun i => [Request url strict; Sleep (1000 * (Z.of_nat i + 1))])
             (seq 0 n)
           ++ snd (try_block url strict (env n)))).
Proof.
  split.
  - apply (first_decisive_exists
             (fun i => decisive (fst (try_block url strict (env i))))).
  - intros n Hle Hbefore Hat.
    rewrite (doDownload_ends_at env url strict n 0%nat 1000); try done.
    simpl. f_equal. f_equal. apply flat_map_ext. intros i. repeat f_equal. lia.
Qed.

(** X2.  A [writeFile] that throws is caught like a failed GET: unless its
    message is one the [catch] block returns at once, the whole attempt --
    the GET included -- is made again after the delay while retries remain,
    and its message is the outcome once none remains.  No file has been
    written by the attempt. *)
Theorem writeFile_failure_is_retried env (url : URL) strict retries delay r message :
  Got.got strict (exchange (env retries)) = inl r ->
  match Got.content_type r with
  | Some ct => invalid_content_type ct
  | None => false
  end = false ->
  writeFile_error (env retries) = Some message ->
  switch_returns message = false ->
  JS.includes message "getaddrinfo ENOTFOUND" = false ->
  try_block url strict (env retries) = (Throw message, [Request url strict])
  /\ ((retries < MaxRetries)%nat ->
      doDownload env url strict retries delay
      = (fst (doDownload env url strict (retries + 1) (delay + 1000)),
         Request url strict :: Sleep delay
           :: snd (doDownload env url strict (retries + 1) (delay + 1000))))
  /\ ((MaxRetries <= retries)%nat ->
      doDownload env url strict retries delay = (message, [Request url strict])).
Proof.
  intros Hgot Hct Hwrite Hswitch Hdns.
  assert (Htry : try_block url strict (env retries)
                 = (Throw message, [Request url strict])).
  { unfold try_block. by rewrite Hgot, Hct, Hwrite. }
  split; [exact Htry|]. split.
  - intros Hlt. apply doDownload_retry; [|done].
    rewrite Htry. simpl. by rewrite Hswitch, Hdns.
  - intros Hge. rewrite doDownload_decisive by (by right). by rewrite Htry.
Qed.

End DoDownloadMore.

(* --------------------------------------------------------------------- *)
(** ** The name and the extension of a stored file *)
(* --------------------------------------------------------------------- *)

Lemma le_bytes_range n x b : In b (MD5.le_bytes n x) -> 0 <= b < 256.
Proof.
  unfold MD5.le_bytes. rewrite in_map_iff. intros (i & <- & _).
  change 255 with (Z.ones 8). rewrite Z.land_ones by lia.
  apply Z.mod_pos_bound. lia.
Qed.

Lemma length_le_bytes n x : List.length (MD5.le_bytes n x) = n.
Proof. unfold MD5.le_bytes. by rewrite length_map, length_seq. Qed.

Lemma digest_bytes msg :
  List.length (MD5.digest msg) = 16%nat
  /\ forall b, In b (MD5.digest msg) -> 0 <= b < 256.
Proof.
  unfold MD5.digest.
  destruct (MD5.blocks _ MD5.init _) as [a b c d]. split.
  - by rewrite !length_app, !length_le_bytes.
  - intros x Hx. repeat (apply in_app_or in Hx as [Hx|Hx]; [by eapply le_bytes_range|]).
    by eapply le_bytes_range.
Qed.

Lemma hex_digit_range n :
  0 <= n < 16 ->
  In (MD5.hex_digit n) (list_ascii_of_string "0123456789abcdef").
Proof.
  intros Hn. rewrite <- (Z2Nat.id n) by lia.
  assert (Hm : (Z.to_nat n < 16)%nat) by lia.
  generalize dependent (Z.to_nat n). clear Hn. intros m Hm.
  do 16 (destruct m as [|m]; [vm_compute; tauto|]). lia.
Qed.

Lemma hex_digits bs :
  (forall b, In b bs -> 0 <= b < 256) ->
  String.length (MD5.hex bs) = (2 * List.length bs)%nat
  /\ forall c, In c (list_ascii_of_string (MD5.hex bs)) ->
               In c (list_ascii_of_string "0123456789abcdef").
Proof.
  induction bs as [|b bs IH]; intros Hbs; [by split|].
  destruct IH as [Hlen Hchars]; [intros x Hx; apply Hbs; by right|].
  assert (Hb : 0 <= b < 256) by (apply Hbs; by left).
  split.
  - cbn [MD5.hex String.length List.length]. rewrite Hlen. lia.
  - cbn [MD5.hex list_ascii_of_string]. intros c [<-|[<-|Hc]].
    + apply hex_digit_range. rewrite Z.shiftr_div_pow2 by lia.
      change (2 ^ 4) with 16. split; [apply Z.div_pos; lia|].
      apply Z.div_lt_upper_bound; lia.
    + apply hex_digit_range. change 15 with (Z.ones 4).
      rewrite Z.land_ones by lia. apply Z.mod_pos_bound. lia.
    + by apply Hchars.
Qed.

Lemma includes_char_absent s c :
  ~ In c (list_ascii_of_string s) -> JS.includes s (String c EmptyString) = false.
Proof.
  induction s as [|d s IH]; intros Hno; [reflexivity|].
  cbn [JS.includes]. rewrite startsWith_char.
  destruct (Ascii.ascii_dec c d) as [->|_]; [exfalso; apply Hno; by left|].
  apply IH. intros Hin. apply Hno. by right.
Qed.

(** X3.  Whatever the body, the name [md5Hash] gives its file is 32 characters
    long and made of the digits [0-9a-f]: it holds no [/] and no [.]. *)
Theorem md5Hash_is_32_hex_digits buf :
  String.length (md5Hash buf) = 32%nat
  /\ (forall c, In c (list_ascii_of_string (md5Hash buf)) ->
                In c (list_ascii_of_string "0123456789abcdef"))
  /\ JS.includes (md5Hash buf) "/" = false
  /\ JS.includes (md5Hash buf) "." = false.
Proof.
  unfold md5Hash, MD5.hexdigest.
  destruct (digest_bytes (map (fun b => Z.of_N (Byte.to_N b)) buf)) as [Hlen Hbytes].
  destruct (hex_digits _ Hbytes) as [Hhex Hchars].
  split; [by rewrite Hhex, Hlen|]. split; [exact Hchars|].
  split; apply includes_char_absent; intros Hin; apply Hchars in Hin;
    vm_compute in Hin; intuition discriminate.
Qed.

Lemma startsWith_app s t : JS.startsWith s t = true -> exists b, s = t +:+ b.
Proof.
  unfold JS.startsWith. revert s. induction t as [|c t IH]; intros s Hpre.
  - by exists s.
  - destruct s as [|d s]; [discriminate Hpre|]. cbn [String.prefix] in Hpre.
    destruct (Ascii.ascii_dec c d) as [->|]; [|discriminate Hpre].
    destruct (IH s Hpre) as [b ->]. by exists b.
Qed.

Lemma indexOf_cases s del :
  (JS.includes s del = false /\ JS.indexOf s del = -1)
  \/ exists a b, s = a +:+ del +:+ b
                 /\ JS.includes s del = true
                 /\ JS.indexOf s del = Z.of_nat (String.length a).
Proof.
  induction s as [|c s IH].
  - cbn [JS.includes JS.indexOf].
    destruct (JS.startsWith EmptyString del) eqn:Hpre; [|by left].
    right. destruct (startsWith_app _ _ Hpre) as [b Hb].
    exists EmptyString, b. done.
  - cbn [JS.includes JS.indexOf].
    destruct (JS.startsWith (String c s) del) eqn:Hpre.
    + right. destruct (startsWith_app _ _ Hpre) as [b Hb].
      exists EmptyString, b. done.
    + destruct IH as [[Hinc Hidx]|(a & b & Hs & Hinc & Hidx)].
      * left. by rewrite Hinc, Hidx.
      * right. exists (String c a), b. rewrite Hinc, Hidx, Hs.
        split; [done|]. split; [done|]. cbn [String.length].
        destruct (Z.ltb_spec (Z.of_nat (String.length a)) 0); lia.
Qed.

Lemma JS_drop_length n s :
  String.length (JS.drop n s) = (String.length s - n)%nat.
Proof.
  revert s. induction n as [|n IH]; intros [|c s]; simpl; done.
Qed.

Lemma substring_to_end s n :
  JS.substring s (Z.of_nat n) (JS.length s) = JS.drop n s.
Proof.
  unfold JS.substring, JS.length.
  set (len := String.length s).
  assert (Hdrop : String.length (JS.drop n s) = (len - n)%nat)
    by apply JS_drop_length.
  destruct (le_lt_dec n len) as [Hle|Hgt].
  - replace (Z.min (Z.max 0 (Z.min (Z.of_nat n) (Z.of_nat len)))
               (Z.max 0 (Z.min (Z.of_nat len) (Z.of_nat len))))
      with (Z.of_nat n) by lia.
    replace (Z.max (Z.max 0 (Z.min (Z.of_nat n) (Z.of_nat len)))
               (Z.max 0 (Z.min (Z.of_nat len) (Z.of_nat len))))
      with (Z.of_nat len) by lia.
    rewrite Nat2Z.id.
    replace (Z.to_nat (Z.of_nat len - Z.of_nat n)) with (len - n)%nat by lia.
    rewrite <- Hdrop. apply JS_take_all.
  - replace (Z.min (Z.max 0 (Z.min (Z.of_nat n) (Z.of_nat len)))
               (Z.max 0 (Z.min (Z.of_nat len) (Z.of_nat len))))
      with (Z.of_nat len) by lia.
    replace (Z.max (Z.max 0 (Z.min (Z.of_nat n) (Z.of_nat len)))
               (Z.max 0 (Z.min (Z.of_nat len) (Z.of_nat len))))
      with (Z.of_nat len) by lia.
    rewrite Z.sub_diag. simpl.
    destruct (JS.drop n s) as [|c r] eqn:Hr; [done|].
    simpl in Hdrop. lia.
Qed.

Lemma JS_drop_add n a b :
  JS.drop (String.length a + n) (a +:+ b) = JS.drop n b.
Proof. induction a as [|c a IH]; [done|exact IH]. Qed.

(** X4.  [removeBefore] returns the string unchanged when the delimiter does
    not occur in it.  When it occurs, what is returned starts one
    character after the start of the first occurrence: the rest of the
    delimiter, when it is longer than one character, is kept. *)
Theorem removeBefore_cases s del :
  (JS.includes s del = false /\ removeBefore s del = s)
  \/ exists a b,
      s = a +:+ del +:+ b
      /\ JS.includes s del = true
      /\ JS.indexOf s del = Z.of_nat (String.length a)
      /\ removeBefore s del = JS.drop 1 (del +:+ b).
Proof.
  unfold removeBefore.
  destruct (indexOf_cases s del) as [[Hinc ->]|(a & b & Hs & Hinc & ->)].
  - left. split; [done|]. apply (substring_to_end s 0).
  - right. exists a, b. split; [done|]. split; [done|]. split; [done|].
    replace (Z.of_nat (String.length a) + 1)
      with (Z.of_nat (String.length a + 1)) by lia.
    rewrite substring_to_end. rewrite Hs at 1. apply JS_drop_add.
Qed.

(* --------------------------------------------------------------------- *)
(** ** The semaphore: order of admission *)
(* --------------------------------------------------------------------- *)

Section Fairness.
Variable capacity : Z.
Hypothesis capacity_nonneg : 0 <= capacity.

Import Callers.

Lemma in_order_step l σ σ' :
  Inv capacity σ -> in_order σ -> step l σ = Some σ' -> in_order σ'.
Proof.
  intros [Hs Hn Hq Hso Hqo Hfo Hnd Hdj] Hord Hstep x q.
  destruct l as [|c]; simpl in Hstep.
  - unfold Semaphore.getDownloadSempahore in Hstep.
    destruct (Z.ltb_spec 0 (avalibleDeliverySlots (this σ))) as [Hfree|Hfull];
      inversion Hstep; subst σ'; clear Hstep; simpl.
    + intros _ Hqueue.
      destruct (downloadQueue (this σ)) as [|w rest] eqn:Hrest;
        [by apply elem_of_nil in Hqueue|].
      rewrite Hq in Hfree by done. lia.
    + intros Hx [Hqueue|Hqueue%list_elem_of_singleton]%elem_of_app.
      * by apply Hord.
      * subst q. rewrite Forall_forall in Hfo. by apply Hfo.
  - destruct (decide (c ∈ in_flight σ)) as [Hc|]; [|discriminate].
    unfold Semaphore.releaseDownloadSemaphore in Hstep.
    destruct (downloadQueue (this σ)) as [|w rest] eqn:Hqueue;
      inversion Hstep; subst σ'; clear Hstep; simpl.
    + intros _ Hin. by apply elem_of_nil in Hin.
    + intros [[Hx _]%elem_of_filter_remove|Hx%list_elem_of_singleton]%elem_of_app Hin.
      * apply Hord; [done|]. rewrite Hqueue. by right.
      * subst x. inversion Hso as [|? ? _ Hlt]; subst.
        rewrite Forall_forall in Hlt. by apply Hlt.
Qed.

Lemma in_order_run ls :
  forall σ σ', Inv capacity σ -> in_order σ -> run ls σ = Some σ' -> in_order σ'.
Proof.
  induction ls as [|l ls IH]; intros σ σ' Hinv Hord Hrun; simpl in Hrun.
  - by inversion Hrun; subst.
  - destruct (step l σ) as [σ1|] eqn:Hstep; [|discriminate]. simpl in Hrun.
    eapply IH; [| |exact Hrun].
    + by eapply limiter_step.
    + by eapply in_order_step.
Qed.

End Fairness.

(** X5.  A [Downloader] built with any number of slots admits its callers in
    the order of their calls: at every point, every call in flight was
    made before every call that still waits, so no call is ever let in
    ahead of one that waits.  And no call waits while a slot is free:
    while the queue is not empty, as many downloads are in flight as the
    Downloader has slots. *)
Theorem downloader_admits_in_call_order capacity ls σ :
  0 <= capacity ->
  Callers.run ls (Callers.init capacity) = Some σ ->
  (forall x q,
      x ∈ Callers.in_flight σ -> q ∈ downloadQueue (Callers.this σ) -> (x < q)%nat)
  /\ (downloadQueue (Callers.this σ) <> [] ->
      Z.of_nat (length (Callers.in_flight σ)) = capacity).
Proof.
  intros Hcap Hrun.
  pose proof (limiter_run capacity ls _ _ (limiter_init capacity Hcap) Hrun) as Hinv.
  split.
  - eapply (in_order_run capacity); [apply (limiter_init capacity Hcap)| |exact Hrun].
    intros x q Hx. by apply elem_of_nil in Hx.
  - intros Hne. destruct Hinv as [Hs _ Hq _ _ _ _ _]. rewrite Hq in Hs by done. lia.
Qed.

(** X6.  A [Downloader] built without a slot never lets a download start:
    every call is queued, in order, and as no download is ever in flight
    none can settle and release. *)
Theorem downloader_without_slots_admits_nobody capacity ls σ :
  capacity <= 0 ->
  Callers.run ls (Callers.init capacity) = Some σ ->
  Callers.in_flight σ = []
  /\ downloadQueue (Callers.this σ) = seq 0 (Callers.calls σ)
  /\ Callers.calls σ = length ls
  /\ Forall (fun l => l = Callers.Call) ls.
Proof.
  intros Hcap.
  assert (Hgen : forall σ0 σ,
            avalibleDeliverySlots (Callers.this σ0) <= 0 ->
            Callers.in_flight σ0 = [] ->
            Callers.run ls σ0 = Some σ ->
            Callers.in_flight σ = []
            /\ downloadQueue (Callers.this σ)
               = downloadQueue (Callers.this σ0) ++ seq (Callers.calls σ0) (length ls)
            /\ Callers.calls σ = (Callers.calls σ0 + length ls)%nat
            /\ Forall (fun l => l = Callers.Call) ls).
  { clear σ. induction ls as [|l ls IH]; intros σ0 σ Hslots Hflight Hrun; simpl in Hrun.
    - injection Hrun as <-. simpl. rewrite app_nil_r, Nat.add_0_r. done.
    - destruct (Callers.step l σ0) as [σ1|] eqn:Hstep; [|discriminate].
      simpl in Hrun. destruct l as [|c]; simpl in Hstep.
      + unfold Semaphore.getDownloadSempahore in Hstep.
        destruct (Z.ltb_spec 0 (avalibleDeliverySlots (Callers.this σ0))); [lia|].
        injection Hstep as <-.
        apply IH in Hrun as (Hf & Hq & Hc & Hall); [|exact Hslots|exact Hflight].
        simpl in *.
        split; [done|]. split; [by rewrite Hq, <- app_assoc|].
        split; [lia|by constructor].
      + rewrite Hflight in Hstep.
        destruct (decide (c ∈ [])) as [Hc|]; [by apply elem_of_nil in Hc|done]. }
  intros Hrun. apply Hgen in Hrun as (Hf & Hq & Hc & Hall); [|exact Hcap|done].
  simpl in *. by rewrite Hc.
Qed.

(* --------------------------------------------------------------------- *)
(** ** The catalogue and the set-up *)
(* --------------------------------------------------------------------- *)

Lemma Set_add_elem_of urlSet x y : y ∈ Set_add urlSet x <-> y ∈ urlSet \/ y = x.
Proof.
  unfold Set_add. case_decide as Hx.
  - split; [by left|]. by intros [?| ->].
  - rewrite elem_of_app, list_elem_of_singleton. done.
Qed.

Lemma Set_add_NoDup urlSet x : NoDup urlSet -> NoDup (Set_add urlSet x).
Proof.
  intros Hnd. unfold Set_add. case_decide as Hx; [done|].
  apply NoDup_app. split; [done|]. split; [|apply NoDup_singleton].
  by intros y Hy ->%list_elem_of_singleton.
Qed.

Lemma fold_Set_add xs :
  forall urlSet,
    NoDup urlSet ->
    NoDup (fold_left Set_add xs urlSet)
    /\ forall y, y ∈ fold_left Set_add xs urlSet <-> y ∈ urlSet \/ y ∈ xs.
Proof.
  induction xs as [|x xs IH]; intros urlSet Hnd; simpl.
  - split; [done|]. intros y. rewrite elem_of_nil. tauto.
  - destruct (IH (Set_add urlSet x) (Set_add_NoDup _ _ Hnd)) as [Hnd' Hin].
    split; [done|]. intros y. rewrite Hin, Set_add_elem_of, elem_of_cons. tauto.
Qed.

Lemma fold_entries imgs :
  forall urlSet,
    NoDup urlSet ->
    let urlSet' :=
      fold_left
        (fun urlSet entry =>
           fold_left Set_add (chapter_urls entry) (Set_add urlSet (cover entry)))
        imgs urlSet in
    NoDup urlSet'
    /\ forall y, y ∈ urlSet' <->
         y ∈ urlSet \/ exists e, e ∈ imgs /\ (cover e = y \/ y ∈ chapter_urls e).
Proof.
  induction imgs as [|e imgs IH]; intros urlSet Hnd; simpl.
  - split; [done|]. intros y. split; [by left|].
    intros [?|(e & He & _)]; [done|]. by apply elem_of_nil in He.
  - destruct (fold_Set_add (chapter_urls e) _ (Set_add_NoDup _ (cover e) Hnd))
      as [Hnd1 Hin1].
    destruct (IH _ Hnd1) as [Hnd2 Hin2]. split; [done|].
    intros y. rewrite Hin2, Hin1, Set_add_elem_of. split.
    + intros [[[Hy| ->]|Hy]|(e' & He' & Hy)]; [by left|..].
      * right. exists e. split; [by left|by left].
      * right. exists e. split; [by left|by right].
      * right. exists e'. split; [by right|done].
    + intros [Hy|(e' & [->|He']%elem_of_cons & Hy)]; [by left; left; left|..].
      * destruct Hy as [<-|Hy]; [by left; left; right|by left; right].
      * right. by exists e'.
Qed.

Lemma NoDup_omap_id (l : list (option string)) :
  NoDup l -> NoDup (omap (fun x => x) l).
Proof.
  induction 1 as [|x l Hx Hl IH]; simpl; [constructor|].
  destruct x as [u|]; [|done]. constructor; [|done].
  intros (y & Hy & ->)%list_elem_of_omap. done.
Qed.

Lemma urlArray_of_elements imgs :
  NoDup (urlArray_of imgs)
  /\ forall u, u ∈ urlArray_of imgs <->
       exists e, e ∈ imgs /\ (cover e = Some u \/ Some u ∈ chapter_urls e).
Proof.
  unfold urlArray_of.
  destruct (fold_entries imgs [] (NoDup_nil_2 (A := option string))) as [Hnd Hin].
  cbv zeta in Hnd, Hin. split; [by apply NoDup_omap_id|].
  intros u. rewrite list_elem_of_omap. split.
  - intros (y & Hy & ->). apply Hin in Hy as [Hy|Hy]; [by apply elem_of_nil in Hy|].
    exact Hy.
  - intros He. exists (Some u). split; [|done]. apply Hin. by right.
Qed.

Lemma NoDup_urlArray_of imgs : NoDup (urlArray_of imgs).
Proof. apply urlArray_of_elements. Qed.

Lemma elem_of_urlArray_of imgs u :
  u ∈ urlArray_of imgs <->
  exists e, e ∈ imgs /\ (cover e = Some u \/ Some u ∈ chapter_urls e).
Proof. apply urlArray_of_elements. Qed.

(** X7.  [urlArray] holds every URL of the catalogue that is not [null] --
    the cover and the chapter URLs of every entry -- once each, and
    nothing else. *)
Theorem urlArray_holds_each_url_once imgs :
  NoDup (urlArray_of imgs)
  /\ forall u, u ∈ urlArray_of imgs <->
       exists e, e ∈ imgs /\ (cover e = Some u \/ Some u ∈ chapter_urls e).
Proof.
  split; [apply NoDup_urlArray_of|]. intros u. apply elem_of_urlArray_of.
Qed.

Section SetupFacts.
Context `{URLApi}.

Lemma build_imgMap_None urlArray :
  forall imgMap,
    build_imgMap urlArray imgMap = None ->
    exists u, u ∈ urlArray /\ newURL u = None.
Proof.
  induction urlArray as [|url rest IH]; intros imgMap; simpl; [done|].
  destruct (resolve url) as [fUrl|] eqn:Hres; simpl.
  - intros (u & Hu & Hbad)%IH. exists u. split; [by right|done].
  - intros _. exists url. split; [by left|]. by apply resolve_throws.
Qed.

Lemma build_imgMap_Some urlArray :
  forall imgMap0 imgMap,
    build_imgMap urlArray imgMap0 = Some imgMap ->
    forall key fUrl,
      imgMap !! key = Some fUrl <->
      (key ∈ urlArray /\ resolve key = Some fUrl)
      \/ ((key ∉ urlArray) /\ imgMap0 !! key = Some fUrl).
Proof.
  induction urlArray as [|url rest IH]; intros imgMap0 imgMap; simpl.
  - intros [= <-] key fUrl. split; [intros Hk; right; split; [|done]|].
    + by intros ?%elem_of_nil.
    + intros [[?%elem_of_nil _]|[_ ?]]; done.
  - destruct (resolve url) as [f|] eqn:Hres; simpl; [|done].
    intros Hbuild key fUrl. rewrite (IH _ _ Hbuild key fUrl).
    rewrite lookup_insert. case_decide as Hk.
    + subst key. split.
      * intros [[Hin Hr]|[Hnin [= <-]]]; left; (split; [|done]);
          [by right|by left].
      * intros [[_ Hr]|[Hnin _]]; [|exfalso; apply Hnin; by left].
        destruct (decide (url ∈ rest)); [left; auto|right].
        split; [done|congruence].
    + split.
      * intros [[Hin Hr]|[Hnin Hm]]; [left; split; [by right|done]|right].
        split; [|done]. by intros [?|?]%elem_of_cons.
      * intros [[[->|Hin]%elem_of_cons Hr]|[Hnin Hm]]; [done|left; auto|right].
        split; [|done]. intros Hin. apply Hnin. by right.
Qed.

Lemma setup_None imgs checkpoint :
  setup imgs checkpoint = None <->
  exists u, u ∈ urlArray_of imgs /\ newURL u = None.
Proof.
  split.
  - unfold setup.
    destruct (build_imgMap (urlArray_of imgs) ∅) as [imgMap|] eqn:Hbuild; [done|].
    intros _. by eapply build_imgMap_None.
  - intros (u & Hu & Hbad). by eapply setup_throws.
Qed.

Lemma setup_tasks imgs checkpoint (σ0 : State URL) :
  setup imgs checkpoint = Some σ0 ->
  (forall key t,
      tasks σ0 !! key = Some t <->
      key ∈ urlArray_of imgs
      /\ exists fUrl,
          resolve key = Some fUrl
          /\ t = {| task_url := fUrl; task_status := Pending; task_history := [] |})
  /\ size (tasks σ0) = length (urlArray_of imgs).
Proof.
  unfold setup.
  destruct (build_imgMap (urlArray_of imgs) ∅) as [imgMap|] eqn:Hbuild; [|done].
  simpl. intros [= <-]. simpl.
  pose proof (build_imgMap_Some _ _ _ Hbuild) as Hmap.
  assert (Hkeys : forall key, is_Some (imgMap !! key) <-> key ∈ urlArray_of imgs).
  { intros key. split.
    - intros [f [[Hin _]|[_ Hempty]]%Hmap]; [done|].
      by rewrite lookup_empty in Hempty.
    - intros Hin. destruct (resolve key) as [f|] eqn:Hres.
      + exists f. apply Hmap. by left.
      + exfalso. apply resolve_throws in Hres.
        by rewrite (build_imgMap_throws _ ∅ _ Hin Hres) in Hbuild. }
  split.
  - intros key t. rewrite lookup_fmap. split.
    + destruct (imgMap !! key) as [f|] eqn:Hf; simpl; [|done]. intros [= <-].
      apply Hmap in Hf as [[Hin Hr]|[_ Hempty]];
        [|by rewrite lookup_empty in Hempty].
      split; [done|]. by exists f.
    + intros (Hin & f & Hr & ->).
      assert (Hf : imgMap !! key = Some f) by (apply Hmap; by left).
      by rewrite Hf.
  - rewrite map_size_fmap, <- size_dom.
    assert (Hdom : dom imgMap = list_to_set (urlArray_of imgs)).
    { apply set_eq. intros key. by rewrite elem_of_dom, elem_of_list_to_set. }
    rewrite Hdom. apply size_list_to_set. apply NoDup_urlArray_of.
Qed.

(** X8.  The set-up fails exactly when some URL of the catalogue does not
    parse.  When it succeeds there is one job for each distinct URL of
    the catalogue, not yet started, which carries the resolved URL; there
    are as many jobs as [urlArray] has URLs. *)
Theorem setup_makes_one_job_per_url imgs checkpoint :
  (setup imgs checkpoint = None <->
   exists u, u ∈ urlArray_of imgs /\ newURL u = None)
  /\ forall σ0,
      setup imgs checkpoint = Some σ0 ->
      (forall key t,
          tasks σ0 !! key = Some t <->
          key ∈ urlArray_of imgs
          /\ exists fUrl,
              resolve key = Some fUrl
              /\ t = {| task_url := fUrl; task_status := Pending; task_history := [] |})
      /\ size (tasks σ0) = length (urlArray_of imgs).
Proof.
  split; [apply setup_None|]. intros σ0. apply setup_tasks.
Qed.

End SetupFacts.

(* --------------------------------------------------------------------- *)
(** ** What a segment does *)
(* --------------------------------------------------------------------- *)

Lemma total_insert (m : gmap string nat) key n n0 :
  m !! key = Some n0 -> (total (<[key := n]> m) + n0 = total m + n)%nat.
Proof.
  intros Hkey. unfold total.
  rewrite <- (insert_delete_eq m key n).
  rewrite map_fold_insert_L; [|intros; lia|by rewrite lookup_delete_eq].
  rewrite (map_fold_delete_L _ _ key n0 m); [lia|intros; lia|done].
Qed.

Lemma total_filter {A} (P : A -> bool) (m : gmap string A) :
  size (filter (fun kx => P kx.2 = true) m)
  = total ((fun x => if P x then 1%nat else 0%nat) <$> m).
Proof.
  induction m as [|key x m Hkey IH] using map_ind.
  - by rewrite map_filter_empty, fmap_empty.
  - rewrite fmap_insert. unfold total.
    rewrite map_fold_insert_L; [|intros; lia|by rewrite lookup_fmap, Hkey].
    fold (total ((fun x => if P x then 1%nat else 0%nat) <$> m)). rewrite <- IH.
    destruct (P x) eqn:HP.
    + rewrite map_filter_insert_True by done.
      rewrite map_size_insert_None; [done|].
      by rewrite map_lookup_filter_None_2; [|left].
    + rewrite map_filter_insert_not' by (simpl; intros; congruence || by rewrite HP).
      done.
Qed.

Section Summary.
Context `{URLApi}.

Lemma alter_as_insert {A} (g : A -> A) key (m : gmap string A) a :
  m !! key = Some a -> alter g key m = <[key := g a]> m.
Proof.
  intros Ha. apply map_eq. intros key'. rewrite lookup_alter, lookup_insert.
  case_decide; [subst; by rewrite Ha|done].
Qed.

Lemma insert_alter_same {A} (g : A -> A) key (m : gmap string A) a :
  <[key := a]> (alter g key m) = <[key := a]> m.
Proof.
  apply map_eq. intros key'. rewrite !lookup_insert.
  case_decide; [done|]. by rewrite lookup_alter_ne.
Qed.

Lemma wake_tasks woken (σ σ1 : State URL) :
  tasks σ1 = tasks σ -> tasks (wake woken σ1) = tasks (wake woken σ).
Proof. intros Ht. destruct woken; simpl; by rewrite Ht. Qed.

(** A resolver that is run changes no more of a job than [Acquiring] into
    [Downloading]. *)
Lemma wake_fmap {B} (w : Task URL -> B) woken (σ : State URL) :
  (forall t f stage,
      task_status t = Acquiring f stage ->
      w {| task_url := task_url t;
           task_status := Downloading f stage;
           task_history := task_history t |} = w t) ->
  w <$> tasks (wake woken σ) = w <$> tasks σ.
Proof.
  intros Hw. destruct woken as [key|]; [|done]. simpl.
  apply map_eq. intros key'. rewrite !lookup_fmap, lookup_alter.
  case_decide; [subst key'|done].
  destruct (tasks σ !! key) as [t|]; [|done]. simpl. f_equal.
  destruct (task_status t) eqn:Hst; try done. by apply Hw.
Qed.

Lemma enter_download_granted key f stage (σ : State URL) t d :
  downloaders σ !! (call_of f stage).1.1 = Some d ->
  tasks σ !! key = Some t ->
  exists st,
    (st = Acquiring f stage \/ st = Downloading f stage)
    /\ tasks (enter_download key f stage σ)
       = <[key := update_task st [Download (call_of f stage).1.1 (call_of f stage).1.2
                                           (call_of f stage).2] t]> (tasks σ)
    /\ urlPathMap (enter_download key f stage σ) = urlPathMap σ
    /\ done (enter_download key f stage σ) = done σ.
Proof.
  intros Hd Ht. unfold enter_download.
  destruct (call_of f stage) as [[dest target] strict]. simpl in *. rewrite Hd.
  destruct (Semaphore.getDownloadSempahore d key) as [d' granted].
  exists (if granted then Downloading f stage else Acquiring f stage).
  split; [destruct granted; auto|]. simpl.
  split; [by apply alter_as_insert|done].
Qed.

Lemma step_summary l (σ σ' : State URL) :
  limiters_inv None σ ->
  step l σ = Some σ' ->
  exists key t t' woken, Segment σ σ' key t t' woken.
Proof.
  intros (Hd & Hpres & Hretry & Hframe) Hstep.
  destruct l as [key|key env]; simpl in Hstep;
    destruct (tasks σ !! key) as [t|] eqn:Ht; simpl in Hstep; try done;
    destruct (task_status t) eqn:Hst; try done.
  - (* a job starts *)
    injection Hstep as <-. exists key, t.
    assert (Hret : has_returned t = false) by (unfold has_returned; by rewrite Hst).
    assert (Hseg : segments_left t = 3%nat) by (unfold segments_left; by rewrite Hst).
    assert (Hthrown :
              newURL key = None
              \/ (exists kUrl,
                    newURL key = Some kUrl
                    /\ hostname (default kUrl (newURL (task_url t))) ∈ Object_prototype) ->
              exists t', Segment σ (set_task key Thrown [] σ) key t t' None).
    { intros Hwhy. exists (update_task Thrown [] t).
      split; simpl.
      - done.
      - done.
      - by apply alter_as_insert.
      - done.
      - rewrite Hseg. unfold segments_left. simpl. lia.
      - done.
      - done.
      - by left.
      - intros _. by rewrite app_nil_r. }
    assert (Henter : forall f stage (σ1 : State URL) d,
              tasks σ1 = tasks σ -> urlPathMap σ1 = urlPathMap σ -> done σ1 = done σ ->
              downloaders σ1 !! (call_of f stage).1.1 = Some d ->
              exists t', Segment σ (enter_download key f stage σ1) key t t' None).
    { intros f stage σ1 d Hts Hm Hdone Hdd.
      destruct (enter_download_granted key f stage σ1 t d Hdd)
        as (st & Hcase & Hts' & Hm' & Hdone'); [by rewrite Hts|].
      eexists. split; simpl.
      - done.
      - done.
      - by rewrite Hts', Hts.
      - done.
      - rewrite Hseg. unfold segments_left. simpl.
        destruct Hcase as [-> | ->]; destruct stage; simpl; lia.
      - done.
      - rewrite Hdone', Hdone. unfold has_returned. simpl.
        by destruct Hcase as [-> | ->].
      - left. by rewrite Hm', Hm.
      - simpl. intros Hth. destruct Hcase as [-> | ->]; discriminate Hth. }
    unfold job_start. case_decide as Hskip.
    { exists (update_task Returned [] t), None.
      split; simpl.
      - done.
      - done.
      - by apply alter_as_insert.
      - done.
      - rewrite Hseg. unfold segments_left. simpl. lia.
      - done.
      - done.
      - by left.
      - intros Hth. discriminate Hth. }
    destruct (newURL key) as [kUrl|] eqn:HkUrl;
      [|destruct Hthrown as [t' Hseg']; [by left|by exists t', None]].
    set (f := {| k := key; url := task_url t; kUrl := kUrl;
                 downUrl := default kUrl (newURL (task_url t)) |}).
    set (stage := if decide (key = task_url t) then Direct else Resolved).
    assert (Hdest : (call_of f stage).1.1 = hostname (default kUrl (newURL (task_url t))))
      by (subst stage; by case_decide).
    destruct (downloaders σ !! hostname (default kUrl (newURL (task_url t)))) as [d|] eqn:Hh.
    + destruct (Henter f stage σ d) as [t' Hseg'];
        [done|done|done|by rewrite Hdest|].
      by exists t', None.
    + destruct (decide (hostname (default kUrl (newURL (task_url t))) ∈ Object_prototype))
        as [Hproto|Hproto].
      * destruct Hthrown as [t' Hseg']; [right; eauto|by exists t', None].
      * match goal with
        | |- context [enter_download key f stage ?s] => set (σ1 := s)
        end.
        destruct (Henter f stage σ1 (Semaphore.new 128)) as [t' Hseg'];
          [done|done|done|by rewrite Hdest; simpl; rewrite lookup_insert_eq|].
        by exists t', None.
  - (* a download settles *)
    assert (Hk : k f = key) by (eapply Hframe; [done|by right]).
    assert (Hret : has_returned t = false) by (unfold has_returned; by rewrite Hst).
    unfold download_settles in Hstep.
    destruct (call_of f stage) as [[dest target] strict] eqn:Hcall.
    destruct (doDownload env target strict 0 1000) as [result trace].
    destruct (downloaders σ !! dest) as [d|] eqn:Hdd; [|done]. simpl in Hstep.
    destruct (Semaphore.releaseDownloadSemaphore d) as [d' woken].
    injection Hstep as <-. exists key, t.
    set (σ1 := wake woken _).
    assert (Hts1 : tasks σ1 = tasks (wake woken σ)) by (by apply wake_tasks).
    assert (Ht1 : tasks σ1 !! key = Some t).
    { rewrite Hts1. by eapply wake_lookup_downloading. }
    assert (Hm1 : urlPathMap σ1 = urlPathMap σ) by (subst σ1; by rewrite wake_urlPathMap).
    assert (Hdone1 : done σ1 = done σ) by (subst σ1; by destruct woken).
    assert (Hdl1 : downloaders σ1 = <[dest := d']> (downloaders σ))
      by (subst σ1; by destruct woken).
    clearbody σ1. rewrite Hk.
    set (t2 := update_task (Downloading f stage) [Outcome result trace] t).
    assert (Hfinish :
      exists t',
        Segment σ
          (finish_job key
             {| urlPathMap := <[key := result]> (urlPathMap σ1);
                downloaders := downloaders σ1;
                done := done σ1;
                tasks := alter (update_task (Downloading f stage)
                                  [Outcome result trace]) key (tasks σ1) |})
          key t t' woken).
    { exists (update_task Returned [] t2).
      split; simpl.
      - done.
      - by rewrite <- Hts1.
      - rewrite <- Hts1.
        rewrite (alter_as_insert _ _ _ t2) by (by rewrite lookup_alter_eq, Ht1).
        by rewrite insert_alter_same.
      - done.
      - unfold segments_left. rewrite Hst. simpl. destruct stage; lia.
      - done.
      - by rewrite Hdone1.
      - right. exists result. by rewrite Hm1.
      - intros Hth. discriminate Hth. }
    destruct Hfinish as [tf Hfinish].
    unfold job_resume, set_task. simpl. rewrite Hk, lookup_insert_eq. simpl.
    destruct stage; try (by exists tf, woken).
    destruct (negb (JS.includes result outDir) && negb (String.eqb key (url f)));
      [|by exists tf, woken].
    match goal with
    | |- context [enter_download key f Retry ?s] => set (σ3 := s)
    end.
    assert (Hr3 : is_Some (downloaders σ3 !! "retry"%string)).
    { subst σ3. simpl. rewrite Hdl1, lookup_insert. by case_decide. }
    destruct Hr3 as [dr Hdr].
    destruct (enter_download_granted key f Retry σ3 t2 dr Hdr)
      as (st & Hcase & Hts & Hm & Hdn).
    { subst σ3. simpl. by rewrite lookup_alter_eq, Ht1. }
    eexists _, woken. split; simpl.
    + done.
    + by rewrite <- Hts1.
    + rewrite Hts. subst σ3. simpl. by rewrite insert_alter_same, Hts1.
    + done.
    + unfold segments_left. rewrite Hst. simpl.
      destruct Hcase as [-> | ->]; simpl; lia.
    + done.
    + rewrite Hdn. unfold has_returned. simpl.
      destruct Hcase as [-> | ->]; simpl; by rewrite <- Hdone1.
    + right. exists result. rewrite Hm. subst σ3. simpl. by rewrite Hm1.
    + simpl. intros Hth. destruct Hcase as [-> | ->]; discriminate Hth.
Qed.

End Summary.

(* --------------------------------------------------------------------- *)
(** ** Runs of the main routine *)
(* --------------------------------------------------------------------- *)

Lemma total_const (m : gmap string nat) c :
  (forall key n, m !! key = Some n -> n = c) -> total m = (c * size m)%nat.
Proof.
  induction m as [|key x m Hkey IH] using map_ind; intros Hall.
  - unfold total. rewrite map_fold_empty, map_size_empty. lia.
  - unfold total. rewrite map_fold_insert_L; [|intros; lia|done].
    fold (total m). rewrite map_size_insert_None by done.
    rewrite IH.
    + rewrite (Hall key x) by (by rewrite lookup_insert_eq). lia.
    + intros key' n Hn. apply (Hall key').
      rewrite lookup_insert_ne; [done|]. intros ->. congruence.
Qed.

Section Runs.
Context `{URLApi}.

(** The jobs stay the same from the set-up on; a segment keeps their
    resolved URLs. *)
Lemma Segment_lookup (σ σ' : State URL) key t t' woken key' u' :
  Segment σ σ' key t t' woken ->
  tasks σ' !! key' = Some u' ->
  (key' = key /\ u' = t')
  \/ (key' <> key /\ exists u, tasks σ !! key' = Some u /\ resumed u u').
Proof.
  intros Hseg. rewrite (seg_after _ _ _ _ _ _ Hseg), lookup_insert.
  case_decide as Hk.
  - intros [= <-]. by left.
  - intros Hu. right. split; [done|]. by apply wake_lookup in Hu.
Qed.

Lemma Segment_dom (σ σ' : State URL) key t t' woken key' :
  Segment σ σ' key t t' woken ->
  is_Some (tasks σ' !! key') <-> is_Some (tasks σ !! key').
Proof.
  intros Hseg. rewrite (seg_after _ _ _ _ _ _ Hseg), lookup_insert.
  case_decide as Hk.
  - subst key'. rewrite (seg_before _ _ _ _ _ _ Hseg). split; eauto.
  - destruct woken as [w|]; simpl; [|done].
    rewrite lookup_alter. case_decide; [subst w|done]. apply fmap_is_Some.
Qed.

Lemma Segment_total (w : Task URL -> nat) (σ σ' : State URL) key t t' woken :
  (forall t f stage,
      task_status t = Acquiring f stage ->
      w {| task_url := task_url t;
           task_status := Downloading f stage;
           task_history := task_history t |} = w t) ->
  Segment σ σ' key t t' woken ->
  (total (w <$> tasks σ') + w t = total (w <$> tasks σ) + w t')%nat.
Proof.
  intros Hw Hseg.
  rewrite (seg_after _ _ _ _ _ _ Hseg), fmap_insert, (wake_fmap w woken σ Hw).
  apply total_insert. by rewrite lookup_fmap, (seg_before _ _ _ _ _ _ Hseg).
Qed.

Lemma work_left_step l (σ σ' : State URL) :
  limiters_inv None σ -> step l σ = Some σ' ->
  (work_left σ' < work_left σ)%nat.
Proof.
  intros Hinv Hstep.
  destruct (step_summary l σ σ' Hinv Hstep) as (key & t & t' & woken & Hseg).
  pose proof (Segment_total segments_left σ σ' key t t' woken) as Htotal.
  pose proof (seg_less _ _ _ _ _ _ Hseg).
  assert (Hwake : forall (u : Task URL) f stage,
            task_status u = Acquiring f stage ->
            segments_left {| task_url := task_url u;
                             task_status := Downloading f stage;
                             task_history := task_history u |} = segments_left u).
  { intros u f stage Hu. unfold segments_left. simpl. by rewrite Hu. }
  unfold work_left. specialize (Htotal Hwake Hseg). lia.
Qed.

Lemma work_left_run ls :
  forall σ σ' : State URL,
    limiters_inv None σ -> run ls σ = Some σ' ->
    (length ls + work_left σ' <= work_left σ)%nat.
Proof.
  induction ls as [|l ls IH]; intros σ σ' Hinv Hrun; simpl in Hrun.
  - injection Hrun as <-. simpl. lia.
  - destruct (step l σ) as [σ1|] eqn:Hstep; [|done]. simpl in Hrun.
    pose proof (work_left_step _ _ _ Hinv Hstep).
    pose proof (IH _ _ (limiters_inv_step _ _ _ Hinv Hstep) Hrun).
    simpl. lia.
Qed.

(** X9.  Every run ends: a job runs at most three segments -- its start, and
    what follows each of its at most two downloads -- so a schedule is at
    most three times as long as [urlArray]. *)
Theorem run_has_at_most_three_segments_per_url imgs checkpoint σ0 ls σ :
  setup imgs checkpoint = Some σ0 ->
  run ls σ0 = Some σ ->
  (length ls <= 3 * length (urlArray_of imgs))%nat.
Proof.
  intros Hsetup Hrun.
  pose proof (work_left_run ls _ _ (limiters_inv_setup _ _ _ Hsetup) Hrun) as Hwork.
  destruct (setup_tasks imgs checkpoint σ0 Hsetup) as [Htasks Hsize].
  assert (Hstart : work_left σ0 = (3 * size (tasks σ0))%nat).
  { unfold work_left. rewrite <- (map_size_fmap segments_left). apply total_const.
    intros key n. rewrite lookup_fmap.
    destruct (tasks σ0 !! key) as [t|] eqn:Ht; simpl; [|done]. intros [= <-].
    apply Htasks in Ht as (_ & fUrl & _ & ->). done. }
  lia.
Qed.

Lemma done_step l (σ σ' : State URL) :
  limiters_inv None σ -> step l σ = Some σ' ->
  done σ = size (filter (fun kt => has_returned kt.2 = true) (tasks σ)) ->
  done σ' = size (filter (fun kt => has_returned kt.2 = true) (tasks σ')).
Proof.
  intros Hinv Hstep. rewrite !(total_filter has_returned). intros Hdone.
  destruct (step_summary l σ σ' Hinv Hstep) as (key & t & t' & woken & Hseg).
  pose proof (Segment_total (fun t => if has_returned t then 1%nat else 0%nat)
                σ σ' key t t' woken) as Htotal.
  rewrite (seg_done _ _ _ _ _ _ Hseg).
  assert (Hwake : forall (u : Task URL) f stage,
            task_status u = Acquiring f stage ->
            (if has_returned {| task_url := task_url u;
                                task_status := Downloading f stage;
                                task_history := task_history u |}
             then 1%nat else 0%nat)
            = (if has_returned u then 1%nat else 0%nat)).
  { intros u f stage Hu. unfold has_returned. simpl. by rewrite Hu. }
  specialize (Htotal Hwake Hseg). cbv beta in Htotal.
  rewrite (seg_open _ _ _ _ _ _ Hseg) in Htotal.
  destruct (has_returned t'); lia.
Qed.

(** X10.  The progress counter counts the jobs that have returned, those that
    were skipped included: at every point of every schedule [done] is
    the number of such jobs, and it never exceeds [todo.length]. *)
Theorem done_counts_returned_jobs imgs checkpoint σ0 ls σ :
  setup imgs checkpoint = Some σ0 ->
  run ls σ0 = Some σ ->
  done σ = size (filter (fun kt => has_returned kt.2 = true) (tasks σ))
  /\ (done σ <= length (urlArray_of imgs))%nat.
Proof.
  intros Hsetup Hrun.
  destruct (setup_tasks imgs checkpoint σ0 Hsetup) as [Htasks Hsize].
  assert (Hgen : forall ls (σ1 σ2 : State URL),
            limiters_inv None σ1 -> run ls σ1 = Some σ2 ->
            done σ1 = size (filter (fun kt => has_returned kt.2 = true) (tasks σ1)) ->
            done σ2 = size (filter (fun kt => has_returned kt.2 = true) (tasks σ2))
            /\ size (tasks σ2) = size (tasks σ1)).
  { clear. intros ls. induction ls as [|l ls IH]; intros σ1 σ2 Hinv Hrun Hdone;
      simpl in Hrun.
    - by injection Hrun as <-.
    - destruct (step l σ1) as [σ'|] eqn:Hstep; [|done]. simpl in Hrun.
      destruct (IH _ _ (limiters_inv_step _ _ _ Hinv Hstep) Hrun
                  (done_step _ _ _ Hinv Hstep Hdone)) as [Hd Hs].
      split; [done|]. rewrite Hs.
      destruct (step_summary l σ1 σ' Hinv Hstep) as (key & t & t' & woken & Hseg).
      rewrite <- !size_dom. f_equal. apply set_eq. intros key'.
      rewrite !elem_of_dom. by eapply Segment_dom. }
  destruct (Hgen ls σ0 σ (limiters_inv_setup _ _ _ Hsetup) Hrun) as [Hdone Hsame].
  { assert (Hzero : done σ0 = 0%nat).
    { unfold setup in Hsetup.
      destruct (build_imgMap (urlArray_of imgs) ∅) as [imgMap|]; [|done].
      simpl in Hsetup. by injection Hsetup as <-. }
    rewrite Hzero, (total_filter has_returned), (total_const _ 0%nat); [lia|].
    intros key n. rewrite lookup_fmap.
    destruct (tasks σ0 !! key) as [t|] eqn:Ht; simpl; [|done]. intros [= <-].
    apply Htasks in Ht as (_ & fUrl & _ & ->). done. }
  split; [done|]. rewrite Hdone, <- Hsize, <- Hsame.
  apply map_subseteq_size, map_filter_subseteq.
Qed.

Lemma run_tasks_dom ls :
  forall (σ σ' : State URL) key,
    limiters_inv None σ -> run ls σ = Some σ' ->
    is_Some (tasks σ' !! key) <-> is_Some (tasks σ !! key).
Proof.
  induction ls as [|l ls IH]; intros σ σ' key Hinv Hrun; simpl in Hrun.
  - by injection Hrun as <-.
  - destruct (step l σ) as [σ1|] eqn:Hstep; [|done]. simpl in Hrun.
    destruct (step_summary l σ σ1 Hinv Hstep) as (key1 & t & t' & woken & Hseg).
    rewrite (IH σ1 σ' key (limiters_inv_step _ _ _ Hinv Hstep) Hrun).
    by eapply Segment_dom.
Qed.

(** The keys of [urlPathMap] that are no URL of the catalogue are never
    written. *)
Lemma urlPathMap_frame ls :
  forall (σ σ' : State URL) key,
    limiters_inv None σ -> run ls σ = Some σ' ->
    tasks σ !! key = None ->
    urlPathMap σ' !! key = urlPathMap σ !! key.
Proof.
  induction ls as [|l ls IH]; intros σ σ' key Hinv Hrun Hkey; simpl in Hrun.
  - by injection Hrun as <-.
  - destruct (step l σ) as [σ1|] eqn:Hstep; [|done]. simpl in Hrun.
    destruct (step_summary l σ σ1 Hinv Hstep) as (key1 & t & t' & woken & Hseg).
    rewrite (IH σ1 σ' key (limiters_inv_step _ _ _ Hinv Hstep) Hrun).
    + destruct (seg_map _ _ _ _ _ _ Hseg) as [-> |[r ->]]; [done|].
      rewrite lookup_insert_ne; [done|]. intros ->.
      rewrite (seg_before _ _ _ _ _ _ Hseg) in Hkey. done.
    + apply eq_None_not_Some. rewrite (Segment_dom _ _ _ _ _ _ key Hseg).
      by rewrite Hkey.
Qed.

(** X11.  The run never removes or replaces an outcome of the checkpoint it
    started from, whether its URL is in the catalogue or not; the only
    outcomes it adds are those of URLs of the catalogue. *)
Theorem checkpoint_is_only_extended imgs checkpoint σ0 ls σ :
  setup imgs checkpoint = Some σ0 ->
  run ls σ0 = Some σ ->
  checkpoint ⊆ urlPathMap σ
  /\ forall key,
      is_Some (urlPathMap σ !! key) ->
      is_Some (checkpoint !! key) \/ key ∈ urlArray_of imgs.
Proof.
  intros Hsetup Hrun.
  destruct (setup_tasks imgs checkpoint σ0 Hsetup) as [Htasks _].
  assert (Hm0 : urlPathMap σ0 = checkpoint).
  { unfold setup in Hsetup.
    destruct (build_imgMap (urlArray_of imgs) ∅); [|done].
    simpl in Hsetup. by injection Hsetup as <-. }
  pose proof (urlPathMap_frame ls σ0 σ) as Hframe.
  assert (Hdom : forall key, is_Some (tasks σ !! key) <-> is_Some (tasks σ0 !! key)).
  { intros key.
    apply (run_tasks_dom ls σ0 σ key (limiters_inv_setup _ _ _ Hsetup) Hrun). }
  split.
  - apply map_subseteq_spec. intros key v Hv.
    destruct (tasks σ !! key) as [t|] eqn:Ht.
    + pose proof (inv_run checkpoint ls _ _ (inv_setup _ _ _ Hsetup) Hrun _ _ Ht) as Hjob.
      unfold job_inv in Hjob. destruct (task_status t).
      * destruct Hjob as [_ ->]. done.
      * destruct Hjob as [Hnone _]. congruence.
      * destruct Hjob as [Hnone _]. congruence.
      * destruct Hjob as [(_ & _ & ->)|[Hnone _]]; [done|congruence].
      * congruence.
    + rewrite Hframe; [by rewrite Hm0|by apply limiters_inv_setup with imgs checkpoint|done|].
      apply eq_None_not_Some. rewrite <- Hdom. by rewrite Ht.
  - intros key Hkey. destruct (tasks σ0 !! key) as [t|] eqn:Ht.
    + right. by apply Htasks in Ht as [Hin _].
    + left. rewrite Hframe in Hkey;
        [by rewrite Hm0 in Hkey|by apply limiters_inv_setup with imgs checkpoint|done..].
Qed.

Lemma thrown_inv_step checkpoint l (σ σ' : State URL) :
  inv checkpoint σ -> limiters_inv None σ -> thrown_inv σ ->
  step l σ = Some σ' -> thrown_inv σ'.
Proof.
  intros Hinv Hlim Hth Hstep key' u' Hu'.
  pose proof (inv_step checkpoint _ _ _ Hinv Hstep) as Hinv'.
  destruct (step_summary l σ σ' Hlim Hstep) as (key & t & t' & woken & Hseg).
  pose proof (seg_before _ _ _ _ _ _ Hseg) as Ht.
  destruct (Segment_lookup _ _ _ _ _ _ _ _ Hseg Hu') as [[-> ->]|(Hne & u & Hu & Hres)].
  - destruct (Hth _ _ Ht) as [Hparse _]. split; [done|]. intros Hst'.
    destruct (seg_thrown _ _ _ _ _ _ Hseg Hst') as (Hst & Hm & Hh & Hwhy).
    pose proof (Hinv _ _ Ht) as Hjob. unfold job_inv in Hjob. rewrite Hst in Hjob.
    destruct Hjob as [Hnil Hck].
    pose proof (Hinv' _ _ Hu') as Hjob'. unfold job_inv in Hjob'. rewrite Hst' in Hjob'.
    split; [by rewrite Hh|]. split; [by rewrite Hm, Hck|].
    destruct Hwhy as [Hbad|(kUrl & HkUrl & Hproto)].
    + rewrite Hbad in Hparse. by destruct Hparse.
    + exists kUrl. by rewrite (seg_url _ _ _ _ _ _ Hseg).
  - destruct (Hth _ _ Hu) as [Hparse Hthrown]. split; [done|]. intros Hst'.
    destruct Hres as [->|(f & stage & _ & ->)]; [|discriminate Hst'].
    destruct (Hthrown Hst') as (Hnil & Hnone & Hwhy). split; [done|]. split; [|done].
    destruct (seg_map _ _ _ _ _ _ Hseg) as [-> |[r ->]]; [done|].
    by rewrite lookup_insert_ne.
Qed.

Lemma thrown_inv_run checkpoint ls :
  forall σ σ' : State URL,
    inv checkpoint σ -> limiters_inv None σ -> thrown_inv σ ->
    run ls σ = Some σ' -> thrown_inv σ'.
Proof.
  induction ls as [|l ls IH]; intros σ σ' Hinv Hlim Hth Hrun; simpl in Hrun.
  - by injection Hrun as <-.
  - destruct (step l σ) as [σ1|] eqn:Hstep; [|done]. simpl in Hrun.
    eapply (IH σ1); [| | |done].
    + by eapply inv_step.
    + by eapply limiters_inv_step.
    + by eapply thrown_inv_step.
Qed.

Lemma thrown_inv_setup imgs checkpoint (σ0 : State URL) :
  setup imgs checkpoint = Some σ0 -> thrown_inv σ0.
Proof.
  intros Hsetup key t Ht.
  apply (setup_tasks imgs checkpoint σ0 Hsetup) in Ht as (_ & fUrl & Hres & ->).
  split; [|done].
  destruct (newURL key) eqn:Hparse; [done|].
  apply resolve_throws in Hparse. congruence.
Qed.

Lemma thrown_inv_reachable imgs checkpoint (σ0 σ : State URL) ls :
  setup imgs checkpoint = Some σ0 -> run ls σ0 = Some σ -> thrown_inv σ.
Proof.
  intros Hsetup Hrun.
  by apply (thrown_inv_run checkpoint ls σ0 σ
              (inv_setup _ _ _ Hsetup) (limiters_inv_setup _ _ _ Hsetup)
              (thrown_inv_setup _ _ _ Hsetup) Hrun).
Qed.

(** X12.  Once the set-up has succeeded, a job throws for one reason only:
    the host name of the URL it is about to download -- the resolved URL,
    or the original one when the resolved string does not parse -- is the
    name of a property that [downloaders] inherits from
    [Object.prototype].  It throws at its start: it has asked for no
    download, and it leaves no outcome in [urlPathMap]. *)
Theorem job_throws_only_on_inherited_host imgs checkpoint σ0 ls σ key t :
  setup imgs checkpoint = Some σ0 ->
  run ls σ0 = Some σ ->
  tasks σ !! key = Some t ->
  task_status t = Thrown ->
  task_history t = []
  /\ urlPathMap σ !! key = None
  /\ exists kUrl,
      newURL key = Some kUrl
      /\ hostname (default kUrl (newURL (task_url t))) ∈ Object_prototype.
Proof.
  intros Hsetup Hrun Ht Hst.
  by apply (thrown_inv_reachable _ _ _ _ _ Hsetup Hrun key t Ht).
Qed.

Lemma produced_attempts (target : URL) strict r tr :
  produced target strict r tr -> (1 <= attempts tr <= 6)%nat.
Proof.
  intros [env Hdl].
  destruct (doDownload_trace env target strict 5 0%nat 1000 eq_refl) as (m & Hm & _ & Ha).
  rewrite Hdl in Ha. simpl in Ha. lia.
Qed.

(** X13.  No URL is requested more than twelve times in a run: its job makes
    at most two downloads of at most six GETs each, and at most six GETs
    in all when the resolved URL is the original one. *)
Theorem at_most_twelve_requests_per_url imgs checkpoint σ0 ls σ key t :
  setup imgs checkpoint = Some σ0 ->
  run ls σ0 = Some σ ->
  tasks σ !! key = Some t ->
  (requests (task_history t) <= 12)%nat
  /\ (key = task_url t -> (requests (task_history t) <= 6)%nat).
Proof.
  intros Hsetup Hrun Ht.
  pose proof (inv_run checkpoint ls _ _ (inv_setup _ _ _ Hsetup) Hrun _ _ Ht) as Hjob.
  unfold job_inv in Hjob.
  assert (Hprog : forall f stage,
            frame_of key (task_url t) f ->
            in_progress f stage (task_history t) ->
            (requests (task_history t) <= 12)%nat
            /\ (key = task_url t -> (requests (task_history t) <= 6)%nat)).
  { intros f stage (Hk & Hu & _) Hin. destruct stage; simpl in Hin.
    - destruct Hin as [_ ->]. unfold requests. simpl. lia.
    - destruct Hin as [_ ->]. unfold requests. simpl. lia.
    - destruct Hin as (Hne & r1 & tr1 & -> & Hp & _).
      apply produced_attempts in Hp. unfold requests. simpl.
      split; [lia|]. intros Heq. congruence. }
  destruct (task_status t) eqn:Hst.
  - destruct Hjob as [-> _]. unfold requests. simpl. lia.
  - destruct Hjob as (_ & Hframe & Hin). by eapply Hprog.
  - destruct Hjob as (_ & Hframe & Hin). by eapply Hprog.
  - destruct Hjob as [(_ & -> & _)|(_ & f & (Hk & Hu & _) & Hdone)];
      [unfold requests; simpl; lia|].
    destruct Hdone as [(_ & r & tr & -> & Hp & _)
                      |(Hne & r1 & tr1 & Hp1 & [(-> & _)|(r2 & tr2 & -> & _ & Hp2 & _)])].
    + apply produced_attempts in Hp. unfold requests. simpl. lia.
    + apply produced_attempts in Hp1. unfold requests. simpl.
      split; [lia|]. intros Heq. congruence.
    + apply produced_attempts in Hp1. apply produced_attempts in Hp2.
      unfold requests. simpl. split; [lia|]. intros Heq. congruence.
  - destruct (thrown_inv_reachable _ _ _ _ _ Hsetup Hrun key t Ht) as [_ Hth].
    destruct (Hth Hst) as (-> & _). unfold requests. simpl. lia.
Qed.

(** X14.  While no job has thrown, the run is never stuck.  (A job that
    throws rejects [Promise.all] and ends the process: what the other jobs
    could do from there is no behaviour of the program.)  In a state
    where no job has thrown, while a job has not returned some segment
    can run: the job can start, or the download it waits for can settle,
    or -- when it waits for a slot -- one of the 128 downloads then in
    flight on its Downloader can settle. *)
Theorem run_is_never_stuck imgs checkpoint σ0 ls σ key t :
  setup imgs checkpoint = Some σ0 ->
  run ls σ0 = Some σ ->
  (forall key' t', tasks σ !! key' = Some t' -> task_status t' <> Thrown) ->
  tasks σ !! key = Some t ->
  task_status t <> Returned ->
  (exists l σ', step l σ = Some σ')
  /\ (forall f stage env,
        task_status t = Downloading f stage ->
        is_Some (step (Settle key env) σ))
  /\ (forall f stage,
        task_status t = Acquiring f stage ->
        in_flight_at σ (call_of f stage).1.1 = 128%nat).
Proof.
  intros Hsetup Hrun Hclean Ht Hnr.
  pose proof (Hclean _ _ Ht) as Hnt.
  pose proof (limiters_inv_run ls _ _ (limiters_inv_setup _ _ _ Hsetup) Hrun)
    as (Hd & Hpres & Hretry & Hframe).
  assert (Hsettle : forall key' t' f stage env,
            tasks σ !! key' = Some t' ->
            task_status t' = Downloading f stage ->
            is_Some (step (Settle key' env) σ)).
  { intros key' t' f stage env Ht' Hst'. simpl. rewrite Ht'. simpl. rewrite Hst'.
    unfold download_settles.
    destruct (Hpres key' t' (call_of f stage).1.1) as [d Hdd]; [done|done| |].
    { left. unfold holds. rewrite Hst'. by apply bool_decide_eq_true. }
    destruct (call_of f stage) as [[dest target] strict]. simpl in Hdd.
    destruct (doDownload env target strict 0 1000) as [result trace].
    rewrite Hdd. simpl.
    destruct (Semaphore.releaseDownloadSemaphore d) as [d' woken]. eauto. }
  assert (Hwait : forall f stage,
            task_status t = Acquiring f stage ->
            in_flight_at σ (call_of f stage).1.1 = 128%nat).
  { intros f stage Hst. set (dest := (call_of f stage).1.1).
    assert (Hw : waits dest t = true).
    { unfold waits. rewrite Hst. by apply bool_decide_eq_true. }
    destruct (Hpres key t dest) as [d Hdd]; [done|done|by right|].
    destruct (Hd dest d Hdd) as (hs & Hhs & Hsl & Hnn & Hnd & Hq & Hsat).
    assert (Hin : key ∈ downloadQueue d) by (apply Hq; eauto).
    assert (Hfull : avalibleDeliverySlots d = 0).
    { apply Hsat. intros Hnil. rewrite Hnil in Hin. by apply elem_of_nil in Hin. }
    destruct (in_flight_at_most_128 _ _ _ _ _ _ _ Hsetup Hrun Hdd) as [Hsum _]. lia. }
  split; [|split; [by eauto|done]].
  set (env := fun _ : nat => {| exchange := Got.Failure ""; writeFile_error := None |}).
  destruct (task_status t) eqn:Hst; try done.
  - exists (Start key). simpl. rewrite Ht. simpl. rewrite Hst. eauto.
  - pose proof (Hwait f stage eq_refl) as Hfull. unfold in_flight_at in Hfull.
    destruct (map_choose (filter (fun kt => holds (call_of f stage).1.1 kt.2 = true)
                            (tasks σ))) as (key' & t' & Ht').
    { intros Hempty. rewrite Hempty, map_size_empty in Hfull. lia. }
    apply map_lookup_filter_Some in Ht' as [Ht' Hholds]. simpl in Hholds.
    unfold holds in Hholds. destruct (task_status t') as [|?|f' stage'| |] eqn:Hst'; try done.
    destruct (Hsettle key' t' f' stage' env Ht' Hst') as [σ' Hstep]. eauto.
  - destruct (Hsettle key t f stage env Ht Hst) as [σ' Hstep]. eauto.
Qed.

(** X15.  When every job has returned, the catalogue that the final [saveJson]
    writes has a path for every URL: every cover that is not [null] has
    its [coverPath], and the [chapter_paths] of an entry are as many as
    its [chapter_urls], with a path wherever the URL is not [null].  The
    paths are the outcomes in [urlPathMap]. *)
Theorem final_save_is_complete imgs checkpoint σ0 ls σ :
  setup imgs checkpoint = Some σ0 ->
  run ls σ0 = Some σ ->
  (forall key t, tasks σ !! key = Some t -> task_status t = Returned) ->
  map saved (saveJson (urlPathMap σ) imgs).2 = imgs
  /\ forall s,
      s ∈ (saveJson (urlPathMap σ) imgs).2 ->
      (forall u, cover (saved s) = Some u ->
         is_Some (coverPath s) /\ coverPath s = urlPathMap σ !! u)
      /\ Forall2 (fun x p =>
                    forall u, x = Some u -> is_Some p /\ p = urlPathMap σ !! u)
           (chapter_urls (saved s)) (chapter_paths s).
Proof.
  intros Hsetup Hrun Hall.
  destruct (setup_tasks imgs checkpoint σ0 Hsetup) as [Htasks _].
  assert (Hhas : forall u, u ∈ urlArray_of imgs -> is_Some (urlPathMap σ !! u)).
  { intros u Hu.
    assert (Hu0 : is_Some (tasks σ0 !! u)).
    { destruct (resolve u) as [fUrl|] eqn:Hres.
      - eexists. apply Htasks. split; [done|]. eauto.
      - apply resolve_throws in Hres.
        by rewrite (setup_throws _ _ _ Hu Hres) in Hsetup. }
    apply (run_tasks_dom ls σ0 σ u (limiters_inv_setup _ _ _ Hsetup) Hrun) in Hu0
      as [t Ht].
    pose proof (inv_run checkpoint ls _ _ (inv_setup _ _ _ Hsetup) Hrun _ _ Ht) as Hjob.
    unfold job_inv in Hjob. rewrite (Hall _ _ Ht) in Hjob.
    destruct Hjob as [(Hck & _ & ->)|(_ & f & _ & Hdone)]; [done|].
    destruct Hdone as [(_ & r & tr & _ & _ & ->)
                      |(_ & r1 & tr1 & _ & [(_ & _ & ->)|(r2 & tr2 & _ & _ & _ & ->)])];
      eauto. }
  split.
  { simpl. rewrite map_map. simpl. apply map_id. }
  intros s Hs. simpl in Hs. apply list_elem_of_In, in_map_iff in Hs as (e & <- & He).
  apply list_elem_of_In in He. simpl. split.
  - intros u Hu. rewrite Hu. unfold path_of. simpl. split; [|done].
    apply Hhas, elem_of_urlArray_of. exists e. auto.
  - apply Forall2_fmap_r, Forall_Forall2_diag, Forall_forall.
    intros x Hx u ->. unfold path_of. simpl. split; [|done].
    apply Hhas, elem_of_urlArray_of. exists e. auto.
Qed.

Lemma finished_step l (σ σ' : State URL) key t :
  limiters_inv None σ ->
  step l σ = Some σ' ->
  tasks σ !! key = Some t ->
  segments_left t = 0%nat ->
  tasks σ' !! key = Some t /\ urlPathMap σ' !! key = urlPathMap σ !! key.
Proof.
  intros Hinv Hstep Ht Hzero.
  destruct (step_summary l σ σ' Hinv Hstep) as (key1 & t1 & t1' & woken & Hseg).
  assert (Hne : key1 <> key).
  { intros ->. rewrite (seg_before _ _ _ _ _ _ Hseg) in Ht. injection Ht as ->.
    pose proof (seg_less _ _ _ _ _ _ Hseg). lia. }
  split.
  - rewrite (seg_after _ _ _ _ _ _ Hseg), lookup_insert_ne by done.
    destruct woken as [w|]; simpl; [|done].
    rewrite lookup_alter. case_decide; [subst w|done]. rewrite Ht. simpl.
    unfold segments_left in Hzero. by destruct (task_status t) as [|? []|? []| |].
  - destruct (seg_map _ _ _ _ _ _ Hseg) as [-> |[r ->]]; [done|].
    by rewrite lookup_insert_ne.
Qed.

(** X16.  A job that has returned or thrown is over: whatever the other
    jobs do afterwards, it runs no further segment, its history stays as
    it is, and so does what [urlPathMap] holds for its URL -- an outcome,
    once its job has returned, is final for the run. *)
Theorem finished_job_is_final imgs checkpoint σ0 ls ls' σ σ' key t :
  setup imgs checkpoint = Some σ0 ->
  run ls σ0 = Some σ ->
  run ls' σ = Some σ' ->
  tasks σ !! key = Some t ->
  task_status t = Returned \/ task_status t = Thrown ->
  tasks σ' !! key = Some t
  /\ urlPathMap σ' !! key = urlPathMap σ !! key
  /\ Forall (fun l => l <> Start key /\ forall env, l <> Settle key env) ls'.
Proof.
  intros Hsetup Hrun Hrun' Ht Hst.
  assert (Hzero : segments_left t = 0%nat).
  { unfold segments_left. by destruct Hst as [-> | ->]. }
  pose proof (limiters_inv_run ls _ _ (limiters_inv_setup _ _ _ Hsetup) Hrun) as Hinv.
  clear Hsetup Hrun. revert σ Hinv Hrun' Ht.
  induction ls' as [|l ls' IH]; intros σ Hinv Hrun' Ht; simpl in Hrun'.
  - injection Hrun' as <-. by repeat split.
  - destruct (step l σ) as [σ1|] eqn:Hstep; [|done]. simpl in Hrun'.
    destruct (finished_step l σ σ1 key t Hinv Hstep Ht Hzero) as [Ht1 Hm1].
    destruct (IH σ1 (limiters_inv_step _ _ _ Hinv Hstep) Hrun' Ht1) as (Ht' & Hm' & Hls).
    split; [done|]. split; [by rewrite Hm'|]. constructor; [|done].
    split.
    + intros ->. simpl in Hstep. rewrite Ht in Hstep. simpl in Hstep.
      by destruct Hst as [Hs|Hs]; rewrite Hs in Hstep.
    + intros env ->. simpl in Hstep. rewrite Ht in Hstep. simpl in Hstep.
      by destruct Hst as [Hs|Hs]; rewrite Hs in Hstep.
Qed.

End Runs.

(* --------------------------------------------------------------------- *)
(** ** The timers of saveJson *)
(* --------------------------------------------------------------------- *)



(* --------------------------------------------------------------------- *)
(** ** The properties above, on the example inputs *)
(* --------------------------------------------------------------------- *)

Lemma doDownload_first_decisive_witness :
  (3 <= MaxRetries)%nat
  /\ decisive (fst (try_block Ex.cdn_a true (Ex.first 3 Ex.timeout Ex.empty_png 3))) = true
  /\ doDownload (Ex.first 3 Ex.timeout Ex.empty_png) Ex.cdn_a true 0 1000
     = ("./images/d41d8cd98f00b204e9800998ecf8427e.png"%string,
        [Request Ex.cdn_a true; Sleep 1000;
         Request Ex.cdn_a true; Sleep 2000;
         Request Ex.cdn_a true; Sleep 3000;
         Request Ex.cdn_a true;
         WriteFile "./images/d41d8cd98f00b204e9800998ecf8427e.png" []]).
Proof.
  assert (H0 : (3 <= MaxRetries)%nat) by (unfold MaxRetries; lia).
  assert (H1 : forall i, (i < 3)%nat ->
            decisive (fst (try_block Ex.cdn_a true
                             (Ex.first 3 Ex.timeout Ex.empty_png i))) = false).
  { intros [|[|[|i]]] Hi; [reflexivity..|lia]. }
  assert (H2 : decisive (fst (try_block Ex.cdn_a true
                                (Ex.first 3 Ex.timeout Ex.empty_png 3))) = true)
    by reflexivity.
  split; [exact H0|]. split; [exact H2|].
  exact (proj2 (doDownload_first_decisive
                  (Ex.first 3 Ex.timeout Ex.empty_png) Ex.cdn_a true)
           3%nat H0 H1 (or_introl H2)).
Defined.

Lemma writeFile_failure_is_retried_witness :
  try_block Ex.cdn_a true (Ex.disk_full 0)
  = (Throw "ENOSPC: no space left on device, write", [Request Ex.cdn_a true])
  /\ ((0 < MaxRetries)%nat ->
      doDownload Ex.disk_full Ex.cdn_a true 0 1000
      = (fst (doDownload Ex.disk_full Ex.cdn_a true (0 + 1) (1000 + 1000)),
         Request Ex.cdn_a true :: Sleep 1000
           :: snd (doDownload Ex.disk_full Ex.cdn_a true (0 + 1) (1000 + 1000))))
  /\ ((MaxRetries <= 0)%nat ->
      doDownload Ex.disk_full Ex.cdn_a true 0 1000
      = ("ENOSPC: no space left on device, write"%string, [Request Ex.cdn_a true])).
Proof.
  exact (writeFile_failure_is_retried Ex.disk_full Ex.cdn_a true 0%nat 1000
           (Ex.response 200 "OK" (Some "image/png"%string) "")
           "ENOSPC: no space left on device, write"
           eq_refl eq_refl eq_refl eq_refl eq_refl).
Defined.

Lemma downloader_admits_in_call_order_witness :
  0 <= 128
  /\ Callers.run Ex.rush (Callers.init 128) = Some Ex.saturated
  /\ (forall x q,
        x ∈ Callers.in_flight Ex.saturated ->
        q ∈ downloadQueue (Callers.this Ex.saturated) -> (x < q)%nat)
  /\ (downloadQueue (Callers.this Ex.saturated) <> [] ->
      Z.of_nat (length (Callers.in_flight Ex.saturated)) = 128).
Proof.
  assert (H0 : 0 <= 128) by lia.
  assert (H1 : Callers.run Ex.rush (Callers.init 128) = Some Ex.saturated)
    by (vm_compute; reflexivity).
  split; [exact H0|]. split; [exact H1|].
  exact (downloader_admits_in_call_order 128 Ex.rush Ex.saturated H0 H1).
Defined.

Lemma downloader_without_slots_admits_nobody_witness :
  0 <= 0
  /\ Callers.run (repeat Callers.Call 3) (Callers.init 0) = Some Ex.starved
  /\ Callers.in_flight Ex.starved = []
  /\ downloadQueue (Callers.this Ex.starved) = seq 0 (Callers.calls Ex.starved)
  /\ Callers.calls Ex.starved = length (repeat Callers.Call 3)
  /\ Forall (fun l => l = Callers.Call) (repeat Callers.Call 3).
Proof.
  assert (H0 : 0 <= 0) by lia.
  assert (H1 : Callers.run (repeat Callers.Call 3) (Callers.init 0) = Some Ex.starved)
    by (vm_compute; reflexivity).
  split; [exact H0|]. split; [exact H1|].
  exact (downloader_without_slots_admits_nobody 0 _ Ex.starved H0 H1).
Defined.

Lemma setup_makes_one_job_per_url_witness :
  setup Ex.catalogue ∅ = Some Ex.fresh_start
  /\ size (tasks Ex.fresh_start) = length (urlArray_of Ex.catalogue).
Proof.
  assert (H0 : setup Ex.catalogue ∅ = Some Ex.fresh_start)
    by (vm_compute; reflexivity).
  split; [exact H0|].
  exact (proj2 (proj2 (setup_makes_one_job_per_url Ex.catalogue ∅) Ex.fresh_start H0)).
Defined.

Lemma run_has_at_most_three_segments_per_url_witness :
  setup Ex.catalogue ∅ = Some Ex.fresh_start
  /\ run Ex.complete_schedule Ex.fresh_start = Some Ex.complete_end
  /\ (length Ex.complete_schedule <= 3 * length (urlArray_of Ex.catalogue))%nat.
Proof.
  assert (H0 : setup Ex.catalogue ∅ = Some Ex.fresh_start)
    by (vm_compute; reflexivity).
  assert (H1 : run Ex.complete_schedule Ex.fresh_start = Some Ex.complete_end)
    by (vm_compute; reflexivity).
  split; [exact H0|]. split; [exact H1|].
  exact (run_has_at_most_three_segments_per_url _ _ _ _ _ H0 H1).
Defined.

Lemma done_counts_returned_jobs_witness :
  setup Ex.catalogue ∅ = Some Ex.fresh_start
  /\ run Ex.complete_schedule Ex.fresh_start = Some Ex.complete_end
  /\ done Ex.complete_end
     = size (filter (fun kt => has_returned kt.2 = true) (tasks Ex.complete_end))
  /\ (done Ex.complete_end <= length (urlArray_of Ex.catalogue))%nat.
Proof.
  assert (H0 : setup Ex.catalogue ∅ = Some Ex.fresh_start)
    by (vm_compute; reflexivity).
  assert (H1 : run Ex.complete_schedule Ex.fresh_start = Some Ex.complete_end)
    by (vm_compute; reflexivity).
  split; [exact H0|]. split; [exact H1|].
  exact (done_counts_returned_jobs _ _ _ _ _ H0 H1).
Defined.

Lemma checkpoint_is_only_extended_witness :
  setup Ex.catalogue Ex.cover_done = Some Ex.skip_start
  /\ run Ex.skip_schedule Ex.skip_start = Some Ex.skip_end
  /\ Ex.cover_done ⊆ urlPathMap Ex.skip_end
  /\ forall key,
      is_Some (urlPathMap Ex.skip_end !! key) ->
      is_Some (Ex.cover_done !! key) \/ key ∈ urlArray_of Ex.catalogue.
Proof.
  assert (H0 : setup Ex.catalogue Ex.cover_done = Some Ex.skip_start)
    by (vm_compute; reflexivity).
  assert (H1 : run Ex.skip_schedule Ex.skip_start = Some Ex.skip_end)
    by (vm_compute; reflexivity).
  split; [exact H0|]. split; [exact H1|].
  exact (checkpoint_is_only_extended _ _ _ _ _ H0 H1).
Defined.

Lemma job_throws_only_on_inherited_host_witness :
  setup Ex.inherited_catalogue ∅ = Some Ex.inherited_start
  /\ run [Start Ex.inherited] Ex.inherited_start = Some Ex.inherited_end
  /\ tasks Ex.inherited_end !! Ex.inherited = Some Ex.inherited_task
  /\ task_status Ex.inherited_task = Thrown
  /\ task_history Ex.inherited_task = []
  /\ urlPathMap Ex.inherited_end !! Ex.inherited = None
  /\ exists kUrl,
      newURL Ex.inherited = Some kUrl
      /\ hostname (default kUrl (newURL (task_url Ex.inherited_task)))
           ∈ Object_prototype.
Proof.
  assert (H0 : setup Ex.inherited_catalogue ∅ = Some Ex.inherited_start)
    by (vm_compute; reflexivity).
  assert (H1 : run [Start Ex.inherited] Ex.inherited_start = Some Ex.inherited_end)
    by (vm_compute; reflexivity).
  assert (H2 : tasks Ex.inherited_end !! Ex.inherited = Some Ex.inherited_task)
    by (vm_compute; reflexivity).
  assert (H3 : task_status Ex.inherited_task = Thrown)
    by (vm_compute; reflexivity).
  repeat (split; [assumption|]).
  exact (job_throws_only_on_inherited_host _ _ _ _ _ _ _ H0 H1 H2 H3).
Defined.

Lemma at_most_twelve_requests_per_url_witness :
  setup Ex.catalogue ∅ = Some Ex.fresh_start
  /\ run Ex.fallback_schedule Ex.fresh_start = Some Ex.fallback_end
  /\ tasks Ex.fallback_end !! Ex.proxied = Some Ex.fallback_task
  /\ requests (task_history Ex.fallback_task) = 2%nat
  /\ (requests (task_history Ex.fallback_task) <= 12)%nat
  /\ (Ex.proxied = task_url Ex.fallback_task ->
      (requests (task_history Ex.fallback_task) <= 6)%nat).
Proof.
  assert (H0 : setup Ex.catalogue ∅ = Some Ex.fresh_start)
    by (vm_compute; reflexivity).
  assert (H1 : run Ex.fallback_schedule Ex.fresh_start = Some Ex.fallback_end)
    by (vm_compute; reflexivity).
  assert (H2 : tasks Ex.fallback_end !! Ex.proxied = Some Ex.fallback_task)
    by (vm_compute; reflexivity).
  repeat (split; [assumption|]).
  split; [vm_compute; reflexivity|].
  exact (at_most_twelve_requests_per_url _ _ _ _ _ _ _ H0 H1 H2).
Defined.

Lemma run_is_never_stuck_witness :
  setup Ex.catalogue ∅ = Some Ex.fresh_start
  /\ run Ex.busy_schedule Ex.fresh_start = Some Ex.busy_end
  /\ (forall key' t',
        tasks Ex.busy_end !! key' = Some t' -> task_status t' <> Thrown)
  /\ tasks Ex.busy_end !! Ex.direct = Some Ex.busy_task
  /\ task_status Ex.busy_task <> Returned
  /\ (exists l σ', step l Ex.busy_end = Some σ')
  /\ (forall f stage env,
        task_status Ex.busy_task = Downloading f stage ->
        is_Some (step (Settle Ex.direct env) Ex.busy_end))
  /\ (forall f stage,
        task_status Ex.busy_task = Acquiring f stage ->
        in_flight_at Ex.busy_end (call_of f stage).1.1 = 128%nat).
Proof.
  assert (H0 : setup Ex.catalogue ∅ = Some Ex.fresh_start)
    by (vm_compute; reflexivity).
  assert (H1 : run Ex.busy_schedule Ex.fresh_start = Some Ex.busy_end)
    by (vm_compute; reflexivity).
  assert (H2 : forall key' t',
            tasks Ex.busy_end !! key' = Some t' -> task_status t' <> Thrown).
  { assert (Hall : map_Forall (fun _ t => segments_left t <> 0%nat)
                     (tasks Ex.busy_end))
      by (apply (bool_decide_unpack _); vm_compute; exact I).
    intros key' t' Ht'. specialize (Hall key' t' Ht'). clear Ht'.
    intros Hst. apply Hall. unfold segments_left. rewrite Hst. reflexivity. }
  assert (H3 : tasks Ex.busy_end !! Ex.direct = Some Ex.busy_task)
    by (vm_compute; reflexivity).
  assert (H4 : task_status Ex.busy_task <> Returned)
    by (vm_compute; discriminate).
  split; [exact H0|]. split; [exact H1|]. split; [exact H2|].
  split; [exact H3|]. split; [exact H4|].
  exact (run_is_never_stuck _ _ _ _ _ _ _ H0 H1 H2 H3 H4).
Defined.

Lemma final_save_is_complete_witness :
  setup Ex.catalogue ∅ = Some Ex.fresh_start
  /\ run Ex.complete_schedule Ex.fresh_start = Some Ex.complete_end
  /\ (forall key t,
        tasks Ex.complete_end !! key = Some t -> task_status t = Returned)
  /\ (saveJson (urlPathMap Ex.complete_end) Ex.catalogue).2
     = [ {| saved := {| id := 1;
                        cover := Some Ex.proxied;
                        chapter_urls := [None; Some Ex.direct; Some Ex.proxied] |};
            coverPath := Some "./images/d41d8cd98f00b204e9800998ecf8427e.png"%string;
            chapter_paths :=
              [None;
               Some "./images/d41d8cd98f00b204e9800998ecf8427e.png"%string;
               Some "./images/d41d8cd98f00b204e9800998ecf8427e.png"%string] |} ]
  /\ map saved (saveJson (urlPathMap Ex.complete_end) Ex.catalogue).2 = Ex.catalogue
  /\ forall s,
      s ∈ (saveJson (urlPathMap Ex.complete_end) Ex.catalogue).2 ->
      (forall u, cover (saved s) = Some u ->
         is_Some (coverPath s) /\ coverPath s = urlPathMap Ex.complete_end !! u)
      /\ Forall2 (fun x p =>
                    forall u, x = Some u ->
                      is_Some p /\ p = urlPathMap Ex.complete_end !! u)
           (chapter_urls (saved s)) (chapter_paths s).
Proof.
  assert (H0 : setup Ex.catalogue ∅ = Some Ex.fresh_start)
    by (vm_compute; reflexivity).
  assert (H1 : run Ex.complete_schedule Ex.fresh_start = Some Ex.complete_end)
    by (vm_compute; reflexivity).
  assert (H2 : forall key t,
            tasks Ex.complete_end !! key = Some t -> task_status t = Returned).
  { assert (Hall : map_Forall (fun _ t => has_returned t = true)
                     (tasks Ex.complete_end))
      by (apply (bool_decide_unpack _); vm_compute; exact I).
    intros key t Ht. specialize (Hall key t Ht). clear Ht.
    unfold has_returned in Hall.
    destruct (task_status t); [discriminate Hall..|reflexivity|discriminate Hall]. }
  repeat (split; [assumption|]).
  split; [vm_compute; reflexivity|].
  exact (final_save_is_complete _ _ _ _ _ H0 H1 H2).
Defined.

Lemma finished_job_is_final_witness :
  setup Ex.catalogue ∅ = Some Ex.fresh_start
  /\ run Ex.fallback_schedule Ex.fresh_start = Some Ex.fallback_end
  /\ run [Settle Ex.direct (Ex.always Ex.empty_png)] Ex.fallback_end
     = Some Ex.complete_end
  /\ tasks Ex.fallback_end !! Ex.proxied = Some Ex.fallback_task
  /\ (task_status Ex.fallback_task = Returned \/ task_status Ex.fallback_task = Thrown)
  /\ tasks Ex.complete_end !! Ex.proxied = Some Ex.fallback_task
  /\ urlPathMap Ex.complete_end !! Ex.proxied
     = urlPathMap Ex.fallback_end !! Ex.proxied
  /\ Forall (fun l => l <> Start Ex.proxied
                      /\ forall env, l <> Settle Ex.proxied env)
       [Settle Ex.direct (Ex.always Ex.empty_png)].
Proof.
  assert (H0 : setup Ex.catalogue ∅ = Some Ex.fresh_start)
    by (vm_compute; reflexivity).
  assert (H1 : run Ex.fallback_schedule Ex.fresh_start = Some Ex.fallback_end)
    by (vm_compute; reflexivity).
  assert (H2 : run [Settle Ex.direct (Ex.always Ex.empty_png)] Ex.fallback_end
               = Some Ex.complete_end)
    by (vm_compute; reflexivity).
  assert (H3 : tasks Ex.fallback_end !! Ex.proxied = Some Ex.fallback_task)
    by (vm_compute; reflexivity).
  assert (H4 : task_status Ex.fallback_task = Returned
               \/ task_status Ex.fallback_task = Thrown)
    by (left; vm_compute; reflexivity).
  split; [exact H0|]. split; [exact H1|]. split; [exact H2|].
  split; [exact H3|]. split; [exact H4|].
  exact (finished_job_is_final _ _ _ _ _ _ _ _ _ H0 H1 H2 H3 H4).
Defined.

